(** * A model of @xstate/test's [TestModel] (packages/xstate-test/src/index.ts)

    The development follows the TypeScript source function by function.

    - A JavaScript object used as a record of properties (the event
      configuration, [state.meta], a path map, a coverage report) and a
      JavaScript [Map] are association lists in insertion order.  No key is
      taken to be an array index, which JavaScript would enumerate first.
      Where the code reads a property by a name that need not be an own
      property (the type of an event in the event configuration), what the
      object inherits from [Object.prototype] is a variable of the section.
    - Code that awaits, throws or mutates runs in a small state-and-exception
      monad [M].  Its state, the [World], holds the system under test that the
      caller's functions drive, the heap of the coverage objects the
      [TestModel] instances own, the console, and the list of the calls made to
      caller-supplied functions.  A call returns, throws or never settles.
    - What is thrown is an [Error] object, a name and a message that the
      code may extend, or a primitive value, on which a property cannot be
      set.
    - Functions supplied by the caller (state assertions, event executors,
      description functions) are handles; [run_test] and [run_exec] give what
      a call of a handle does to the system under test and how it settles.
    - What is imported from @xstate/graph, xstate and ./slimChalk is a
      variable of the section.

    After the model of [TestModel] and its instance [Toggle] come, each in a
    module of its own, a model of [updateContext]
    (packages/core/src/updateContext.ts) and a model of the registry of
    services of the inspector with core's devTools.ts. *)

From Stdlib Require Import String Ascii List ZArith Bool Lia.
From stdpp Require Import base list strings.
Import ListNotations.
Local Open Scope string_scope.
Local Open Scope list_scope.

Set Implicit Arguments.
Set Default Proof Using "Type".

(** ** JavaScript values *)

#[local] Set Warnings "-register-all".

Inductive Json : Type :=
| JNull
| JBool (b : bool)
| JNum (z : Z)
| JStr (s : string)
| JArr (l : list Json)
| JObj (o : list (string * Json)).

(** An object as the ordered list of its own properties. *)
Definition Obj (A : Type) : Type := list (string * A).

Fixpoint obj_get {A : Type} (k : string) (o : Obj A) : option A :=
  match o with
  | [] => None
  | (k', v) :: o' => if String.eqb k k' then Some v else obj_get k o'
  end.

(** [o[k] = v]: an existing property keeps its place, a new one goes last. *)
Fixpoint obj_set {A : Type} (k : string) (v : A) (o : Obj A) : Obj A :=
  match o with
  | [] => [(k, v)]
  | (k', v') :: o' =>
      if String.eqb k k' then (k, v) :: o' else (k', v') :: obj_set k v o'
  end.

Definition obj_keys {A : Type} (o : Obj A) : list string := map fst o.

(** [{...a, ...b}] *)
Definition obj_spread {A : Type} (a b : Obj A) : Obj A :=
  fold_left (fun acc kv => obj_set (fst kv) (snd kv) acc) b a.

(** [const {k, ...other} = o] *)
Definition obj_rest {A : Type} (k : string) (o : Obj A) : Obj A :=
  List.filter (fun kv => negb (String.eqb k (fst kv))) o.

(** String concatenation, apart from the [++] of lists. *)
Infix "+++" := String.append (right associativity, at level 60).

Definition tab : string := String (ascii_of_nat 9) EmptyString.
Definition nl : string := String (ascii_of_nat 10) EmptyString.
Definition dquote : string := String (ascii_of_nat 34) EmptyString.

(** [xs.join(sep)] *)
Fixpoint join (sep : string) (xs : list string) : string :=
  match xs with
  | [] => EmptyString
  | [x] => x
  | x :: rest => x +++ sep +++ join sep rest
  end.

Definition is_Some_b {A : Type} (o : option A) : bool :=
  match o with Some _ => true | None => false end.

(** ** Errors and the monad of effects *)

Record Error : Type := { name : string; message : string }.

Definition set_message (e : Error) (m : string) : Error :=
  {| name := name e; message := m |}.

(** A value that is not an object. *)
Inductive Primitive : Type :=
| PUndefined
| PNull
| PBool (b : bool)
| PNum (z : Z)
| PStr (s : string).

(** [ToBoolean] of a primitive. *)
Definition truthy_primitive (v : Primitive) : bool :=
  match v with
  | PUndefined | PNull => false
  | PBool b => b
  | PNum z => negb (Z.eqb z 0)
  | PStr s => negb (String.eqb s EmptyString)
  end.

(** What a [throw] statement or a rejected promise carries: an error
    object, or a primitive ([throw 'boom'], [Promise.reject()]). *)
Inductive Thrown : Type :=
| ThrownError (e : Error)
| ThrownPrimitive (v : Primitive).

Coercion ThrownError : Error >-> Thrown.

(** [value ? ... : ...] for a recorded error: [null] when there is none. *)
Definition truthy_error (o : option Thrown) : bool :=
  match o with
  | Some (ThrownError _) => true
  | Some (ThrownPrimitive v) => truthy_primitive v
  | None => false
  end.

(** How a call settles: it returns, it throws (a rejected promise, once
    awaited), or it never settles. *)
Inductive Outcome (A : Type) : Type :=
| Ret (a : A)
| Throw (e : Thrown)
| Hang.
Arguments Ret {A} a.
Arguments Throw {A} e.
Arguments Hang {A}.

(** A synchronous call that returns or throws. *)
Inductive Result (A : Type) : Type :=
| Ok (a : A)
| Raise (e : Error).
Arguments Ok {A} a.
Arguments Raise {A} e.

Definition M (St A : Type) : Type := St -> Outcome A * St.

Definition ret {St A : Type} (a : A) : M St A := fun s => (Ret a, s).

Definition throw {St A : Type} (e : Thrown) : M St A := fun s => (Throw e, s).

Definition bind {St A B : Type} (m : M St A) (k : A -> M St B) : M St B :=
  fun s =>
    match m s with
    | (Ret a, s') => k a s'
    | (Throw e, s') => (Throw e, s')
    | (Hang, s') => (Hang, s')
    end.

(** [try { m } catch (err) { h err }] *)
Definition try_catch {St A : Type} (m : M St A) (h : Thrown -> M St A) : M St A :=
  fun s =>
    match m s with
    | (Throw e, s') => h e s'
    | r => r
    end.

Definition gets {St A : Type} (f : St -> A) : M St A := fun s => (Ret (f s), s).

Definition modify {St : Type} (f : St -> St) : M St unit := fun s => (Ret tt, f s).

Declare Scope js_scope.
Delimit Scope js_scope with js.
Notation "'let*' x ':=' m 'in' k" := (bind m (fun x => k))
  (at level 10, x name, m at level 100, k at level 200) : js_scope.
Notation "m ;; k" := (bind m (fun _ => k))
  (at level 100, k at level 200, right associativity) : js_scope.
Local Open Scope js_scope.

(** [for (const x of xs) { await body(x) }] *)
Fixpoint for_of {St A : Type} (xs : list A) (body : A -> M St unit) : M St unit :=
  match xs with
  | [] => ret tt
  | x :: rest => body x ;; for_of rest body
  end.

(** A computation on the second component of a paired state. *)
Definition lift_snd {L St A : Type} (m : M St A) : M (L * St) A :=
  fun ls =>
    match m (snd ls) with
    | (r, s') => (r, (fst ls, s'))
    end.

Section TestModel.

(** ** What the model is given *)

(** The system under test, the caller's test context, the machine. *)
Context {SUT TestContext Machine TraversalOptions : Type}.
(** Handles of caller-supplied functions. *)
Context {TestFn Executor DescriptionFn : Type}.

(** [JSON.stringify] and the string conversion of a value that is not a
    string. *)
Variable JSON_stringify : Json -> string.
Variable ToString : Json -> string.
(** [slimChalk(color, str)] *)
Variable slimChalk : string -> string -> string.

(** ** Data model *)

Definition EventObject : Type := Obj Json.
Definition StateValue : Type := Json.

(** [event.type], as a property key or inside a template string. *)
Definition event_type (e : EventObject) : string :=
  match obj_get "type" e with
  | Some (JStr s) => s
  | Some v => ToString v
  | None => "undefined"
  end.

Record StateNode : Type := { sn_id : string; sn_type : string }.

Inductive Description : Type :=
| DescString (s : string)
| DescFunction (f : DescriptionFn).

(** [TestMeta]: every field is optional; an absent [skip] is [false]. *)
Record TestMeta : Type := {
  meta_test : option TestFn;
  meta_description : option Description;
  meta_skip : bool
}.

Record State : Type := {
  st_value : StateValue;
  st_context : option Json;
  st_meta : Obj TestMeta;
  st_configuration : list StateNode
}.

(** [TestEventConfig]: a bare executor, or [{exec?, cases?}]. *)
Inductive TestEventConfig : Type :=
| EventFn (f : Executor)
| EventConfig (exec : option Executor) (cases : option (list (Obj Json))).

Definition TestEventsConfig : Type := Obj TestEventConfig.

Record TestModelOptions : Type := { events : TestEventsConfig }.

(** [Partial<TestModelOptions>]: the property [events] is there, with an
    object for value ([Some]), or is not there ([None]).  An options object
    that has the property with the value [undefined] is not represented: the
    spread copies that [undefined] over the default, and the instance then
    has no event configuration to read. *)
Record PartialOptions : Type := { opt_events : option TestEventsConfig }.

(** ** getEventSamples *)

Definition getEventSamples (eventsOptions : TestEventsConfig) : list EventObject :=
  fold_left
    (fun result kc =>
       let key := fst kc in
       match snd kc with
       | EventFn _ => result ++ [[("type", JStr key)]]
       | EventConfig _ cases =>
           let events :=
             match cases with
             | Some cs => map (fun sample => obj_spread [("type", JStr key)] sample) cs
             | None => [[("type", JStr key)]]
             end in
           result ++ events
       end)
    eventsOptions [].

(** ** The world the model runs in *)

(** A call of a caller-supplied function, with its arguments. *)
Inductive Call : Type :=
| CallTest (f : TestFn) (testContext : TestContext) (state : State)
| CallExec (f : Executor) (testContext : TestContext) (event : EventObject).

(** [TestModelCoverage]: two [Map]s from id to count. *)
Record TestModelCoverage : Type := {
  stateNodes : Obj nat;
  transitions : Obj nat
}.

Record World : Type := {
  sut : SUT;
  heap : list TestModelCoverage;
  console : list string;
  calls : list Call
}.

(** What a call of a handle does: it may change the system under test, and
    it returns, rejects or never settles. *)
Variable run_test : TestFn -> TestContext -> State -> SUT -> Outcome unit * SUT.
Variable run_exec : Executor -> TestContext -> EventObject -> SUT -> Outcome unit * SUT.
Variable run_description : DescriptionFn -> State -> string.

(** [state.matches(stateValue)] *)
Variable matches : State -> StateValue -> bool.

(** What [object[name]] finds when [name] is no own property of an object
    literal: a property inherited from [Object.prototype].  It is a function
    ([toString], [valueOf], [constructor], [hasOwnProperty], ...), which is
    a handle as the caller's functions are, or another value that is not
    falsy ([__proto__], the prototype itself), of which the code reads
    [exec].  A name that [Object.prototype] does not have, or has with a
    falsy value, gives [None]. *)
Inductive Inherited : Type :=
| InheritedFunction (f : Executor)
| InheritedValue (exec : option Executor).

Variable Object_prototype : string -> option Inherited.

Definition call_test (f : TestFn) (testContext : TestContext) (state : State)
  : M World unit :=
  fun w =>
    match run_test f testContext state (sut w) with
    | (r, s') =>
        (r, {| sut := s'; heap := heap w; console := console w;
               calls := calls w ++ [CallTest f testContext state] |})
    end.

Definition call_exec (f : Executor) (testContext : TestContext) (event : EventObject)
  : M World unit :=
  fun w =>
    match run_exec f testContext event (sut w) with
    | (r, s') =>
        (r, {| sut := s'; heap := heap w; console := console w;
               calls := calls w ++ [CallExec f testContext event] |})
    end.

Definition console_warn (msg : string) : M World unit :=
  modify (fun w => {| sut := sut w; heap := heap w;
                      console := console w ++ [msg]; calls := calls w |}).

(** ** The TestModel class *)

(** An instance: its [coverage] field is a reference into the heap. *)
Record TestModel : Type := {
  machine : Machine;
  options : TestModelOptions;
  coverage : nat
}.

Definition empty_coverage : TestModelCoverage :=
  {| stateNodes := []; transitions := [] |}.

Definition defaultOptions : TestModelOptions := {| events := [] |}.

(** [{...TestModel.defaultOptions, ...options}] *)
Definition spread_options (options : option PartialOptions) : TestModelOptions :=
  match options with
  | Some {| opt_events := Some e |} => {| events := e |}
  | _ => defaultOptions
  end.

(** [new TestModel(machine, options)] *)
Definition new_TestModel (machine : Machine) (options : option PartialOptions)
  : M World TestModel :=
  fun w =>
    (Ret {| machine := machine; options := spread_options options;
            coverage := length (heap w) |},
     {| sut := sut w; heap := heap w ++ [empty_coverage];
        console := console w; calls := calls w |}).

(** [this.coverage] *)
Definition this_coverage (this : TestModel) (w : World) : TestModelCoverage :=
  default empty_coverage (heap w !! coverage this).

(** [this.coverage.stateNodes.set(id, (this.coverage.stateNodes.get(id) || 0) + 1)] *)
Definition count_stateNode (this : TestModel) (id : string) : M World unit :=
  modify (fun w =>
    let c := this_coverage this w in
    {| sut := sut w;
       heap := <[coverage this :=
                  {| stateNodes :=
                       obj_set id (default 0 (obj_get id (stateNodes c)) + 1)
                               (stateNodes c);
                     transitions := transitions c |}]> (heap w);
       console := console w; calls := calls w |}).

(** The loop runs over the own properties of [state.meta] in order. *)
Definition testState (this : TestModel) (state : State) (testContext : TestContext)
  : M World unit :=
  for_of (st_meta state) (fun entry =>
    let id := fst entry in
    let stateNodeMeta := snd entry in
    match meta_test stateNodeMeta with
    | Some test =>
        if negb (meta_skip stateNodeMeta) then
          count_stateNode this id ;;
          call_test test testContext state
        else ret tt
    | None => ret tt
    end).

(** [this.options.events[event.type]] is an own property of the
    configuration or, for a type that is none, a property the configuration
    inherits. *)
Definition getEventExecutor (this : TestModel) (event : EventObject)
  : M World (option Executor) :=
  match obj_get (event_type event) (events (options this)) with
  | Some (EventFn f) => ret (Some f)
  | Some (EventConfig exec _) => ret exec
  | None =>
      match Object_prototype (event_type event) with
      | Some (InheritedFunction f) => ret (Some f)
      | Some (InheritedValue exec) => ret exec
      | None =>
          console_warn ("Missing config for event " +++ dquote +++ event_type event
                          +++ dquote +++ ".") ;;
          ret None
      end
  end.

Definition executeEvent (this : TestModel) (event : EventObject)
    (testContext : TestContext) : M World unit :=
  let* executor := getEventExecutor this event in
  match executor with
  | Some f => call_exec f testContext event
  | None => ret tt
  end.

(** ** Paths and plans *)

(** What the graph search returns: a map from serialized state to
    [{state, paths}], each path [{state, steps, weight}]. *)
Record Segment : Type := { seg_state : State; seg_event : EventObject }.

Record StatePath : Type := {
  sp_state : State;
  sp_steps : list Segment;
  sp_weight : Z
}.

Record StatePlan : Type := { sp_plan_state : State; sp_plan_paths : list StatePath }.

Definition StatePathsMap : Type := Obj StatePlan.

Record TestStep : Type := {
  step_state : State;
  step_event : EventObject;
  step_description : string;
  step_test : TestContext -> M World unit;
  step_exec : TestContext -> M World unit
}.

Record TestStepResult : Type := {
  tsr_step : TestStep;
  tsr_state_error : option Thrown;
  tsr_event_error : option Thrown
}.

Record TestPathResult : Type := {
  tpr_steps : list TestStepResult;
  tpr_state_error : option Thrown
}.

Record TestPath : Type := {
  path_state : State;
  path_steps : list TestStep;
  path_weight : Z;
  path_description : string;
  path_test : TestContext -> M World TestPathResult
}.

Record TestPlan : Type := {
  plan_state : State;
  plan_paths : list TestPath;
  plan_description : string;
  plan_test : TestContext -> M World unit
}.

(** ** getDescription *)

Definition is_empty (s : string) : bool :=
  match s with EmptyString => true | _ => false end.

Definition getDescription (state : State) : string :=
  let contextString :=
    match st_context state with
    | None => EmptyString
    | Some c => "(" +++ JSON_stringify c +++ ")"
    end in
  let stateStrings :=
    map (fun sn =>
           match obj_get (sn_id sn) (st_meta state) with
           | None => dquote +++ "#" +++ sn_id sn +++ dquote
           | Some meta =>
               match meta_description meta with
               | Some (DescFunction description) => run_description description state
               | Some (DescString description) =>
                   if is_empty description then JSON_stringify (st_value state)
                   else dquote +++ description +++ dquote
               | None => JSON_stringify (st_value state)
               end
           end)
        (List.filter
           (fun sn => String.eqb (sn_type sn) "atomic" || String.eqb (sn_type sn) "final")
           (st_configuration state)) in
  "state" +++ (if Nat.eqb (length stateStrings) 1 then EmptyString else "s") +++ ": "
    +++ join ", " stateStrings +++ " " +++ contextString.

(** ** getTestPlans *)

Definition formatEvent (event : EventObject) : string :=
  let other := obj_rest "type" event in
  let propertyString :=
    match other with
    | [] => EmptyString
    | _ => " (" +++ JSON_stringify (JObj other) +++ ")"
    end in
  event_type event +++ propertyString.

(** [" \u2192 "], the separator of the event chain. *)
Definition arrow : string := " → ".

(** [`${JSON.stringify(state.value)} ${state.context === undefined ? '' :
    JSON.stringify(state.context)}`] *)
Definition stateString (state : State) : string :=
  JSON_stringify (st_value state) +++ " "
    +++ match st_context state with
       | None => EmptyString
       | Some c => JSON_stringify c
       end.

(** One pass of the callback of [testPathResult.steps.map]; [hasFailed] is
    the variable the callback closes over. *)
Definition trace_entry (hasFailed : bool) (s : TestStepResult) : string * bool :=
  let eventString := JSON_stringify (JObj (step_event (tsr_step s))) in
  let stateResult :=
    if hasFailed then (slimChalk "gray" (stateString (step_state (tsr_step s))), hasFailed)
    else if truthy_error (tsr_state_error s)
         then (slimChalk "redBright" (stateString (step_state (tsr_step s))), true)
         else (slimChalk "greenBright" (stateString (step_state (tsr_step s))), hasFailed) in
  let hasFailed := snd stateResult in
  let eventResult :=
    if hasFailed then (slimChalk "gray" eventString, hasFailed)
    else if truthy_error (tsr_event_error s)
         then (slimChalk "red" eventString, true)
         else (slimChalk "green" eventString, hasFailed) in
  (join nl [tab +++ "State: " +++ fst stateResult; tab +++ "Event: " +++ fst eventResult],
   snd eventResult).

Fixpoint trace_entries (hasFailed : bool) (steps : list TestStepResult)
  : list string * bool :=
  match steps with
  | [] => ([], hasFailed)
  | s :: rest =>
      let (line, hasFailed1) := trace_entry hasFailed s in
      let (lines, hasFailed2) := trace_entries hasFailed1 rest in
      (line :: lines, hasFailed2)
  end.

(** What the catch block appends to [err.message]. *)
Definition path_trace (path : StatePath) (testPathResult : TestPathResult) : string :=
  let targetStateString := stateString (sp_state path) in
  let (lines, hasFailed) := trace_entries false (tpr_steps testPathResult) in
  nl +++ "Path:" +++ nl
    +++ join (nl +++ nl)
         (lines ++
            [tab +++ "State: " +++
               (if hasFailed then slimChalk "gray" targetStateString
                else if truthy_error (tpr_state_error testPathResult)
                     then slimChalk "red" targetStateString
                     else slimChalk "green" targetStateString)]).

(** The steps of a compiled path: [path.steps.map(...)]. *)
Definition compile_step (this : TestModel) (step : Segment) : TestStep :=
  {| step_state := seg_state step;
     step_event := seg_event step;
     step_description := getDescription (seg_state step);
     step_test := fun testContext => testState this (seg_state step) testContext;
     step_exec := fun testContext => executeEvent this (seg_event step) testContext |}.

(** The body of the loop of a path's [test]: the local [testPathResult] is
    the first component of the state.  [testStepResult] is the object just
    pushed, at index [i] of [testPathResult.steps]. *)
Definition test_step (testContext : TestContext) (step : TestStep)
  : M (TestPathResult * World) unit :=
  let* i := gets (fun ls => length (tpr_steps (fst ls))) in
  modify (fun ls =>
    ({| tpr_steps := tpr_steps (fst ls) ++
                       [{| tsr_step := step; tsr_state_error := None;
                           tsr_event_error := None |}];
        tpr_state_error := tpr_state_error (fst ls) |}, snd ls)) ;;
  try_catch (lift_snd (step_test step testContext))
    (fun err =>
       modify (fun ls =>
         ({| tpr_steps :=
               alter (fun r => {| tsr_step := tsr_step r;
                                  tsr_state_error := Some err;
                                  tsr_event_error := tsr_event_error r |})
                     i (tpr_steps (fst ls));
             tpr_state_error := tpr_state_error (fst ls) |}, snd ls)) ;;
       throw err) ;;
  try_catch (lift_snd (step_exec step testContext))
    (fun err =>
       modify (fun ls =>
         ({| tpr_steps :=
               alter (fun r => {| tsr_step := tsr_step r;
                                  tsr_state_error := tsr_state_error r;
                                  tsr_event_error := Some err |})
                     i (tpr_steps (fst ls));
             tpr_state_error := tpr_state_error (fst ls) |}, snd ls)) ;;
       throw err).

(** The outer [try] block of a path's [test]. *)
Definition test_path_body (this : TestModel) (target : State)
    (steps : list TestStep) (testContext : TestContext)
  : M (TestPathResult * World) unit :=
  for_of steps (test_step testContext) ;;
  try_catch (lift_snd (testState this target testContext))
    (fun err =>
       modify (fun ls =>
         ({| tpr_steps := tpr_steps (fst ls); tpr_state_error := Some err |},
          snd ls)) ;;
       throw err).

(** [err.message += trace; throw err] in the [catch] block, which is strict
    code: the message of an error object is extended and the object thrown
    again; on a primitive the property cannot be read ([undefined], [null])
    or set, and a [TypeError] is thrown in place of the value that was
    caught.  The text of that message varies with the engine; the one here
    names the operation that failed and the kind of the value. *)
Definition TypeError_message (v : Primitive) : Error :=
  {| name := "TypeError";
     message :=
       match v with
       | PUndefined => "Cannot read properties of undefined (reading 'message')"
       | PNull => "Cannot read properties of null (reading 'message')"
       | PBool _ => "Cannot create property 'message' on boolean"
       | PNum _ => "Cannot create property 'message' on number"
       | PStr _ => "Cannot create property 'message' on string"
       end |}.

Definition append_trace (err : Thrown) (trace : string) : Thrown :=
  match err with
  | ThrownError e => ThrownError (set_message e (message e +++ trace))
  | ThrownPrimitive v => ThrownError (TypeError_message v)
  end.

(** A path's [test]: the [try] block, and the [catch] that appends the trace
    to the message of the error and throws it again. *)
Definition test_path (this : TestModel) (testPlan : StatePlan) (path : StatePath)
    (steps : list TestStep) (testContext : TestContext) : M World TestPathResult :=
  fun w =>
    match test_path_body this (sp_plan_state testPlan) steps testContext
            ({| tpr_steps := []; tpr_state_error := None |}, w) with
    | (Ret _, (testPathResult, w')) => (Ret testPathResult, w')
    | (Throw err, (testPathResult, w')) =>
        (Throw (append_trace err (path_trace path testPathResult)), w')
    | (Hang, (_, w')) => (Hang, w')
    end.

Definition compile_path (this : TestModel) (testPlan : StatePlan) (path : StatePath)
  : TestPath :=
  let steps := map (compile_step this) (sp_steps path) in
  let eventsString := join arrow (map (fun s => formatEvent (seg_event s)) (sp_steps path)) in
  {| path_state := sp_state path;
     path_steps := steps;
     path_weight := sp_weight path;
     path_description := "via " +++ eventsString;
     path_test := test_path this testPlan path steps |}.

(** A plan's [test]: [for (const path of paths) { await path.test(testContext) }] *)
Definition test_plan (paths : list TestPath) (testContext : TestContext) : M World unit :=
  for_of paths (fun path => path_test path testContext ;; ret tt).

Definition getTestPlans (this : TestModel) (statePathsMap : StatePathsMap)
  : list TestPlan :=
  map (fun entry =>
         let testPlan := snd entry in
         let paths := map (compile_path this testPlan) (sp_plan_paths testPlan) in
         {| plan_state := sp_plan_state testPlan;
            plan_paths := paths;
            plan_description := "reaches " +++ getDescription (sp_plan_state testPlan);
            plan_test := test_plan paths |})
      statePathsMap.

(** ** Path planning *)

(** The searches of @xstate/graph.  The model passes [serializeState] and the
    caller's options, if any. *)
Variable getShortestPaths :
  Machine -> list EventObject -> option TraversalOptions -> StatePathsMap.
Variable getSimplePaths :
  Machine -> list EventObject -> option TraversalOptions -> StatePathsMap.

Variable getPathFromEvents : Machine -> list EventObject -> Result StatePath.

Definition getShortestPathPlans (this : TestModel) (opts : option TraversalOptions)
  : list TestPlan :=
  let shortestPaths :=
    getShortestPaths (machine this) (getEventSamples (events (options this))) opts in
  getTestPlans this shortestPaths.

(** [StateValue | StatePredicate<TContext>] *)
Inductive Target : Type :=
| TargetValue (stateValue : StateValue)
| TargetPredicate (stateValue : State -> bool).

Definition filterPathsTo (stateValue : Target) (testPlans : list TestPlan)
  : list TestPlan :=
  let predicate :=
    match stateValue with
    | TargetPredicate f => fun plan => f (plan_state plan)
    | TargetValue v => fun plan => matches (plan_state plan) v
    end in
  List.filter predicate testPlans.

(** [minWeight]: a weight or [Infinity]. *)
Inductive Num : Type :=
| Finite (z : Z)
| Infinity.

(** [currWeight < minWeight] and [currWeight === minWeight] *)
Definition num_lt (currWeight : Z) (minWeight : Num) : bool :=
  match minWeight with
  | Finite m => Z.ltb currWeight m
  | Infinity => true
  end.

Definition num_eq (currWeight : Z) (minWeight : Num) : bool :=
  match minWeight with
  | Finite m => Z.eqb currWeight m
  | Infinity => false
  end.

(** Reading a property of [undefined]. *)
Definition TypeError_undefined (prop : string) : Error :=
  {| name := "TypeError";
     message := "Cannot read properties of undefined (reading '" +++ prop +++ "')" |}.

(** [plan.paths[0].weight] *)
Definition first_weight (plan : TestPlan) : Result Z :=
  match plan_paths plan with
  | path :: _ => Ok (path_weight path)
  | [] => Raise (TypeError_undefined "weight")
  end.

(** The loop of [getShortestPathPlansTo], from the values of [minWeight] and
    [shortestPlans] at its entry. *)
Fixpoint shortest_loop (plans : list TestPlan) (minWeight : Num)
    (shortestPlans : list TestPlan) : Result (list TestPlan) :=
  match plans with
  | [] => Ok shortestPlans
  | plan :: rest =>
      match first_weight plan with
      | Raise e => Raise e
      | Ok currWeight =>
          if num_lt currWeight minWeight then
            shortest_loop rest (Finite currWeight) [plan]
          else if num_eq currWeight minWeight then
            shortest_loop rest minWeight (shortestPlans ++ [plan])
          else shortest_loop rest minWeight shortestPlans
      end
  end.

Definition getShortestPathPlansTo (this : TestModel) (stateValue : Target)
  : Result (list TestPlan) :=
  let plans := filterPathsTo stateValue (getShortestPathPlans this None) in
  shortest_loop plans Infinity [].

Definition getSimplePathPlans (this : TestModel) (opts : option TraversalOptions)
  : list TestPlan :=
  let simplePaths :=
    getSimplePaths (machine this) (getEventSamples (events (options this))) opts in
  getTestPlans this simplePaths.

Definition getSimplePathPlansTo (this : TestModel) (stateValue : Target)
  : list TestPlan :=
  filterPathsTo stateValue (getSimplePathPlans this None).

(** [plans[0]] is [undefined] on an empty array. *)
Definition getPlanFromEvents (this : TestModel) (events : list EventObject)
    (target : StateValue) : Result (option TestPlan) :=
  match getPathFromEvents (machine this) events with
  | Raise e => Raise e
  | Ok path =>
      if negb (matches (sp_state path) target) then
        Raise {| name := "Error";
                 message := "The last state " +++ JSON_stringify (st_value (sp_state path))
                              +++ " does not match the target: "
                              +++ JSON_stringify target |}
      else
        let plans :=
          getTestPlans this
            [(JSON_stringify (st_value (sp_state path)),
              {| sp_plan_state := sp_state path; sp_plan_paths := [path] |})] in
        Ok (head plans)
  end.

(** ** Coverage *)

Variable getStateNodes : Machine -> list StateNode.

Record CoverageOptions : Type := { filter : option (StateNode -> bool) }.

(** The value [getCoverage] returns: [{ stateNodes: Record<string, number> }]. *)
Record Coverage : Type := { cov_stateNodes : Obj nat }.

Definition getCoverage (this : TestModel) (opts : option CoverageOptions)
  : M World Coverage :=
  gets (fun w =>
    let filter :=
      match opts with
      | Some o => filter o
      | None => None
      end in
    let stateNodes0 := getStateNodes (machine this) in
    let filteredStateNodes :=
      match filter with
      | Some f => List.filter f stateNodes0
      | None => stateNodes0
      end in
    let coverage0 :=
      fold_left (fun acc stateNode => obj_set (sn_id stateNode) 0 acc)
                filteredStateNodes [] in
    {| cov_stateNodes :=
         fold_left (fun acc kv => obj_set (fst kv) (snd kv) acc)
                   (stateNodes (this_coverage this w)) coverage0 |}).

(** [!coverage.stateNodes[id]] *)
Definition falsy_count (o : option nat) : bool :=
  match o with
  | Some (S _) => false
  | _ => true
  end.

Definition testCoverage (this : TestModel) (opts : option CoverageOptions)
  : M World unit :=
  let* coverage := getCoverage this opts in
  let missingStateNodes :=
    List.filter (fun id => falsy_count (obj_get id (cov_stateNodes coverage)))
                (obj_keys (cov_stateNodes coverage)) in
  match missingStateNodes with
  | [] => ret tt
  | _ =>
      throw {| name := "Error";
               message := "Missing coverage for state nodes:" +++ nl
                            +++ join nl (map (fun id => tab +++ id) missingStateNodes) |}
  end.

Definition withEvents (this : TestModel) (eventMap : TestEventsConfig)
  : M World TestModel :=
  new_TestModel (machine this) (Some {| opt_events := Some eventMap |}).

Definition createModel (machine : Machine) (opts : option PartialOptions)
  : M World TestModel :=
  new_TestModel machine opts.

(** * Vocabulary of the properties *)

Unset Implicit Arguments.

(** ** Event samples *)

(** The samples of one configured key, as the specification words them. *)
Definition samples_of_key (key : string) (eventConfig : TestEventConfig)
  : list EventObject :=
  match eventConfig with
  | EventFn _ => [[("type", JStr key)]]
  | EventConfig _ (Some cases) =>
      map (fun sample => obj_spread [("type", JStr key)] sample) cases
  | EventConfig _ None => [[("type", JStr key)]]
  end.

(** ** Coverage *)

(** The state nodes [getCoverage] starts from: all of the machine's, or
    those the caller's filter keeps. *)
Definition filteredStateNodes (this : TestModel) (opts : option CoverageOptions)
  : list StateNode :=
  match opts with
  | Some {| filter := Some f |} => List.filter f (getStateNodes (machine this))
  | _ => getStateNodes (machine this)
  end.

(** Whether [id] is the id of one of [nodes]. *)
Definition has_id (id : string) (nodes : list StateNode) : bool :=
  existsb (fun stateNode => String.eqb id (sn_id stateNode)) nodes.

(** The ids [testCoverage] reports: the keys of the coverage map whose count
    is zero, in the order of the map. *)
Definition zero_count_ids (coverage : Coverage) : list string :=
  List.filter (fun id => falsy_count (obj_get id (cov_stateNodes coverage)))
              (obj_keys (cov_stateNodes coverage)).

(** The count of [id] in the coverage of [this]. *)
Definition counter (this : TestModel) (id : string) (w : World) : option nat :=
  obj_get id (stateNodes (this_coverage this w)).

(** The count of [id] is the same in both worlds. *)
Definition same_counter (this : TestModel) (id : string) (w w' : World) : Prop :=
  counter this id w' = counter this id w.

(** ** Relations between worlds *)

(** [Preserves proj R m]: whatever the outcome, the world [m] ends in is
    related by [R] to the world it starts in.  [proj] finds the world in the
    state of the monad. *)
Definition Preserves {St : Type} (proj : St -> World) (R : World -> World -> Prop)
    {A : Type} (m : M St A) : Prop :=
  forall s, R (proj s) (proj (snd (m s))).

(** The coverage object at [l] is the same in both worlds. *)
Definition keeps (l : nat) (w w' : World) : Prop := heap w' !! l = heap w !! l.

(** The calls of [w'] are those of [w] and then more. *)
Definition extends_calls (w w' : World) : Prop :=
  exists cs, calls w' = calls w ++ cs.

(** The calls of [w'] are those of [w] followed by calls that satisfy [P]. *)
Definition calls_added (P : Call -> Prop) (w w' : World) : Prop :=
  exists cs, calls w' = calls w ++ cs /\ Forall P cs.

(** Every [stateNodes] map of the heap has distinct keys, as a [Map] has. *)
Definition distinct_keys (w : World) : Prop :=
  Forall (fun c => NoDup (obj_keys (stateNodes c))) (heap w).

Definition keeps_distinct_keys (w w' : World) : Prop :=
  distinct_keys w -> distinct_keys w'.

(** A relation on worlds that the model's own steps respect: it is a
    preorder that holds across a call of a caller's function, across a
    warning, and across the increment of a counter of [this]. *)
Record Respected (this : TestModel) (R : World -> World -> Prop) : Prop := {
  resp_refl : forall w, R w w;
  resp_trans : forall w1 w2 w3, R w1 w2 -> R w2 w3 -> R w1 w3;
  resp_call_test : forall f testContext state,
      Preserves (fun w => w) R (call_test f testContext state);
  resp_call_exec : forall f testContext event,
      Preserves (fun w => w) R (call_exec f testContext event);
  resp_warn : forall msg, Preserves (fun w => w) R (console_warn msg);
  resp_count : forall id, Preserves (fun w => w) R (count_stateNode this id)
}.

(** ** State assertions *)

(** The entries of [state.meta] that declare a [test] function and are not
    marked [skip], in order, each with its function. *)
Definition tested_entries (state : State) : list (string * TestFn) :=
  flat_map (fun entry =>
              match meta_test (snd entry) with
              | Some test => if negb (meta_skip (snd entry)) then [(fst entry, test)] else []
              | None => []
              end)
           (st_meta state).

(** What [testState] does for one such entry: count, then call. *)
Definition assert_entry (this : TestModel) (state : State) (testContext : TestContext)
    (entry : string * TestFn) : M World unit :=
  count_stateNode this (fst entry) ;;
  call_test (snd entry) testContext state.

(** ** Results of steps and runs of paths *)

(** The record of a step whose assertion and executor succeeded, of a step
    whose assertion rejected, of a step whose executor rejected. *)
Definition passed (step : TestStep) : TestStepResult :=
  {| tsr_step := step; tsr_state_error := None; tsr_event_error := None |}.

Definition state_rejected (step : TestStep) (err : Thrown) : TestStepResult :=
  {| tsr_step := step; tsr_state_error := Some err; tsr_event_error := None |}.

Definition event_rejected (step : TestStep) (err : Thrown) : TestStepResult :=
  {| tsr_step := step; tsr_state_error := None; tsr_event_error := Some err |}.

Definition state_failed (step : TestStep) (err : Error) : TestStepResult :=
  {| tsr_step := step; tsr_state_error := Some (ThrownError err);
     tsr_event_error := None |}.

Definition event_failed (step : TestStep) (err : Error) : TestStepResult :=
  {| tsr_step := step; tsr_state_error := None;
     tsr_event_error := Some (ThrownError err) |}.

(** From [w], the assertion and then the executor of each step, one step
    after the other, all return, and leave the world [w']. *)
Inductive steps_pass (testContext : TestContext)
  : list TestStep -> World -> World -> Prop :=
| steps_pass_nil (w : World) : steps_pass testContext [] w w
| steps_pass_cons (step : TestStep) (steps : list TestStep) (w w1 w2 w3 : World) :
    step_test step testContext w = (Ret tt, w1) ->
    step_exec step testContext w1 = (Ret tt, w2) ->
    steps_pass testContext steps w2 w3 ->
    steps_pass testContext (step :: steps) w w3.

(** The local [testPathResult] as a path's [test] starts. *)
Definition no_result : TestPathResult := {| tpr_steps := []; tpr_state_error := None |}.

(** [runs_in_sequence testContext paths w segments res]: from [w] the tests
    of [paths] run one after the other, each from the world the one before
    it returned in, up to the first that does not return; [segments] are
    the calls each of them made, in that order, and [res] is the outcome and
    the world at the end. *)
Inductive runs_in_sequence (testContext : TestContext)
  : list TestPath -> World -> list (list Call) -> Outcome unit * World -> Prop :=
| seq_done (w : World) :
    runs_in_sequence testContext [] w [] (Ret tt, w)
| seq_next (path : TestPath) (paths : list TestPath) (w w1 : World)
    (result : TestPathResult) (cs : list Call) (segments : list (list Call))
    (res : Outcome unit * World) :
    path_test path testContext w = (Ret result, w1) ->
    calls w1 = calls w ++ cs ->
    runs_in_sequence testContext paths w1 segments res ->
    runs_in_sequence testContext (path :: paths) w (cs :: segments) res
| seq_throw (path : TestPath) (paths : list TestPath) (w w1 : World)
    (err : Thrown) (cs : list Call) :
    path_test path testContext w = (Throw err, w1) ->
    calls w1 = calls w ++ cs ->
    runs_in_sequence testContext (path :: paths) w [cs] (Throw err, w1)
| seq_hang (path : TestPath) (paths : list TestPath) (w w1 : World) (cs : list Call) :
    path_test path testContext w = (Hang, w1) ->
    calls w1 = calls w ++ cs ->
    runs_in_sequence testContext (path :: paths) w [cs] (Hang, w1).

(** ** Weights *)

(** The weight the loop reads from a plan that has a path. *)
Definition plan_weight (plan : TestPlan) : Z :=
  match plan_paths plan with
  | path :: _ => path_weight path
  | [] => 0
  end.

Definition num_min (a b : Num) : Num :=
  match a, b with
  | Infinity, _ => b
  | _, Infinity => a
  | Finite x, Finite y => Finite (Z.min x y)
  end.

(** The least weight among [plans]; [Infinity] when there is none. *)
Definition min_weight (plans : list TestPlan) : Num :=
  fold_right (fun plan m => num_min (Finite (plan_weight plan)) m) Infinity plans.

(** ** The trace of a failed path *)

(** The entry of the trace for one step: its state and its event, each in
    the given colour. *)
Definition trace_lines (stateColor eventColor : string) (step : TestStep) : string :=
  join nl [tab +++ "State: " +++ slimChalk stateColor (stateString (step_state step));
           tab +++ "Event: "
             +++ slimChalk eventColor (JSON_stringify (JObj (step_event step)))].

(** The last entry of the trace: the state of the path. *)
Definition target_line (color : string) (path : StatePath) : string :=
  tab +++ "State: " +++ slimChalk color (stateString (sp_state path)).

(** A recorded step holds an error, as the trace sees it: a value that is
    not falsy. *)
Definition has_error (s : TestStepResult) : bool :=
  truthy_error (tsr_state_error s) || truthy_error (tsr_event_error s).

(** ** Executors *)

(** The executor the configuration gives an event type: a bare function is
    the executor, a record gives its [exec]. *)
Definition configured_executor (this : TestModel) (event : EventObject)
  : option Executor :=
  match obj_get (event_type event) (events (options this)) with
  | Some (EventFn f) => Some f
  | Some (EventConfig exec _) => exec
  | None => None
  end.

(** The executor the configuration inherits for the type of an event: an
    inherited function, or the [exec] of another inherited value. *)
Definition inherited_executor (event : EventObject) : option Executor :=
  match Object_prototype (event_type event) with
  | Some (InheritedFunction f) => Some f
  | Some (InheritedValue exec) => exec
  | None => None
  end.

(** The executor [getEventExecutor] finds: the configured one for a type
    that is a key of the configuration, the inherited one for another. *)
Definition found_executor (this : TestModel) (event : EventObject) : option Executor :=
  match obj_get (event_type event) (events (options this)) with
  | Some _ => configured_executor this event
  | None => inherited_executor event
  end.

(** The type of the event is neither a key of the configuration of [this]
    nor a name that objects inherit. *)
Definition missing_config (this : TestModel) (event : EventObject) : bool :=
  match obj_get (event_type event) (events (options this)),
        Object_prototype (event_type event) with
  | None, None => true
  | _, _ => false
  end.

(** ** Targets and descriptions *)

(** Whether a state matches a target: the predicate [filterPathsTo] builds. *)
Definition target_matches (stateValue : Target) (state : State) : bool :=
  match stateValue with
  | TargetPredicate f => f state
  | TargetValue v => matches state v
  end.





(** ** Counters over time *)

(** [map.set(id, (map.get(id) || 0) + 1)] on the map itself. *)
Definition bump (id : string) (counters : Obj nat) : Obj nat :=
  obj_set id (default 0 (obj_get id counters) + 1) counters.

(** Every coverage object of [w] is still in [w'], and each of its counters
    is still there and is not smaller. *)
Definition counters_grow (w w' : World) : Prop :=
  forall l c,
    heap w !! l = Some c ->
    exists c',
      heap w' !! l = Some c'
      /\ forall id n,
          obj_get id (stateNodes c) = Some n ->
          exists n', obj_get id (stateNodes c') = Some n' /\ n <= n'.

(** No counter of the heap is zero. *)
Definition positive_counters (w : World) : Prop :=
  Forall (fun c => forall id n, obj_get id (stateNodes c) = Some n -> 1 <= n) (heap w).

(** What holds of the counters of every world the model makes from a world
    without instances: the keys of a map are distinct and no counter is
    zero. *)
Definition sound_counters (w : World) : Prop :=
  distinct_keys w /\ positive_counters w.

Definition keeps_sound_counters (w w' : World) : Prop :=
  sound_counters w -> sound_counters w'.

(** How many times [id] is in [ids]. *)
Definition occurrences (id : string) (ids : list string) : nat :=
  length (List.filter (String.eqb id) ids).

(** The ids whose assertion runs along a path that passes: those of the
    state of each step, then those of the target. *)
Definition asserted_ids (path : StatePath) (target : State) : list string :=
  flat_map (fun step => map fst (tested_entries (seg_state step))) (sp_steps path)
    ++ map fst (tested_entries target).

(** The report [getCoverage] computes in a world. *)
Definition coverage_report (this : TestModel) (opts : option CoverageOptions)
    (w : World) : Coverage :=
  {| cov_stateNodes :=
       fold_left (fun acc kv => obj_set (fst kv) (snd kv) acc)
         (stateNodes (this_coverage this w))
         (fold_left (fun acc stateNode => obj_set (sn_id stateNode) 0 acc)
            (filteredStateNodes this opts) []) |}.

(** ** Warnings *)

(** The warning [getEventExecutor] writes for an event. *)
Definition missing_config_warning (event : EventObject) : string :=
  "Missing config for event " +++ dquote +++ event_type event +++ dquote +++ ".".

(** The type of the event has no entry in the configuration of [this]. *)
Definition unconfigured (this : TestModel) (event : EventObject) : bool :=
  match obj_get (event_type event) (events (options this)) with
  | None => true
  | Some _ => false
  end.

(** The console of [w'] is that of [w] and then more. *)
Definition extends_console (w w' : World) : Prop :=
  exists msgs, console w' = console w ++ msgs.

(** * Properties *)

(** ** Objects *)

Lemma obj_get_set {A : Type} (k k' : string) (v : A) (o : Obj A) :
  obj_get k (obj_set k' v o) = if String.eqb k k' then Some v else obj_get k o.
Proof.
  induction o as [|[k0 v0] o IH]; simpl.
  - destruct (String.eqb k k'); reflexivity.
  - destruct (String.eqb k' k0) eqn:E0; simpl.
    + apply String.eqb_eq in E0. subst k0.
      destruct (String.eqb k k'); reflexivity.
    + destruct (String.eqb k k0) eqn:E1.
      * apply String.eqb_eq in E1. subst k0.
        rewrite String.eqb_sym, E0. reflexivity.
      * exact IH.
Qed.

Lemma obj_get_app {A : Type} (k : string) (o1 o2 : Obj A) :
  obj_get k (o1 ++ o2) =
    match obj_get k o1 with
    | Some v => Some v
    | None => obj_get k o2
    end.
Proof.
  induction o1 as [|[k0 v0] o1 IH]; simpl; [reflexivity|].
  destruct (String.eqb k k0); [reflexivity | exact IH].
Qed.

Lemma obj_get_None_iff {A : Type} (k : string) (o : Obj A) :
  obj_get k o = None <-> k ∉ obj_keys o.
Proof.
  induction o as [|[k0 v0] o IH]; simpl.
  - split; [intros _ H; inversion H | reflexivity].
  - rewrite not_elem_of_cons. destruct (String.eqb k k0) eqn:E.
    + apply String.eqb_eq in E. subst. split; [discriminate |].
      intros [H _]. exfalso. apply H. reflexivity.
    + apply String.eqb_neq in E. rewrite IH. split.
      * intros H. split; assumption.
      * intros [_ H]. exact H.
Qed.

(** The overlay of the properties [b] on [a], one assignment after the
    other: the last assignment to a key wins. *)
Lemma obj_get_overlay {A : Type} (k : string) (b a : Obj A) :
  obj_get k (fold_left (fun acc kv => obj_set (fst kv) (snd kv) acc) b a) =
    match obj_get k (rev b) with
    | Some v => Some v
    | None => obj_get k a
    end.
Proof.
  revert a. induction b as [|[k0 v0] b IH] using rev_ind; intros a; simpl.
  - reflexivity.
  - rewrite fold_left_app, rev_app_distr. simpl.
    rewrite obj_get_set. destruct (String.eqb k k0); [reflexivity | apply IH].
Qed.

(** With distinct keys, lookup does not depend on the order. *)
Lemma obj_get_rev {A : Type} (k : string) (o : Obj A) :
  NoDup (obj_keys o) -> obj_get k (rev o) = obj_get k o.
Proof.
  induction o as [|[k0 v0] o IH]; simpl; intros Hnd; [reflexivity|].
  inversion Hnd as [|? ? Hnotin Hnd']; subst.
  rewrite obj_get_app, (IH Hnd'). simpl.
  destruct (String.eqb k k0) eqn:E.
  - apply String.eqb_eq in E. subst k0.
    apply obj_get_None_iff in Hnotin. rewrite Hnotin. reflexivity.
  - destruct (obj_get k o); reflexivity.
Qed.

Lemma lookup_map {A B : Type} (f : A -> B) (l : list A) (i : nat) :
  map f l !! i = option_map f (l !! i).
Proof. exact (list_lookup_fmap f l i). Qed.

(** ** getEventSamples *)

Lemma getEventSamples_from (eventsOptions : TestEventsConfig) (acc : list EventObject) :
  fold_left
    (fun result kc =>
       let key := fst kc in
       match snd kc with
       | EventFn _ => result ++ [[("type", JStr key)]]
       | EventConfig _ cases =>
           let events :=
             match cases with
             | Some cs => map (fun sample => obj_spread [("type", JStr key)] sample) cs
             | None => [[("type", JStr key)]]
             end in
           result ++ events
       end)
    eventsOptions acc
  = acc ++ flat_map (fun kc => samples_of_key (fst kc) (snd kc)) eventsOptions.
Proof.
  revert acc. induction eventsOptions as [|[key c] rest IH]; intros acc; simpl.
  - symmetry. apply app_nil_r.
  - rewrite IH. destruct c as [f | exec [cs|]]; simpl; rewrite <- app_assoc; reflexivity.
Qed.

(** C8.  The samples are, key after key in the order of the configuration:
    the one sample [{type: key}] for a bare function, one sample per case for
    a record with [cases] (the case's properties assigned over [{type: key}]),
    the one sample [{type: key}] for a record without [cases]; an empty
    configuration gives no sample.  The function is total: it never throws. *)
Theorem getEventSamples_spec :
  (forall eventsOptions : TestEventsConfig,
      getEventSamples eventsOptions =
        flat_map (fun kc => samples_of_key (fst kc) (snd kc)) eventsOptions)
  /\ getEventSamples [] = []
  /\ (forall key f, samples_of_key key (EventFn f) = [[("type", JStr key)]])
  /\ (forall key exec, samples_of_key key (EventConfig exec None) = [[("type", JStr key)]])
  /\ (forall key exec cases,
         length (samples_of_key key (EventConfig exec (Some cases))) = length cases
         /\ forall (i : nat) (sample : Obj Json),
             cases !! i = Some sample ->
             exists e,
               samples_of_key key (EventConfig exec (Some cases)) !! i = Some e
               /\ forall k,
                   obj_get k e =
                     match obj_get k (rev sample) with
                     | Some v => Some v
                     | None => if String.eqb k "type" then Some (JStr key) else None
                     end).
Proof.
  split; [|split; [|split; [|split]]].
  - intros eventsOptions. unfold getEventSamples.
    apply (getEventSamples_from eventsOptions []).
  - reflexivity.
  - reflexivity.
  - reflexivity.
  - intros key exec cases. simpl. split.
    + apply length_map.
    + intros i sample Hi.
      exists (obj_spread [("type", JStr key)] sample). split.
      * rewrite lookup_map. unfold Obj in *. rewrite Hi. reflexivity.
      * intros k. unfold obj_spread. rewrite obj_get_overlay. reflexivity.
Qed.

(** ** getEventExecutor and executeEvent *)


(** ** getCoverage and testCoverage *)

Lemma obj_get_zero_init (id : string) (nodes : list StateNode) (acc : Obj nat) :
  obj_get id (fold_left (fun acc stateNode => obj_set (sn_id stateNode) 0 acc) nodes acc) =
    if has_id id nodes then Some 0 else obj_get id acc.
Proof.
  revert acc. induction nodes as [|n nodes IH]; intros acc; simpl.
  - reflexivity.
  - rewrite IH, obj_get_set.
    destruct (String.eqb id (sn_id n)); simpl; [|reflexivity].
    destruct (has_id id nodes); reflexivity.
Qed.

Lemma getCoverage_run (this : TestModel) (opts : option CoverageOptions) (w : World) :
  getCoverage this opts w =
    (Ret {| cov_stateNodes :=
              fold_left (fun acc kv => obj_set (fst kv) (snd kv) acc)
                (stateNodes (this_coverage this w))
                (fold_left (fun acc stateNode => obj_set (sn_id stateNode) 0 acc)
                   (filteredStateNodes this opts) []) |}, w).
Proof.
  unfold getCoverage, gets, filteredStateNodes.
  destruct opts as [[[f|]]|]; reflexivity.
Qed.

(** C3, as amended.  [getCoverage] leaves the world as it is and returns the
    map that gives every id of the instance's counters its counter, whether
    the filter keeps the id or not, every other id of the state nodes the
    filter keeps (all the machine's state nodes when there is no filter) the
    count zero, and has no other id: an id the filter excludes is in the
    result exactly when the instance has a counter for it. *)
Theorem getCoverage_overlays_counters
    (this : TestModel) (opts : option CoverageOptions) (w : World)
    (Hmap : NoDup (obj_keys (stateNodes (this_coverage this w)))) :
  exists coverage,
    getCoverage this opts w = (Ret coverage, w)
    /\ forall id,
        obj_get id (cov_stateNodes coverage) =
          match obj_get id (stateNodes (this_coverage this w)) with
          | Some n => Some n
          | None =>
              if has_id id (filteredStateNodes this opts) then Some 0 else None
          end.
Proof.
  eexists. split; [apply getCoverage_run|].
  intros id. simpl. rewrite obj_get_overlay, obj_get_rev by exact Hmap.
  destruct (obj_get id (stateNodes (this_coverage this w))); [reflexivity|].
  apply obj_get_zero_init.
Qed.

Lemma obj_get_own_key {A : Type} (k : string) (o : Obj A) :
  k ∈ obj_keys o -> exists v, obj_get k o = Some v.
Proof.
  intros Hin. destruct (obj_get k o) as [v|] eqn:E; [exists v; reflexivity|].
  apply obj_get_None_iff in E. contradiction.
Qed.

Lemma falsy_count_zero (o : Obj nat) (id : string) :
  id ∈ obj_keys o /\ falsy_count (obj_get id o) = true <-> obj_get id o = Some 0.
Proof.
  split.
  - intros [Hin Hf]. destruct (obj_get_own_key id o Hin) as [v Hv].
    rewrite Hv in Hf |- *. destruct v; [reflexivity | discriminate].
  - intros H. split.
    + destruct (decide (id ∈ obj_keys o)) as [Hin|Hin]; [exact Hin|].
      apply obj_get_None_iff in Hin. rewrite Hin in H. discriminate.
    + rewrite H. reflexivity.
Qed.

Lemma elem_of_zero_count_ids (coverage : Coverage) (id : string) :
  id ∈ zero_count_ids coverage <-> obj_get id (cov_stateNodes coverage) = Some 0.
Proof.
  unfold zero_count_ids. rewrite list_elem_of_In, filter_In, <- list_elem_of_In.
  apply falsy_count_zero.
Qed.


(** ** What a computation leaves of the world *)

Section Preserves.

Context {St : Type} (proj : St -> World) (R : World -> World -> Prop).
Hypothesis R_refl : forall w, R w w.
Hypothesis R_trans : forall w1 w2 w3, R w1 w2 -> R w2 w3 -> R w1 w3.

Lemma Preserves_ret {A : Type} (a : A) : Preserves proj R (ret a).
Proof using R_refl. intros s. apply R_refl. Qed.

Lemma Preserves_throw {A : Type} (e : Thrown) : Preserves proj R (@throw St A e).
Proof using R_refl. intros s. apply R_refl. Qed.

Lemma Preserves_gets {A : Type} (f : St -> A) : Preserves proj R (gets f).
Proof using R_refl. intros s. apply R_refl. Qed.

Lemma Preserves_bind {A B : Type} (m : M St A) (k : A -> M St B) :
  Preserves proj R m -> (forall a, Preserves proj R (k a)) -> Preserves proj R (bind m k).
Proof using R_trans.
  intros Hm Hk s. unfold Preserves, bind. specialize (Hm s).
  destruct (m s) as [[a|e|] s1]; simpl in *; try exact Hm.
  eapply R_trans; [exact Hm | apply Hk].
Qed.

Lemma Preserves_try_catch {A : Type} (m : M St A) (h : Thrown -> M St A) :
  Preserves proj R m -> (forall e, Preserves proj R (h e)) -> Preserves proj R (try_catch m h).
Proof using R_trans.
  intros Hm Hh s. unfold Preserves, try_catch. specialize (Hm s).
  destruct (m s) as [[a|e|] s1]; simpl in *; try exact Hm.
  eapply R_trans; [exact Hm | apply Hh].
Qed.

Lemma Preserves_for_of_in {A : Type} (xs : list A) (body : A -> M St unit) :
  (forall x, x ∈ xs -> Preserves proj R (body x)) -> Preserves proj R (for_of xs body).
Proof using R_refl R_trans.
  induction xs as [|x xs IH]; intros Hbody; simpl.
  - apply Preserves_ret.
  - apply Preserves_bind.
    + apply Hbody. apply elem_of_cons. left. reflexivity.
    + intros _. apply IH. intros y Hy. apply Hbody. apply elem_of_cons. right. exact Hy.
Qed.

Lemma Preserves_for_of {A : Type} (xs : list A) (body : A -> M St unit) :
  (forall x, Preserves proj R (body x)) -> Preserves proj R (for_of xs body).
Proof using R_refl R_trans.
  intros Hbody. apply Preserves_for_of_in. intros x _. apply Hbody.
Qed.

Lemma Preserves_modify (f : St -> St) :
  (forall s, R (proj s) (proj (f s))) -> Preserves proj R (modify f).
Proof. intros Hf s. apply Hf. Qed.

End Preserves.

Lemma Preserves_lift_snd {L A : Type} (R : World -> World -> Prop) (m : M World A) :
  Preserves (fun w => w) R m -> Preserves (@snd L World) R (lift_snd m).
Proof.
  intros Hm [l w]. unfold lift_snd. simpl. specialize (Hm w).
  destruct (m w) as [r w']. exact Hm.
Qed.

Lemma keeps_refl (l : nat) (w : World) : keeps l w w.
Proof. reflexivity. Qed.

Lemma keeps_trans (l : nat) (w1 w2 w3 : World) :
  keeps l w1 w2 -> keeps l w2 w3 -> keeps l w1 w3.
Proof. unfold keeps. intros H1 H2. rewrite H2. exact H1. Qed.

Lemma extends_calls_refl (w : World) : extends_calls w w.
Proof. exists []. symmetry. apply app_nil_r. Qed.

Lemma extends_calls_trans (w1 w2 w3 : World) :
  extends_calls w1 w2 -> extends_calls w2 w3 -> extends_calls w1 w3.
Proof.
  intros [c1 H1] [c2 H2]. exists (c1 ++ c2). rewrite H2, H1. symmetry. apply app_assoc.
Qed.

Lemma keeps_Respected (this : TestModel) (l : nat) :
  l <> coverage this -> Respected this (keeps l).
Proof.
  intros Hne. split.
  - apply keeps_refl.
  - apply keeps_trans.
  - intros f testContext state w. unfold call_test, keeps.
    destruct (run_test f testContext state (sut w)); reflexivity.
  - intros f testContext event w. unfold call_exec, keeps.
    destruct (run_exec f testContext event (sut w)); reflexivity.
  - intros msg w. reflexivity.
  - intros id w. unfold count_stateNode, modify, keeps. simpl.
    apply list_lookup_insert_ne. congruence.
Qed.

Lemma extends_calls_Respected (this : TestModel) : Respected this extends_calls.
Proof.
  split.
  - apply extends_calls_refl.
  - apply extends_calls_trans.
  - intros f testContext state w. unfold call_test.
    destruct (run_test f testContext state (sut w)). eexists. reflexivity.
  - intros f testContext event w. unfold call_exec.
    destruct (run_exec f testContext event (sut w)). eexists. reflexivity.
  - intros msg w. exists []. simpl. symmetry. apply app_nil_r.
  - intros id w. exists []. simpl. symmetry. apply app_nil_r.
Qed.

Lemma elem_of_obj_set_keys {A : Type} (x k : string) (v : A) (o : Obj A) :
  x ∈ obj_keys (obj_set k v o) <-> x = k \/ x ∈ obj_keys o.
Proof.
  induction o as [|[k0 v0] o IH]; simpl.
  - rewrite list_elem_of_singleton. split; [intros H; left; exact H|].
    intros [H|H]; [exact H | inversion H].
  - destruct (String.eqb k k0) eqn:E; simpl; rewrite !elem_of_cons.
    + apply String.eqb_eq in E. subst k0. split.
      * intros [H|H]; [left; exact H | right; right; exact H].
      * intros [H|[H|H]]; [left; exact H | left; exact H | right; exact H].
    + rewrite IH. split.
      * intros [H|[H|H]]; [right; left; exact H | left; exact H | right; right; exact H].
      * intros [H|[H|H]]; [right; left; exact H | left; exact H | right; right; exact H].
Qed.

Lemma obj_set_distinct_keys {A : Type} (k : string) (v : A) (o : Obj A) :
  NoDup (obj_keys o) -> NoDup (obj_keys (obj_set k v o)).
Proof.
  induction o as [|[k0 v0] o IH]; simpl; intros Hnd.
  - apply NoDup_singleton.
  - inversion Hnd as [|? ? Hnotin Hnd']; subst.
    destruct (String.eqb k k0) eqn:E; simpl.
    + apply String.eqb_eq in E. subst k0. constructor; assumption.
    + apply String.eqb_neq in E. constructor; [|apply IH; exact Hnd'].
      rewrite elem_of_obj_set_keys. intros [H|H]; [apply E; symmetry; exact H|].
      exact (Hnotin H).
Qed.

Lemma this_coverage_distinct_keys (this : TestModel) (w : World) :
  distinct_keys w -> NoDup (obj_keys (stateNodes (this_coverage this w))).
Proof.
  intros Hw. unfold this_coverage.
  destruct (heap w !! coverage this) as [c|] eqn:Hc; simpl.
  - exact (proj1 (Forall_lookup _ _) Hw _ _ Hc).
  - constructor.
Qed.

(** The model keeps the keys of every coverage map distinct. *)
Lemma keeps_distinct_keys_Respected (this : TestModel) :
  Respected this keeps_distinct_keys.
Proof.
  split.
  - intros w H. exact H.
  - intros w1 w2 w3 H1 H2 H. exact (H2 (H1 H)).
  - intros f testContext state w. unfold call_test, keeps_distinct_keys, distinct_keys.
    destruct (run_test f testContext state (sut w)). simpl. intros H. exact H.
  - intros f testContext event w. unfold call_exec, keeps_distinct_keys, distinct_keys.
    destruct (run_exec f testContext event (sut w)). simpl. intros H. exact H.
  - intros msg w H. exact H.
  - intros id w Hw. unfold count_stateNode, modify, distinct_keys. simpl.
    apply Forall_insert; [exact Hw|]. simpl.
    apply obj_set_distinct_keys. apply this_coverage_distinct_keys. exact Hw.
Qed.

Lemma new_TestModel_distinct_keys (machine : Machine) (opts : option PartialOptions)
    (w : World) :
  distinct_keys w -> distinct_keys (snd (new_TestModel machine opts w)).
Proof.
  intros Hw. unfold new_TestModel, distinct_keys. simpl.
  apply Forall_app. split; [exact Hw|]. constructor; [constructor | constructor].
Qed.

Section Respected.

Variables (this : TestModel) (R : World -> World -> Prop).
Hypothesis HR : Respected this R.

Lemma testState_Preserves (state : State) (testContext : TestContext) :
  Preserves (fun w => w) R (testState this state testContext).
Proof using HR.
  unfold testState.
  apply Preserves_for_of; [apply HR | apply HR |].
  intros [id stateNodeMeta]. simpl.
  destruct (meta_test stateNodeMeta) as [test|];
    [|apply Preserves_ret; apply HR].
  destruct (negb (meta_skip stateNodeMeta)); [|apply Preserves_ret; apply HR].
  apply Preserves_bind; [apply HR | apply HR |].
  intros _. apply HR.
Qed.

Lemma executeEvent_Preserves (event : EventObject) (testContext : TestContext) :
  Preserves (fun w => w) R (executeEvent this event testContext).
Proof using HR.
  unfold executeEvent, getEventExecutor.
  apply Preserves_bind; [apply HR | |].
  - destruct (obj_get _ _) as [[f|exec cases]|].
    + apply Preserves_ret; apply HR.
    + apply Preserves_ret; apply HR.
    + destruct (Object_prototype _) as [[f|exec]|].
      * apply Preserves_ret; apply HR.
      * apply Preserves_ret; apply HR.
      * apply Preserves_bind; [apply HR | apply HR |].
        intros _. apply Preserves_ret; apply HR.
  - intros [f|]; [apply HR | apply Preserves_ret; apply HR].
Qed.

Lemma test_step_Preserves (testContext : TestContext) (step : Segment) :
  Preserves snd R (test_step testContext (compile_step this step)).
Proof using HR.
  pose proof (resp_refl _ _ HR) as Hrefl. pose proof (resp_trans _ _ HR) as Htrans.
  unfold test_step.
  apply Preserves_bind; [exact Htrans | apply Preserves_gets; exact Hrefl |].
  intros i.
  apply Preserves_bind; [exact Htrans | apply Preserves_modify; intros s; apply Hrefl |].
  intros _.
  apply Preserves_bind; [exact Htrans | |].
  - apply Preserves_try_catch; [exact Htrans | |].
    + apply Preserves_lift_snd. simpl. apply testState_Preserves.
    + intros e. apply Preserves_bind; [exact Htrans | |].
      * apply Preserves_modify. intros s. apply Hrefl.
      * intros _. apply Preserves_throw. exact Hrefl.
  - intros _.  apply Preserves_try_catch; [exact Htrans | |].
    + apply Preserves_lift_snd. simpl. apply executeEvent_Preserves.
    + intros e. apply Preserves_bind; [exact Htrans | |].
      * apply Preserves_modify. intros s. apply Hrefl.
      * intros _. apply Preserves_throw. exact Hrefl.
Qed.

Lemma test_path_Preserves (testPlan : StatePlan) (path : StatePath)
    (testContext : TestContext) :
  Preserves (fun w => w) R
    (path_test (compile_path this testPlan path) testContext).
Proof using HR.
  pose proof (resp_refl _ _ HR) as Hrefl. pose proof (resp_trans _ _ HR) as Htrans.
  assert (Hbody : Preserves snd R
            (test_path_body this (sp_plan_state testPlan)
               (map (compile_step this) (sp_steps path)) testContext)).
  { unfold test_path_body.
    apply Preserves_bind; [exact Htrans | |].
    - induction (sp_steps path) as [|step steps IH]; simpl.
      + apply Preserves_ret. exact Hrefl.
      + apply Preserves_bind; [exact Htrans | apply test_step_Preserves |].
        intros _. exact IH.
    - intros _. apply Preserves_try_catch; [exact Htrans | |].
      + apply Preserves_lift_snd. apply testState_Preserves.
      + intros e. apply Preserves_bind; [exact Htrans | |].
        * apply Preserves_modify. intros s. apply Hrefl.
        * intros _. apply Preserves_throw. exact Hrefl. }
  intros w. simpl. unfold test_path.
  specialize (Hbody ({| tpr_steps := []; tpr_state_error := None |}, w)).
  destruct (test_path_body _ _ _ _ _) as [[r|e|] [tpr w']]; exact Hbody.
Qed.

End Respected.

Lemma test_plan_Preserves (this : TestModel) (R : World -> World -> Prop)
    (testPlan : StatePlan) (paths : list StatePath) (testContext : TestContext) :
  Respected this R ->
  Preserves (fun w => w) R
    (test_plan (map (compile_path this testPlan) paths) testContext).
Proof.
  intros HR. unfold test_plan.
  apply Preserves_for_of_in; [apply HR | apply HR |].
  intros p Hp. apply list_elem_of_In, in_map_iff in Hp. destruct Hp as [path [<- _]].
  apply Preserves_bind; [apply HR | apply test_path_Preserves; exact HR |].
  intros r. apply Preserves_ret. apply HR.
Qed.

Lemma test_plan_distinct_keys (this : TestModel) (testPlan : StatePlan)
    (paths : list StatePath) (testContext : TestContext) (w : World) :
  distinct_keys w ->
  distinct_keys (snd (test_plan (map (compile_path this testPlan) paths) testContext w)).
Proof.
  exact (test_plan_Preserves this keeps_distinct_keys testPlan paths testContext
           (keeps_distinct_keys_Respected this) w).
Qed.

(** ** withEvents *)

(** C10.  From an instance [this] of the world, [withEvents] returns a new
    instance: its machine is that of [this], its configured events are
    [eventMap], its coverage object is a new one with no counter, which the
    world now holds besides those it held.  Nothing else changes: every
    coverage object of the world, that of [this] too, is as before, as are
    the system under test, the console and the calls.  What the new instance
    records is recorded in its own coverage object: a state assertion run by
    the new instance counts there, from zero, and not in the coverage of
    [this].  And whatever the new instance records later (a state assertion,
    the test of one of its paths or plans), the coverage of [this] and what
    [getCoverage] reports for [this] stay the same. *)
Theorem withEvents_new_instance
    (this : TestModel) (eventMap : TestEventsConfig) (w : World)
    (Hthis : coverage this < length (heap w)) :
  exists model w',
    withEvents this eventMap w = (Ret model, w')
    /\ machine model = machine this
    /\ events (options model) = eventMap
    /\ this_coverage model w' = empty_coverage
    /\ heap w' !! coverage model = Some empty_coverage
    /\ heap w' = heap w ++ [empty_coverage]
    /\ coverage model <> coverage this
    /\ (forall l, l < length (heap w) -> heap w' !! l = heap w !! l)
    /\ this_coverage this w' = this_coverage this w
    /\ sut w' = sut w /\ console w' = console w /\ calls w' = calls w
    /\ (forall state testContext w1,
          this_coverage this (snd (testState model state testContext w1))
            = this_coverage this w1
          /\ forall opts,
              fst (getCoverage this opts (snd (testState model state testContext w1)))
                = fst (getCoverage this opts w1))
    /\ (forall testPlan path testContext w1,
          this_coverage this
            (snd (path_test (compile_path model testPlan path) testContext w1))
            = this_coverage this w1)
    /\ (forall statePathsMap plan testContext w1,
          plan ∈ getTestPlans model statePathsMap ->
          this_coverage this (snd (plan_test plan testContext w1))
            = this_coverage this w1)
    /\ (forall state testContext id f,
          let w1 := snd (assert_entry model state testContext (id, f) w') in
          counter model id w' = None
          /\ counter model id w1 = Some 1
          /\ counter this id w1 = counter this id w).
Proof.
  eexists. eexists. split; [reflexivity|]. simpl.
  assert (Hne : coverage this <> length (heap w)) by lia.
  assert (HR : Respected
                 {| machine := machine this; options := {| events := eventMap |};
                    coverage := length (heap w) |} (keeps (coverage this))).
  { apply keeps_Respected. simpl. exact Hne. }
  split; [reflexivity|]. split; [reflexivity|].
  split.
  { unfold this_coverage. simpl. rewrite lookup_app_r by lia.
    rewrite Nat.sub_diag. reflexivity. }
  split.
  { rewrite lookup_app_r by lia. rewrite Nat.sub_diag. reflexivity. }
  split; [reflexivity|].
  split; [lia|].
  split.
  { intros l Hl. apply lookup_app_l. exact Hl. }
  split.
  { unfold this_coverage. simpl. rewrite lookup_app_l by exact Hthis. reflexivity. }
  split; [reflexivity|]. split; [reflexivity|]. split; [reflexivity|].
  split; [|split; [|split]].
  - intros state testContext w1.
    pose proof (testState_Preserves _ _ HR state testContext w1) as Hk.
    unfold keeps in Hk. simpl in Hk.
    assert (Hc : this_coverage this (snd (testState
                   {| machine := machine this; options := {| events := eventMap |};
                      coverage := length (heap w) |} state testContext w1))
                 = this_coverage this w1).
    { unfold this_coverage. rewrite Hk. reflexivity. }
    split; [exact Hc|].
    intros opts. rewrite Hc. reflexivity.
  - intros testPlan path testContext w1.
    pose proof (test_path_Preserves _ _ HR testPlan path testContext w1) as Hk.
    unfold keeps in Hk. simpl in Hk.
    unfold this_coverage. unfold compile_path. simpl. rewrite Hk. reflexivity.
  - intros statePathsMap plan testContext w1 Hplan.
    apply list_elem_of_In, in_map_iff in Hplan.
    destruct Hplan as [[key testPlan] [<- _]]. simpl.
    pose proof (test_plan_Preserves _ _ testPlan (sp_plan_paths testPlan)
                  testContext HR w1) as Hk.
    unfold keeps in Hk. simpl in Hk.
    unfold this_coverage. rewrite Hk. reflexivity.
  - intros state testContext id f.
    unfold assert_entry, bind, count_stateNode, modify, call_test. cbn [fst snd].
    destruct (run_test f testContext state _) as [r s'].
    unfold counter, this_coverage. cbn [heap coverage snd].
    assert (Hnew : (heap w ++ [empty_coverage]) !! length (heap w) = Some empty_coverage).
    { rewrite lookup_app_r by lia. rewrite Nat.sub_diag. reflexivity. }
    rewrite Hnew. cbn [default stateNodes empty_coverage obj_get].
    split; [reflexivity|]. split.
    + rewrite list_lookup_insert_eq by (rewrite length_app; simpl; lia).
      simpl. rewrite String.eqb_refl. reflexivity.
    + rewrite list_lookup_insert_ne by (intros Heq; apply Hne; symmetry; exact Heq).
      rewrite lookup_app_l by exact Hthis. reflexivity.
Qed.

(** ** testState *)

Lemma testState_tested_entries (this : TestModel) (state : State)
    (testContext : TestContext) (w : World) :
  testState this state testContext w =
    for_of (tested_entries state) (assert_entry this state testContext) w.
Proof.
  unfold testState, tested_entries.
  generalize (st_meta state) as entries. intros entries. revert w.
  induction entries as [|[id stateNodeMeta] entries IH]; intros w; simpl.
  - reflexivity.
  - destruct (meta_test stateNodeMeta) as [test|]; simpl.
    + destruct (meta_skip stateNodeMeta); simpl.
      * unfold bind at 1. simpl. apply IH.
      * unfold bind at 1. unfold bind at 3. unfold assert_entry. simpl.
        destruct (bind _ _ w) as [[[]|e|] w1]; [apply IH | reflexivity | reflexivity].
    + unfold bind at 1. simpl. apply IH.
Qed.

Lemma assert_entry_run (this : TestModel) (state : State) (testContext : TestContext)
    (id : string) (f : TestFn) (w : World) :
  assert_entry this state testContext (id, f) w =
    (fst (run_test f testContext state (sut w)),
     {| sut := snd (run_test f testContext state (sut w));
        heap := <[coverage this :=
                   {| stateNodes :=
                        obj_set id (default 0 (counter this id w) + 1)
                                (stateNodes (this_coverage this w));
                      transitions := transitions (this_coverage this w) |}]> (heap w);
        console := console w;
        calls := calls w ++ [CallTest f testContext state] |}).
Proof.
  unfold assert_entry, bind, count_stateNode, modify, call_test. simpl.
  destruct (run_test f testContext state (sut w)) as [r s']. reflexivity.
Qed.

Lemma counter_assert_entry (this : TestModel) (state : State)
    (testContext : TestContext) (id : string) (f : TestFn) (w : World) (id' : string) :
  counter this id' (snd (assert_entry this state testContext (id, f) w)) =
    if String.eqb id' id && Nat.ltb (coverage this) (length (heap w))
    then Some (default 0 (counter this id w) + 1)
    else counter this id' w.
Proof.
  rewrite assert_entry_run. unfold counter at 1. unfold this_coverage at 1. simpl.
  destruct (Nat.ltb (coverage this) (length (heap w))) eqn:Hlt.
  - apply Nat.ltb_lt in Hlt. rewrite list_lookup_insert_eq by exact Hlt. simpl.
    rewrite obj_get_set, andb_true_r. reflexivity.
  - apply Nat.ltb_ge in Hlt. rewrite list_insert_ge by exact Hlt.
    rewrite andb_false_r. reflexivity.
Qed.

Lemma calls_added_refl (P : Call -> Prop) (w : World) : calls_added P w w.
Proof. exists []. split; [symmetry; apply app_nil_r | constructor]. Qed.

Lemma calls_added_trans (P : Call -> Prop) (w1 w2 w3 : World) :
  calls_added P w1 w2 -> calls_added P w2 w3 -> calls_added P w1 w3.
Proof.
  intros [c1 [H1 F1]] [c2 [H2 F2]]. exists (c1 ++ c2). split.
  - rewrite H2, H1. symmetry. apply app_assoc.
  - apply Forall_app. split; assumption.
Qed.

(** C5.  [testState] is the loop over the entries of [state.meta] that have
    a [test] function and are not marked [skip], in order, and for each of
    them: it adds one to the counter of the id (a counter of 1 when there
    was none), leaves the other counters, then calls the function with
    [(testContext, state)].  A call that returns lets the loop go on; a call
    that rejects ends [testState] with that very error.  An entry marked
    [skip] is not among them: whatever the outcome, the counter of an id
    whose entry is marked [skip] is as before, and every function called
    is the [test] of an entry that is not marked [skip]. *)
Theorem testState_spec
    (this : TestModel) (state : State) (testContext : TestContext) :
  (forall w,
      testState this state testContext w =
        for_of (tested_entries state) (assert_entry this state testContext) w)
  /\ (forall id f,
        (id, f) ∈ tested_entries state <->
        exists stateNodeMeta,
          (id, stateNodeMeta) ∈ st_meta state
          /\ meta_test stateNodeMeta = Some f /\ meta_skip stateNodeMeta = false)
  /\ (forall id f w,
        coverage this < length (heap w) ->
        let r := assert_entry this state testContext (id, f) w in
        counter this id (snd r) = Some (default 0 (counter this id w) + 1)
        /\ (forall id', id' <> id -> counter this id' (snd r) = counter this id' w)
        /\ calls (snd r) = calls w ++ [CallTest f testContext state]
        /\ fst r = fst (run_test f testContext state (sut w))
        /\ sut (snd r) = snd (run_test f testContext state (sut w)))
  /\ (forall entry rest w,
        let r := assert_entry this state testContext entry w in
        (fst r = Ret tt ->
         for_of (entry :: rest) (assert_entry this state testContext) w =
           for_of rest (assert_entry this state testContext) (snd r))
        /\ (forall err, fst r = Throw err ->
             for_of (entry :: rest) (assert_entry this state testContext) w =
               (Throw err, snd r)))
  /\ (forall id w,
        (forall stateNodeMeta,
            (id, stateNodeMeta) ∈ st_meta state -> meta_skip stateNodeMeta = true) ->
        counter this id (snd (testState this state testContext w)) = counter this id w)
  /\ (forall w,
        calls_added
          (fun c => exists id f stateNodeMeta,
               (id, stateNodeMeta) ∈ st_meta state
               /\ meta_test stateNodeMeta = Some f
               /\ meta_skip stateNodeMeta = false
               /\ c = CallTest f testContext state)
          w (snd (testState this state testContext w))).
Proof.
  assert (Hin : forall id f,
             (id, f) ∈ tested_entries state <->
             exists stateNodeMeta,
               (id, stateNodeMeta) ∈ st_meta state
               /\ meta_test stateNodeMeta = Some f /\ meta_skip stateNodeMeta = false).
  { intros id f. unfold tested_entries.
    rewrite list_elem_of_In, in_flat_map. split.
    - intros [[id0 m] [Hm Hx]]. simpl in Hx.
      destruct (meta_test m) as [t|] eqn:Ht; [|destruct Hx].
      destruct (meta_skip m) eqn:Hs; simpl in Hx; [destruct Hx|].
      destruct Hx as [Hx|[]]. injection Hx as -> ->.
      exists m. rewrite list_elem_of_In. auto.
    - intros [m [Hm [Ht Hs]]]. exists (id, m). rewrite <- list_elem_of_In.
      split; [exact Hm|]. simpl. rewrite Ht, Hs. simpl. left. reflexivity. }
  split; [apply testState_tested_entries|]. split; [exact Hin|].
  split; [|split; [|split]].
  - intros id f w Halloc r. subst r.
    assert (Hlt : Nat.ltb (coverage this) (length (heap w)) = true)
      by (apply Nat.ltb_lt; exact Halloc).
    split; [|split].
    + rewrite counter_assert_entry, String.eqb_refl, Hlt. reflexivity.
    + intros id' Hne. rewrite counter_assert_entry.
      apply String.eqb_neq in Hne. rewrite Hne. reflexivity.
    + rewrite assert_entry_run. simpl. auto.
  - intros entry rest w r. subst r. simpl. unfold bind.
    destruct (assert_entry this state testContext entry w) as [[[]|e|] w1]; simpl.
    + split; [reflexivity | discriminate].
    + split; [discriminate | intros err [= ->]; reflexivity].
    + split; [discriminate | discriminate].
  - intros id w Hskip. rewrite testState_tested_entries.
    apply (Preserves_for_of_in (fun w => w) (same_counter this id)).
    + intros w0. reflexivity.
    + unfold same_counter. intros w1 w2 w3 H1 H2. rewrite H2. exact H1.
    + intros [id' f] Hentry w0. unfold same_counter. rewrite counter_assert_entry.
      destruct (String.eqb id id') eqn:E; [|reflexivity].
      apply String.eqb_eq in E. subst id'.
      apply Hin in Hentry. destruct Hentry as [m [Hm [_ Hs]]].
      rewrite (Hskip m Hm) in Hs. discriminate.
  - intros w. rewrite testState_tested_entries.
    apply (Preserves_for_of_in (fun w => w)).
    + apply calls_added_refl.
    + apply calls_added_trans.
    + intros [id f] Hentry w0. rewrite assert_entry_run. simpl.
      exists [CallTest f testContext state]. split; [reflexivity|].
      constructor; [|constructor].
      apply Hin in Hentry. destruct Hentry as [m [Hm [Ht Hs]]].
      exists id, f, m. auto.
Qed.

(** ** The test of a path *)

Lemma test_step_run (testContext : TestContext) (step : TestStep)
    (acc : list TestStepResult) (se : option Thrown) (w : World) :
  test_step testContext step ({| tpr_steps := acc; tpr_state_error := se |}, w) =
    match step_test step testContext w with
    | (Ret _, w1) =>
        match step_exec step testContext w1 with
        | (Ret _, w2) =>
            (Ret tt, ({| tpr_steps := acc ++ [passed step]; tpr_state_error := se |}, w2))
        | (Throw e, w2) =>
            (Throw e, ({| tpr_steps := acc ++ [event_rejected step e];
                          tpr_state_error := se |}, w2))
        | (Hang, w2) =>
            (Hang, ({| tpr_steps := acc ++ [passed step]; tpr_state_error := se |}, w2))
        end
    | (Throw e, w1) =>
        (Throw e, ({| tpr_steps := acc ++ [state_rejected step e];
                      tpr_state_error := se |}, w1))
    | (Hang, w1) =>
        (Hang, ({| tpr_steps := acc ++ [passed step]; tpr_state_error := se |}, w1))
    end.
Proof.
  unfold test_step, bind, gets, modify, try_catch, lift_snd, throw. simpl.
  destruct (step_test step testContext w) as [[[]|e|] w1]; simpl.
  - destruct (step_exec step testContext w1) as [[[]|e|] w2]; simpl.
    + reflexivity.
    + rewrite alter_app_r_alt by lia. rewrite Nat.sub_diag. reflexivity.
    + reflexivity.
  - rewrite alter_app_r_alt by lia. rewrite Nat.sub_diag. reflexivity.
  - reflexivity.
Qed.

Lemma for_of_steps_pass (testContext : TestContext) (pre : list TestStep) (w w1 : World) :
  steps_pass testContext pre w w1 ->
  forall acc se post,
    for_of (pre ++ post) (test_step testContext)
      ({| tpr_steps := acc; tpr_state_error := se |}, w) =
    for_of post (test_step testContext)
      ({| tpr_steps := acc ++ map passed pre; tpr_state_error := se |}, w1).
Proof.
  induction 1 as [w|step steps w w1 w2 w3 Htest Hexec _ IH]; intros acc se post.
  - simpl. rewrite app_nil_r. reflexivity.
  - simpl. unfold bind at 1. rewrite test_step_run, Htest, Hexec.
    rewrite IH, <- app_assoc. reflexivity.
Qed.

Lemma for_of_steps_returns (testContext : TestContext) (steps : list TestStep) :
  forall acc se w tpr w',
    for_of steps (test_step testContext)
      ({| tpr_steps := acc; tpr_state_error := se |}, w) = (Ret tt, (tpr, w')) ->
    steps_pass testContext steps w w'
    /\ tpr = {| tpr_steps := acc ++ map passed steps; tpr_state_error := se |}.
Proof.
  induction steps as [|step steps IH]; intros acc se w tpr w'; simpl.
  - unfold ret. intros [= <- <-]. split; [constructor|]. rewrite app_nil_r. reflexivity.
  - unfold bind at 1. rewrite test_step_run.
    destruct (step_test step testContext w) as [[[]|e|] w1] eqn:Htest;
      [|discriminate|discriminate].
    destruct (step_exec step testContext w1) as [[[]|e|] w2] eqn:Hexec;
      [|discriminate|discriminate].
    intros Hrest. apply IH in Hrest. destruct Hrest as [Hpass ->]. split.
    + econstructor; eassumption.
    + rewrite <- app_assoc. reflexivity.
Qed.

(** What a path's [test] gives from what its [try] block gives. *)
Lemma test_path_of_body (this : TestModel) (testPlan : StatePlan) (path : StatePath)
    (steps : list TestStep) (testContext : TestContext) (w : World) :
  test_path this testPlan path steps testContext w =
    match test_path_body this (sp_plan_state testPlan) steps testContext (no_result, w) with
    | (Ret _, (testPathResult, w')) => (Ret testPathResult, w')
    | (Throw err, (testPathResult, w')) =>
        (Throw (append_trace err (path_trace path testPathResult)), w')
    | (Hang, (_, w')) => (Hang, w')
    end.
Proof. reflexivity. Qed.

Lemma test_path_body_after_steps (this : TestModel) (target : State)
    (testContext : TestContext) (steps : list TestStep) (w w1 : World) :
  steps_pass testContext steps w w1 ->
  test_path_body this target steps testContext (no_result, w) =
    match testState this target testContext w1 with
    | (Ret _, w') =>
        (Ret tt, ({| tpr_steps := map passed steps; tpr_state_error := None |}, w'))
    | (Throw err, w') =>
        (Throw err, ({| tpr_steps := map passed steps; tpr_state_error := Some err |}, w'))
    | (Hang, w') =>
        (Hang, ({| tpr_steps := map passed steps; tpr_state_error := None |}, w'))
    end.
Proof.
  intros Hpass. unfold test_path_body, no_result. unfold bind at 1.
  rewrite <- (app_nil_r steps) at 1.
  rewrite (for_of_steps_pass _ _ _ _ Hpass). simpl.
  unfold try_catch, lift_snd, bind, modify, throw. simpl.
  destruct (testState this target testContext w1) as [[[]|e|] w']; reflexivity.
Qed.

Lemma test_path_body_step_fails (this : TestModel) (target : State)
    (testContext : TestContext) (pre : list TestStep) (step : TestStep)
    (post : list TestStep) (w w1 : World) :
  steps_pass testContext pre w w1 ->
  test_path_body this target (pre ++ step :: post) testContext (no_result, w) =
    match step_test step testContext w1 with
    | (Throw err, w') =>
        (Throw err, ({| tpr_steps := map passed pre ++ [state_rejected step err];
                        tpr_state_error := None |}, w'))
    | (Hang, w') =>
        (Hang, ({| tpr_steps := map passed pre ++ [passed step];
                   tpr_state_error := None |}, w'))
    | (Ret _, w2) =>
        match step_exec step testContext w2 with
        | (Throw err, w') =>
            (Throw err, ({| tpr_steps := map passed pre ++ [event_rejected step err];
                            tpr_state_error := None |}, w'))
        | (Hang, w') =>
            (Hang, ({| tpr_steps := map passed pre ++ [passed step];
                       tpr_state_error := None |}, w'))
        | (Ret _, w3) =>
            test_path_body this target (pre ++ step :: post) testContext (no_result, w)
        end
    end.
Proof.
  intros Hpass.
  destruct (step_test step testContext w1) as [[[]|e|] w2] eqn:Htest.
  - destruct (step_exec step testContext w2) as [[[]|e|] w3] eqn:Hexec;
      [reflexivity| |];
      unfold test_path_body, no_result; unfold bind at 1;
      rewrite (for_of_steps_pass _ _ _ _ Hpass); simpl;
      unfold bind at 1; rewrite test_step_run, Htest, Hexec; reflexivity.
  - unfold test_path_body, no_result. unfold bind at 1.
    rewrite (for_of_steps_pass _ _ _ _ Hpass). simpl.
    unfold bind at 1. rewrite test_step_run, Htest. reflexivity.
  - unfold test_path_body, no_result. unfold bind at 1.
    rewrite (for_of_steps_pass _ _ _ _ Hpass). simpl.
    unfold bind at 1. rewrite test_step_run, Htest. reflexivity.
Qed.



(** ** The test of a plan *)

Lemma runs_in_sequence_calls (testContext : TestContext) (paths : list TestPath)
    (w : World) (segments : list (list Call)) (res : Outcome unit * World) :
  runs_in_sequence testContext paths w segments res ->
  calls (snd res) = calls w ++ concat segments
  /\ (fst res = Ret tt -> length segments = length paths).
Proof.
  induction 1 as [w|path paths w w1 result cs segments res Hrun Hcs _ [IH1 IH2]
                  |path paths w w1 err cs Hrun Hcs|path paths w w1 cs Hrun Hcs]; simpl.
  - split; [symmetry; apply app_nil_r | reflexivity].
  - split.
    + rewrite IH1, Hcs. symmetry. apply app_assoc.
    + intros Hret. rewrite (IH2 Hret). reflexivity.
  - split; [rewrite app_nil_r; exact Hcs | discriminate].
  - split; [rewrite app_nil_r; exact Hcs | discriminate].
Qed.

Lemma test_plan_runs_in_sequence (this : TestModel) (testPlan : StatePlan)
    (testContext : TestContext) (raw : list StatePath) (w : World) :
  exists segments,
    runs_in_sequence testContext (map (compile_path this testPlan) raw) w segments
      (test_plan (map (compile_path this testPlan) raw) testContext w).
Proof.
  revert w. induction raw as [|path raw IH]; intros w.
  - exists []. constructor.
  - pose proof (test_path_Preserves this extends_calls (extends_calls_Respected this)
                  testPlan path testContext w) as [cs Hcs].
    change (test_plan (map (compile_path this testPlan) (path :: raw)) testContext w)
      with (bind (bind (path_test (compile_path this testPlan path) testContext)
                       (fun _ => ret tt))
                 (fun _ => test_plan (map (compile_path this testPlan) raw) testContext) w).
    unfold bind at 1. unfold bind at 1. unfold ret.
    destruct (path_test (compile_path this testPlan path) testContext w)
      as [[result|err|] w1] eqn:Hrun; simpl in Hcs.
    + destruct (IH w1) as [segments Hseq]. exists (cs :: segments).
      rewrite map_cons. eapply seq_next; eassumption.
    + exists [cs]. rewrite map_cons. apply seq_throw; assumption.
    + exists [cs]. rewrite map_cons. apply seq_hang; assumption.
Qed.

(** C9.  The [test] of a compiled plan runs the tests of the paths of the
    plan in sequence, in the order of the plan: the test of a path starts in
    the world in which the test of the path before it returned, so the calls
    it makes come after all the calls of the paths before it.  When [test]
    returns, the test of every path of the plan has run and returned; a path
    whose test rejects ends [test] with that error. *)
Theorem plan_test_sequential
    (this : TestModel) (statePathsMap : StatePathsMap) (plan : TestPlan)
    (testContext : TestContext) (w : World)
    (Hplan : plan ∈ getTestPlans this statePathsMap) :
  exists segments,
    runs_in_sequence testContext (plan_paths plan) w segments
      (plan_test plan testContext w)
    /\ calls (snd (plan_test plan testContext w)) = calls w ++ concat segments
    /\ (fst (plan_test plan testContext w) = Ret tt ->
        length segments = length (plan_paths plan)).
Proof.
  apply list_elem_of_In, in_map_iff in Hplan.
  destruct Hplan as [[key testPlan] [<- _]]. simpl.
  destruct (test_plan_runs_in_sequence this testPlan testContext
              (sp_plan_paths testPlan) w) as [segments Hseq].
  exists segments. split; [exact Hseq|].
  exact (runs_in_sequence_calls _ _ _ _ _ Hseq).
Qed.

(** ** getShortestPathPlansTo *)

Lemma first_weight_plan_weight (plan : TestPlan) :
  plan_paths plan <> [] -> first_weight plan = Ok (plan_weight plan).
Proof.
  unfold first_weight, plan_weight. destruct (plan_paths plan); [congruence | reflexivity].
Qed.

Lemma filter_none {A : Type} (f : A -> bool) (l : list A) :
  Forall (fun x => f x = false) l -> List.filter f l = [].
Proof.
  induction 1 as [|x l Hx _ IH]; simpl; [reflexivity|]. rewrite Hx. exact IH.
Qed.

Lemma filter_all {A : Type} (f : A -> bool) (l : list A) :
  Forall (fun x => f x = true) l -> List.filter f l = l.
Proof.
  induction 1 as [|x l Hx _ IH]; simpl; [reflexivity|]. rewrite Hx, IH. reflexivity.
Qed.

Lemma shortest_loop_spec (plans : list TestPlan) :
  Forall (fun plan => plan_paths plan <> []) plans ->
  forall minWeight shortestPlans,
    Forall (fun plan => num_eq (plan_weight plan) minWeight = true) shortestPlans ->
    shortest_loop plans minWeight shortestPlans =
      Ok (List.filter
            (fun plan => num_eq (plan_weight plan) (num_min minWeight (min_weight plans)))
            (shortestPlans ++ plans)).
Proof.
  induction 1 as [|plan plans Hplan _ IH]; intros minWeight shortestPlans Hacc.
  - simpl. rewrite app_nil_r. f_equal. symmetry. apply filter_all.
    destruct minWeight; exact Hacc.
  - change (min_weight (plan :: plans))
      with (num_min (Finite (plan_weight plan)) (min_weight plans)).
    cbn [shortest_loop]. rewrite (first_weight_plan_weight _ Hplan).
    set (cw := plan_weight plan). set (m := min_weight plans).
    destruct (num_lt cw minWeight) eqn:Hlt.
    + rewrite IH by (constructor; [apply Z.eqb_refl | constructor]).
      f_equal. rewrite (List.filter_app _ shortestPlans).
      assert (Hmin : num_min minWeight (num_min (Finite cw) m)
                     = num_min (Finite cw) m).
      { destruct minWeight as [mw|]; [|reflexivity].
        simpl in Hlt. apply Z.ltb_lt in Hlt.
        destruct m as [mz|]; simpl; f_equal; lia. }
      rewrite Hmin.
      rewrite (filter_none _ shortestPlans); [reflexivity|].
      eapply List.Forall_impl; [|exact Hacc]. intros q Hq. simpl in Hq.
      destruct minWeight as [mw|]; [|discriminate].
      simpl in Hlt, Hq. apply Z.ltb_lt in Hlt. apply Z.eqb_eq in Hq.
      destruct m as [mz|]; simpl; apply Z.eqb_neq; lia.
    + destruct minWeight as [mw|]; [|discriminate]. simpl in Hlt.
      apply Z.ltb_ge in Hlt. simpl num_eq at 1.
      destruct (Z.eqb cw mw) eqn:Heq.
      * apply Z.eqb_eq in Heq.
        rewrite IH.
        2:{ apply Forall_app. split; [exact Hacc|].
            constructor; [|constructor]. simpl. fold cw. apply Z.eqb_eq. exact Heq. }
        rewrite <- app_assoc. cbn [app]. f_equal.
        assert (Hmin : num_min (Finite mw) (num_min (Finite cw) m)
                       = num_min (Finite mw) m).
        { destruct m as [mz|]; simpl; f_equal; lia. }
        rewrite Hmin. reflexivity.
      * apply Z.eqb_neq in Heq.
        rewrite IH by exact Hacc. f_equal.
        assert (Hmin : num_min (Finite mw) (num_min (Finite cw) m)
                       = num_min (Finite mw) m).
        { destruct m as [mz|]; simpl; f_equal; lia. }
        rewrite Hmin, !List.filter_app. f_equal. cbn [List.filter]. fold cw.
        assert (Hout : num_eq cw (num_min (Finite mw) m) = false).
        { destruct m as [mz|]; simpl; apply Z.eqb_neq; lia. }
        rewrite Hout. reflexivity.
Qed.

Lemma min_weight_lower_bound (plans : list TestPlan) (q : TestPlan) :
  q ∈ plans -> exists m, min_weight plans = Finite m /\ (m <= plan_weight q)%Z.
Proof.
  induction plans as [|p plans IH]; intros Hq; [inversion Hq|].
  apply elem_of_cons in Hq. simpl. destruct Hq as [->|Hq].
  - destruct (min_weight plans) as [mz|]; simpl; eexists; split; try reflexivity; lia.
  - destruct (IH Hq) as [m [-> Hle]]. simpl. eexists. split; [reflexivity | lia].
Qed.

Lemma min_weight_attained (plans : list TestPlan) (m : Z) :
  min_weight plans = Finite m -> exists p, p ∈ plans /\ plan_weight p = m.
Proof.
  revert m. induction plans as [|p plans IH]; intros m; simpl; [discriminate|].
  destruct (min_weight plans) as [mz|] eqn:Hm; simpl; intros [= <-].
  - destruct (Z.min_spec (plan_weight p) mz) as [[_ ->]|[_ ->]].
    + exists p. split; [apply elem_of_cons; left; reflexivity | reflexivity].
    + destruct (IH mz eq_refl) as [p' [Hin Hw]].
      exists p'. split; [apply elem_of_cons; right; exact Hin | exact Hw].
  - exists p. split; [apply elem_of_cons; left; reflexivity | reflexivity].
Qed.

(** C1.  Provided every plan that matches has a path (the search gives each
    plan one), [getShortestPathPlansTo] filters the shortest-path plans to
    those whose state matches the target and returns, in their order, all
    the filtered plans whose weight is the least weight among them: a
    filtered plan is returned exactly when no filtered plan weighs less, and
    all the plans returned weigh the same. *)
Theorem getShortestPathPlansTo_minimal
    (this : TestModel) (stateValue : Target)
    (Hpaths : Forall (fun plan => plan_paths plan <> [])
                (filterPathsTo stateValue (getShortestPathPlans this None))) :
  let filtered := filterPathsTo stateValue (getShortestPathPlans this None) in
  filtered =
    List.filter
      (fun plan =>
         match stateValue with
         | TargetPredicate f => f (plan_state plan)
         | TargetValue v => matches (plan_state plan) v
         end)
      (getShortestPathPlans this None)
  /\ exists shortestPlans,
      getShortestPathPlansTo this stateValue = Ok shortestPlans
      /\ shortestPlans =
           List.filter
             (fun plan => num_eq (plan_weight plan) (min_weight filtered)) filtered
      /\ (forall plan,
            plan ∈ shortestPlans <->
            plan ∈ filtered
            /\ forall q, q ∈ filtered -> (plan_weight plan <= plan_weight q)%Z)
      /\ (forall p q,
            p ∈ shortestPlans -> q ∈ shortestPlans -> plan_weight p = plan_weight q).
Proof.
  intros filtered. split.
  { unfold filtered, filterPathsTo. destruct stateValue; reflexivity. }
  eexists. split.
  { unfold getShortestPathPlansTo. fold filtered.
    rewrite (shortest_loop_spec filtered Hpaths Infinity []) by constructor.
    reflexivity. }
  simpl. split; [reflexivity|].
  assert (Hchar : forall plan,
             plan ∈ List.filter
                      (fun plan => num_eq (plan_weight plan) (min_weight filtered))
                      filtered <->
             plan ∈ filtered
             /\ forall q, q ∈ filtered -> (plan_weight plan <= plan_weight q)%Z).
  { intros plan. rewrite list_elem_of_In, filter_In, <- list_elem_of_In. split.
    - intros [Hin Heq]. split; [exact Hin|]. intros q Hq.
      destruct (min_weight_lower_bound filtered q Hq) as [m [Hm Hle]].
      rewrite Hm in Heq. simpl in Heq. apply Z.eqb_eq in Heq. lia.
    - intros [Hin Hle]. split; [exact Hin|].
      destruct (min_weight_lower_bound filtered plan Hin) as [m [Hm Hm_le]].
      rewrite Hm. simpl. apply Z.eqb_eq.
      destruct (min_weight_attained filtered m Hm) as [p [Hp Hw]].
      specialize (Hle p Hp). lia. }
  split; [exact Hchar|].
  intros p q Hp Hq. apply Hchar in Hp, Hq.
  destruct Hp as [Hp Hp_le], Hq as [Hq Hq_le].
  specialize (Hp_le q Hq). specialize (Hq_le p Hp). lia.
Qed.

(** ** getPlanFromEvents *)

(** C2.  When replaying [events] gives the path [path]: [getPlanFromEvents]
    throws exactly when the state of the path does not match [target], and
    the message of the error holds the value of that state and the target,
    both as JSON; when the state matches, it returns the one plan compiled
    from the map whose single key is the value of the state as JSON: the
    state of the plan is that of the path, and its one path is the replayed
    path, with the same state, weight and steps. *)
Theorem getPlanFromEvents_spec
    (this : TestModel) (events : list EventObject) (target : StateValue)
    (path : StatePath)
    (Hpath : getPathFromEvents (machine this) events = Ok path) :
  ((exists e, getPlanFromEvents this events target = Raise e)
   <-> matches (sp_state path) target = false)
  /\ (matches (sp_state path) target = false ->
      getPlanFromEvents this events target =
        Raise {| name := "Error";
                 message := "The last state " +++ JSON_stringify (st_value (sp_state path))
                              +++ " does not match the target: "
                              +++ JSON_stringify target |})
  /\ (matches (sp_state path) target = true ->
      exists plan,
        getPlanFromEvents this events target = Ok (Some plan)
        /\ getTestPlans this
             [(JSON_stringify (st_value (sp_state path)),
               {| sp_plan_state := sp_state path; sp_plan_paths := [path] |})]
           = [plan]
        /\ plan_state plan = sp_state path
        /\ exists p,
            plan_paths plan = [p]
            /\ p = compile_path this
                     {| sp_plan_state := sp_state path; sp_plan_paths := [path] |} path
            /\ path_state p = sp_state path
            /\ path_weight p = sp_weight path
            /\ map (fun s => (step_state s, step_event s)) (path_steps p)
               = map (fun s => (seg_state s, seg_event s)) (sp_steps path)).
Proof.
  unfold getPlanFromEvents. rewrite Hpath.
  destruct (matches (sp_state path) target) eqn:Hm; simpl.
  - split; [|split].
    + split; [intros [e He]; discriminate | discriminate].
    + discriminate.
    + intros _. eexists. split; [reflexivity|]. split; [reflexivity|].
      split; [reflexivity|]. eexists. split; [reflexivity|]. split; [reflexivity|].
      split; [reflexivity|]. split; [reflexivity|].
      simpl. rewrite map_map. reflexivity.
  - split; [|split].
    + split; [reflexivity | intros _; eexists; reflexivity].
    + reflexivity.
    + discriminate.
Qed.

(** ** The trace appended to the message *)

Lemma trace_entries_cons (hasFailed : bool) (s : TestStepResult)
    (rest : list TestStepResult) :
  trace_entries hasFailed (s :: rest) =
    (fst (trace_entry hasFailed s)
       :: fst (trace_entries (snd (trace_entry hasFailed s)) rest),
     snd (trace_entries (snd (trace_entry hasFailed s)) rest)).
Proof.
  cbn [trace_entries]. destruct (trace_entry hasFailed s) as [line b1].
  cbn [fst snd]. destruct (trace_entries b1 rest). reflexivity.
Qed.

Lemma trace_entries_app (hasFailed : bool) (l1 l2 : list TestStepResult) :
  trace_entries hasFailed (l1 ++ l2) =
    (fst (trace_entries hasFailed l1)
       ++ fst (trace_entries (snd (trace_entries hasFailed l1)) l2),
     snd (trace_entries (snd (trace_entries hasFailed l1)) l2)).
Proof.
  revert hasFailed. induction l1 as [|s l1 IH]; intros hasFailed.
  - cbn [app trace_entries fst snd]. destruct (trace_entries hasFailed l2); reflexivity.
  - rewrite <- app_comm_cons, !trace_entries_cons, IH. reflexivity.
Qed.

Lemma trace_entry_passed (step : TestStep) :
  trace_entry false (passed step) = (trace_lines "greenBright" "green" step, false).
Proof. reflexivity. Qed.

Lemma trace_entry_gray (s : TestStepResult) :
  trace_entry true s = (trace_lines "gray" "gray" (tsr_step s), true).
Proof. reflexivity. Qed.

Lemma trace_entry_flag (hasFailed : bool) (s : TestStepResult) :
  snd (trace_entry hasFailed s) = hasFailed || has_error s.
Proof.
  unfold trace_entry, has_error.
  destruct hasFailed, (truthy_error (tsr_state_error s)),
    (truthy_error (tsr_event_error s)); reflexivity.
Qed.

Lemma trace_entries_passed (steps : list TestStep) :
  trace_entries false (map passed steps)
  = (map (trace_lines "greenBright" "green") steps, false).
Proof.
  induction steps as [|step steps IH]; [reflexivity|].
  rewrite !map_cons, trace_entries_cons, trace_entry_passed. cbn [fst snd].
  rewrite IH. reflexivity.
Qed.

(** X1.  Once a failure has been met, every later entry of the trace is
    gray, whatever errors that entry records itself, and the flag stays set;
    in general the flag at the end is set exactly when it was set at the
    start or some recorded step holds an error. *)
Theorem trace_entries_after_failure :
  (forall steps : list TestStepResult,
      trace_entries true steps
      = (map (fun s => trace_lines "gray" "gray" (tsr_step s)) steps, true))
  /\ (forall hasFailed (steps : list TestStepResult),
        snd (trace_entries hasFailed steps) = hasFailed || existsb has_error steps).
Proof.
  split.
  - induction steps as [|s steps IH]; [reflexivity|].
    rewrite trace_entries_cons, trace_entry_gray. cbn [fst snd].
    rewrite IH. reflexivity.
  - intros hasFailed steps. revert hasFailed.
    induction steps as [|s steps IH]; intros hasFailed.
    + cbn. symmetry. apply orb_false_r.
    + rewrite trace_entries_cons. cbn [fst snd existsb].
      rewrite IH, trace_entry_flag. symmetry. apply orb_assoc.
Qed.

(** X2.  What the catch block appends for each of the results a path's
    [test] can have recorded when it catches an error object.  The steps before the
    failure are green.  When the assertion of a step rejected, its state is
    bright red, its event gray and the state of the path gray; when its
    executor rejected, its state is green, its event red and the state of
    the path gray; when the assertion of the target rejected, every step is
    green and the state of the path red.  The trace has no entry for a step
    after the one that failed. *)
Theorem path_trace_of_failure (path : StatePath) (pre : list TestStep) :
  (forall step err,
      path_trace path
        {| tpr_steps := map passed pre ++ [state_failed step err];
           tpr_state_error := None |}
      = nl +++ "Path:" +++ nl
          +++ join (nl +++ nl)
                (map (trace_lines "greenBright" "green") pre
                   ++ [trace_lines "redBright" "gray" step; target_line "gray" path]))
  /\ (forall step err,
        path_trace path
          {| tpr_steps := map passed pre ++ [event_failed step err];
             tpr_state_error := None |}
        = nl +++ "Path:" +++ nl
            +++ join (nl +++ nl)
                  (map (trace_lines "greenBright" "green") pre
                     ++ [trace_lines "greenBright" "red" step; target_line "gray" path]))
  /\ (forall err : Error,
        path_trace path
          {| tpr_steps := map passed pre; tpr_state_error := Some (ThrownError err) |}
        = nl +++ "Path:" +++ nl
            +++ join (nl +++ nl)
                  (map (trace_lines "greenBright" "green") pre
                     ++ [target_line "red" path])).
Proof.
  assert (Hlast : forall s b,
             trace_entries b [s] = ([fst (trace_entry b s)], snd (trace_entry b s))).
  { intros s b. rewrite trace_entries_cons. reflexivity. }
  split; [|split].
  - intros step err. unfold path_trace. cbn [tpr_steps tpr_state_error].
    rewrite trace_entries_app, trace_entries_passed. cbn [fst snd].
    rewrite Hlast. cbn [fst snd]. rewrite <- app_assoc. reflexivity.
  - intros step err. unfold path_trace. cbn [tpr_steps tpr_state_error].
    rewrite trace_entries_app, trace_entries_passed. cbn [fst snd].
    rewrite Hlast. cbn [fst snd]. rewrite <- app_assoc. reflexivity.
  - intros err. unfold path_trace. cbn [tpr_steps tpr_state_error].
    rewrite trace_entries_passed. reflexivity.
Qed.

(** ** executeEvent with an executor *)

(** X3.  When the configuration gives the type of the event an executor,
    as a bare function or as the [exec] of a record (its [cases] play no
    part), [getEventExecutor] returns it without a warning, and
    [executeEvent] calls it once, with the test context and the event, and
    settles as that call does: it returns, rejects with the same error or
    never settles with it.  The world changes only as the call changes the
    system under test. *)
Theorem executeEvent_calls_executor
    (this : TestModel) (event : EventObject) (testContext : TestContext) (w : World)
    (f : Executor)
    (Hconfigured : configured_executor this event = Some f) :
  getEventExecutor this event w = (Ret (Some f), w)
  /\ executeEvent this event testContext w =
       (fst (run_exec f testContext event (sut w)),
        {| sut := snd (run_exec f testContext event (sut w));
           heap := heap w;
           console := console w;
           calls := calls w ++ [CallExec f testContext event] |}).
Proof.
  unfold configured_executor in Hconfigured.
  unfold executeEvent, getEventExecutor, bind.
  destruct (obj_get (event_type event) (events (options this)))
    as [[g|exec cases]|]; [| |discriminate].
  - injection Hconfigured as ->. simpl. unfold call_exec.
    destruct (run_exec f testContext event (sut w)). split; reflexivity.
  - subst exec. simpl. unfold call_exec.
    destruct (run_exec f testContext event (sut w)). split; reflexivity.
Qed.

Lemma executeEvent_run (this : TestModel) (event : EventObject)
    (testContext : TestContext) (w : World) :
  executeEvent this event testContext w =
    let warned := {| sut := sut w; heap := heap w;
                     console := if missing_config this event
                                then console w ++ [missing_config_warning event]
                                else console w;
                     calls := calls w |} in
    match found_executor this event with
    | Some f => call_exec f testContext event warned
    | None => (Ret tt, warned)
    end.
Proof.
  unfold executeEvent, getEventExecutor, found_executor, configured_executor,
    inherited_executor, missing_config, missing_config_warning, bind.
  destruct w as [s h c cs].
  destruct (obj_get (event_type event) (events (options this)))
    as [[g|[g|] cases]|]; try reflexivity.
  destruct (Object_prototype (event_type event)) as [[g|[g|]]|]; reflexivity.
Qed.

(** X4.  Whatever the configuration, [executeEvent] changes no coverage
    object, calls no state assertion, and makes at most one call: a call,
    with this event, of the executor configured for its type or, when the
    type is no key of the configuration, of the function objects inherit
    under that name.  It writes to the console exactly when the type of the
    event is neither a key of the configuration nor an inherited name, and
    throws no error of its own: when it does not return, the function it
    called did not. *)
Theorem executeEvent_frame
    (this : TestModel) (event : EventObject) (testContext : TestContext) (w : World) :
  let r := executeEvent this event testContext w in
  heap (snd r) = heap w
  /\ (calls (snd r) = calls w
      \/ exists f, found_executor this event = Some f
                   /\ calls (snd r) = calls w ++ [CallExec f testContext event])
  /\ (found_executor this event = None -> r = (Ret tt, snd r) /\ calls (snd r) = calls w)
  /\ (console (snd r) = console w
      <-> (obj_get (event_type event) (events (options this)) <> None
           \/ Object_prototype (event_type event) <> None))
  /\ (fst r <> Ret tt ->
      exists f, found_executor this event = Some f
                /\ fst r = fst (run_exec f testContext event (sut w)))
  /\ (obj_get (event_type event) (events (options this)) <> None ->
      found_executor this event = configured_executor this event)
  /\ (obj_get (event_type event) (events (options this)) = None ->
      found_executor this event = inherited_executor event).
Proof.
  intros r. subst r. rewrite executeEvent_run. cbv zeta.
  assert (Hconsole : (if missing_config this event
                      then console w ++ [missing_config_warning event]
                      else console w) = console w
                     <-> (obj_get (event_type event) (events (options this)) <> None
                          \/ Object_prototype (event_type event) <> None)).
  { unfold missing_config.
    destruct (obj_get (event_type event) (events (options this))) as [c|].
    - split; [intros _; left; discriminate | reflexivity].
    - destruct (Object_prototype (event_type event)) as [i|].
      + split; [intros _; right; discriminate | reflexivity].
      + split.
        * intros H. exfalso.
          assert (Hlen : length (console w ++ [missing_config_warning event])
                         = length (console w)) by (rewrite H; reflexivity).
          rewrite length_app in Hlen. simpl in Hlen. lia.
        * intros [H|H]; exfalso; apply H; reflexivity. }
  assert (Hown : obj_get (event_type event) (events (options this)) <> None ->
                 found_executor this event = configured_executor this event).
  { unfold found_executor.
    destruct (obj_get (event_type event) (events (options this)));
      [reflexivity | intros H; exfalso; apply H; reflexivity]. }
  assert (Hinherited : obj_get (event_type event) (events (options this)) = None ->
                       found_executor this event = inherited_executor event).
  { unfold found_executor. intros ->. reflexivity. }
  destruct (found_executor this event) as [f|] eqn:Hfound.
  - unfold call_exec. cbn [sut heap console calls].
    destruct (run_exec f testContext event (sut w)) as [o s'] eqn:Hrun.
    cbn [fst snd heap calls console].
    split; [reflexivity|]. split; [right; exists f; split; reflexivity|].
    split; [discriminate|]. split; [exact Hconsole|].
    split; [intros _; exists f; split; [reflexivity | rewrite Hrun; reflexivity]|].
    split; [exact Hown | exact Hinherited].
  - cbn [fst snd heap calls console].
    split; [reflexivity|]. split; [left; reflexivity|].
    split; [intros _; split; reflexivity|]. split; [exact Hconsole|].
    split; [intros H; exfalso; apply H; reflexivity|].
    split; [exact Hown | exact Hinherited].
Qed.

(** ** getShortestPathPlansTo: plans without a path, and no plan *)

Lemma shortest_loop_raises (plans : list TestPlan) :
  Exists (fun plan => plan_paths plan = []) plans ->
  forall minWeight shortestPlans,
    shortest_loop plans minWeight shortestPlans = Raise (TypeError_undefined "weight").
Proof.
  induction plans as [|plan plans IH]; intros Hex minWeight shortestPlans.
  - inversion Hex.
  - cbn [shortest_loop]. unfold first_weight.
    destruct (plan_paths plan) as [|path paths] eqn:Hpaths; [reflexivity|].
    assert (Hrest : Exists (fun plan => plan_paths plan = []) plans).
    { inversion Hex as [? ? Hhere|? ? Hlater]; subst; [congruence | exact Hlater]. }
    destruct (num_lt (path_weight path) minWeight); [apply IH; exact Hrest|].
    destruct (num_eq (path_weight path) minWeight); apply IH; exact Hrest.
Qed.

Lemma Forall_or_Exists_no_path (plans : list TestPlan) :
  Forall (fun plan => plan_paths plan <> []) plans
  \/ Exists (fun plan => plan_paths plan = []) plans.
Proof.
  induction plans as [|plan plans [IH|IH]].
  - left. constructor.
  - destruct (plan_paths plan) as [|path paths] eqn:Hpaths.
    + right. apply Exists_cons_hd. exact Hpaths.
    + left. constructor; [congruence | exact IH].
  - right. apply Exists_cons_tl. exact IH.
Qed.

(** X5.  [getShortestPathPlansTo] reads [plan.paths[0].weight] of every
    plan that matches the target: it throws, a [TypeError], exactly when
    some matching plan has no path, whatever the other plans are; plans that
    do not match are never read.  It throws no other error. *)
Theorem getShortestPathPlansTo_throws (this : TestModel) (stateValue : Target) :
  let filtered := filterPathsTo stateValue (getShortestPathPlans this None) in
  (Exists (fun plan => plan_paths plan = []) filtered <->
   getShortestPathPlansTo this stateValue = Raise (TypeError_undefined "weight"))
  /\ (Forall (fun plan => plan_paths plan <> []) filtered <->
      exists shortestPlans, getShortestPathPlansTo this stateValue = Ok shortestPlans)
  /\ (forall e,
        getShortestPathPlansTo this stateValue = Raise e ->
        e = TypeError_undefined "weight").
Proof.
  intros filtered. unfold getShortestPathPlansTo. fold filtered.
  destruct (Forall_or_Exists_no_path filtered) as [Hall|Hex].
  - rewrite (shortest_loop_spec filtered Hall Infinity []) by constructor.
    split; [|split].
    + split; [|discriminate].
      intros Hex. exfalso. apply Exists_exists in Hex. destruct Hex as [plan [Hin Hnone]].
      exact (proj1 (Forall_forall _ _) Hall plan Hin Hnone).
    + split; [intros _; eexists; reflexivity | intros _; exact Hall].
    + intros e He. discriminate He.
  - rewrite (shortest_loop_raises filtered Hex). split; [|split].
    + split; [reflexivity | intros _; exact Hex].
    + split; [|intros [l Hl]; discriminate].
      intros Hall. exfalso. apply Exists_exists in Hex. destruct Hex as [plan [Hin Hnone]].
      exact (proj1 (Forall_forall _ _) Hall plan Hin Hnone).
    + intros e He. injection He as <-. reflexivity.
Qed.

(** X6.  When every matching plan has a path, the result of
    [getShortestPathPlansTo] is empty exactly when no shortest-path plan
    matches the target: as soon as one plan matches, at least one plan is
    returned. *)
Theorem getShortestPathPlansTo_nonempty
    (this : TestModel) (stateValue : Target)
    (Hpaths : Forall (fun plan => plan_paths plan <> [])
                (filterPathsTo stateValue (getShortestPathPlans this None))) :
  exists shortestPlans,
    getShortestPathPlansTo this stateValue = Ok shortestPlans
    /\ (shortestPlans = [] <->
        filterPathsTo stateValue (getShortestPathPlans this None) = []).
Proof.
  unfold getShortestPathPlansTo.
  set (filtered := filterPathsTo stateValue (getShortestPathPlans this None)) in *.
  rewrite (shortest_loop_spec filtered Hpaths Infinity []) by constructor.
  eexists. split; [reflexivity|]. cbn [app num_min]. split.
  - intros Hempty. destruct filtered as [|plan rest] eqn:Hf; [reflexivity|]. exfalso.
    destruct (min_weight (plan :: rest)) as [m|] eqn:Hm.
    + destruct (min_weight_attained _ _ Hm) as [p [Hp Hw]].
      assert (Hin : In p (List.filter
                            (fun plan0 => num_eq (plan_weight plan0) (Finite m))
                            (plan :: rest))).
      { apply filter_In. split; [apply list_elem_of_In; exact Hp|].
        simpl. apply Z.eqb_eq. exact Hw. }
      rewrite Hempty in Hin. destruct Hin.
    + assert (Hp : plan ∈ plan :: rest) by (apply elem_of_cons; left; reflexivity).
      destruct (min_weight_lower_bound _ _ Hp) as [m [Hm' _]]. congruence.
  - intros ->. reflexivity.
Qed.

(** ** filterPathsTo and getSimplePathPlansTo *)

Lemma filterPathsTo_filter (stateValue : Target) (testPlans : list TestPlan) :
  filterPathsTo stateValue testPlans
  = List.filter (fun plan => target_matches stateValue (plan_state plan)) testPlans.
Proof. unfold filterPathsTo, target_matches. destruct stateValue; reflexivity. Qed.

(** X7.  [getSimplePathPlansTo] returns the simple-path plans whose state
    matches the target, all of them whatever their weight, in the order of
    [getSimplePathPlans]; and a state value as target selects the same plans
    as the predicate that asks [state.matches] for that value. *)
Theorem getSimplePathPlansTo_matching (this : TestModel) (stateValue : Target) :
  (forall plan,
      plan ∈ getSimplePathPlansTo this stateValue <->
      plan ∈ getSimplePathPlans this None
      /\ target_matches stateValue (plan_state plan) = true)
  /\ sublist (getSimplePathPlansTo this stateValue) (getSimplePathPlans this None)
  /\ (forall v,
        getSimplePathPlansTo this (TargetValue v)
        = getSimplePathPlansTo this (TargetPredicate (fun state => matches state v))).
Proof.
  unfold getSimplePathPlansTo. split; [|split].
  - intros plan. rewrite filterPathsTo_filter.
    rewrite !list_elem_of_In, filter_In. reflexivity.
  - rewrite filterPathsTo_filter.
    induction (getSimplePathPlans this None) as [|plan plans IH]; simpl.
    + constructor.
    + destruct (target_matches stateValue (plan_state plan)).
      * apply sublist_skip. exact IH.
      * apply sublist_cons. exact IH.
  - intros v. reflexivity.
Qed.

(** ** getDescription *)





(** ** The counters over time *)

Lemma obj_get_bump (id id' : string) (counters : Obj nat) :
  obj_get id' (bump id counters) =
    if String.eqb id' id then Some (default 0 (obj_get id counters) + 1)
    else obj_get id' counters.
Proof. unfold bump. apply obj_get_set. Qed.

Lemma counters_grow_refl (w : World) : counters_grow w w.
Proof.
  intros l c Hc. exists c. split; [exact Hc|].
  intros id n Hn. exists n. split; [exact Hn | lia].
Qed.

Lemma counters_grow_same_heap (w w' : World) :
  heap w' = heap w -> counters_grow w w'.
Proof.
  intros Hheap l c Hc. exists c. split; [rewrite Hheap; exact Hc|].
  intros id n Hn. exists n. split; [exact Hn | lia].
Qed.

Lemma counters_grow_trans (w1 w2 w3 : World) :
  counters_grow w1 w2 -> counters_grow w2 w3 -> counters_grow w1 w3.
Proof.
  intros H12 H23 l c Hc.
  destruct (H12 l c Hc) as [c2 [Hc2 Hn2]].
  destruct (H23 l c2 Hc2) as [c3 [Hc3 Hn3]].
  exists c3. split; [exact Hc3|].
  intros id n Hn. destruct (Hn2 id n Hn) as [n2 [Hg2 Hle2]].
  destruct (Hn3 id n2 Hg2) as [n3 [Hg3 Hle3]].
  exists n3. split; [exact Hg3 | lia].
Qed.

Lemma count_stateNode_grows (this : TestModel) (id : string) (w : World) :
  counters_grow w (snd (count_stateNode this id w)).
Proof.
  intros l c Hc. unfold count_stateNode, modify. cbn [snd heap].
  destruct (Nat.eq_dec l (coverage this)) as [->|Hne].
  - rewrite list_lookup_insert_eq by (eapply lookup_lt_Some; exact Hc).
    eexists. split; [reflexivity|]. cbn [stateNodes].
    assert (Hthis : this_coverage this w = c).
    { unfold this_coverage. rewrite Hc. reflexivity. }
    rewrite Hthis. intros id' n Hn. fold (bump id (stateNodes c)).
    rewrite obj_get_bump. destruct (String.eqb id' id) eqn:E.
    + apply String.eqb_eq in E. subst id'. rewrite Hn. cbn.
      eexists. split; [reflexivity | lia].
    + exists n. split; [exact Hn | lia].
  - rewrite list_lookup_insert_ne by congruence.
    exists c. split; [exact Hc|].
    intros id' n Hn. exists n. split; [exact Hn | lia].
Qed.

Lemma counters_grow_Respected (this : TestModel) : Respected this counters_grow.
Proof.
  split.
  - apply counters_grow_refl.
  - apply counters_grow_trans.
  - intros f testContext state w. unfold call_test.
    destruct (run_test f testContext state (sut w)).
    apply counters_grow_same_heap. reflexivity.
  - intros f testContext event w. unfold call_exec.
    destruct (run_exec f testContext event (sut w)).
    apply counters_grow_same_heap. reflexivity.
  - intros msg w. apply counters_grow_same_heap. reflexivity.
  - intros id w. apply count_stateNode_grows.
Qed.

Lemma new_TestModel_grows (machine : Machine) (opts : option PartialOptions) (w : World) :
  counters_grow w (snd (new_TestModel machine opts w)).
Proof.
  intros l c Hc. unfold new_TestModel. cbn [snd heap].
  exists c. split.
  - rewrite lookup_app_l by (eapply lookup_lt_Some; exact Hc). exact Hc.
  - intros id n Hn. exists n. split; [exact Hn | lia].
Qed.

(** X10.  Coverage only grows.  Across a state assertion, the execution of
    an event, the test of a compiled path or plan (whether it returns,
    rejects or never settles) and across the creation of an instance, every
    coverage object of every instance is kept, no id leaves it and no
    counter gets smaller. *)
Theorem coverage_never_decreases (this : TestModel) :
  (forall state testContext w,
      counters_grow w (snd (testState this state testContext w)))
  /\ (forall event testContext w,
        counters_grow w (snd (executeEvent this event testContext w)))
  /\ (forall testPlan path testContext w,
        counters_grow w (snd (path_test (compile_path this testPlan path) testContext w)))
  /\ (forall statePathsMap plan testContext w,
        plan ∈ getTestPlans this statePathsMap ->
        counters_grow w (snd (plan_test plan testContext w)))
  /\ (forall eventMap w, counters_grow w (snd (withEvents this eventMap w)))
  /\ (forall (other : TestModel) id n w w',
        counters_grow w w' ->
        counter other id w = Some n ->
        exists n', counter other id w' = Some n' /\ n <= n').
Proof.
  pose proof (counters_grow_Respected this) as HR.
  split; [|split; [|split; [|split; [|split]]]].
  - intros state testContext w. exact (testState_Preserves this _ HR state testContext w).
  - intros event testContext w.
    exact (executeEvent_Preserves this _ HR event testContext w).
  - intros testPlan path testContext w.
    exact (test_path_Preserves this _ HR testPlan path testContext w).
  - intros statePathsMap plan testContext w Hplan.
    apply list_elem_of_In, in_map_iff in Hplan.
    destruct Hplan as [[key testPlan] [<- _]].
    exact (test_plan_Preserves this _ testPlan (sp_plan_paths testPlan) testContext HR w).
  - intros eventMap w. apply new_TestModel_grows.
  - intros other id n w w' Hgrow Hn. unfold counter, this_coverage in *.
    destruct (heap w !! coverage other) as [c|] eqn:Hc; [|discriminate].
    destruct (Hgrow _ _ Hc) as [c' [Hc' Hids]]. rewrite Hc'. simpl in *.
    exact (Hids id n Hn).
Qed.

Lemma bump_positive (id : string) (counters : Obj nat) :
  (forall id' n, obj_get id' counters = Some n -> 1 <= n) ->
  forall id' n, obj_get id' (bump id counters) = Some n -> 1 <= n.
Proof.
  intros Hpos id' n. rewrite obj_get_bump.
  destruct (String.eqb id' id); [intros [= <-]; lia | apply Hpos].
Qed.

Lemma this_coverage_positive (this : TestModel) (w : World) :
  positive_counters w ->
  forall id n, obj_get id (stateNodes (this_coverage this w)) = Some n -> 1 <= n.
Proof.
  intros Hw. unfold this_coverage.
  destruct (heap w !! coverage this) as [c|] eqn:Hc; simpl.
  - exact (proj1 (Forall_lookup _ _) Hw _ _ Hc).
  - intros id n Hn. discriminate.
Qed.

Lemma keeps_sound_counters_Respected (this : TestModel) :
  Respected this keeps_sound_counters.
Proof.
  split.
  - intros w H. exact H.
  - intros w1 w2 w3 H1 H2 H. exact (H2 (H1 H)).
  - intros f testContext state w. unfold call_test.
    destruct (run_test f testContext state (sut w)). intros H. exact H.
  - intros f testContext event w. unfold call_exec.
    destruct (run_exec f testContext event (sut w)). intros H. exact H.
  - intros msg w H. exact H.
  - intros id w [Hd Hp]. split.
    + exact (resp_count _ _ (keeps_distinct_keys_Respected this) id w Hd).
    + unfold count_stateNode, modify, positive_counters. cbn [snd heap].
      apply Forall_insert; [exact Hp|]. cbn [stateNodes].
      apply (bump_positive id). apply this_coverage_positive. exact Hp.
Qed.

(** X11.  In every world the model makes from a world without instances,
    the ids of each coverage map are distinct and the counter of an id that
    has one is at least one: both hold when there is no instance, and
    [createModel], [withEvents], a state assertion, the execution of an
    event and the test of a compiled path or plan keep them. *)
Theorem sound_counters_invariant (this : TestModel) :
  (forall w, heap w = [] -> sound_counters w)
  /\ (forall machine opts w,
        sound_counters w -> sound_counters (snd (createModel machine opts w)))
  /\ (forall eventMap w,
        sound_counters w -> sound_counters (snd (withEvents this eventMap w)))
  /\ (forall state testContext w,
        sound_counters w -> sound_counters (snd (testState this state testContext w)))
  /\ (forall event testContext w,
        sound_counters w ->
        sound_counters (snd (executeEvent this event testContext w)))
  /\ (forall testPlan path testContext w,
        sound_counters w ->
        sound_counters (snd (path_test (compile_path this testPlan path) testContext w)))
  /\ (forall statePathsMap plan testContext w,
        plan ∈ getTestPlans this statePathsMap ->
        sound_counters w -> sound_counters (snd (plan_test plan testContext w))).
Proof.
  pose proof (keeps_sound_counters_Respected this) as HR.
  assert (Hnew : forall machine opts w,
             sound_counters w -> sound_counters (snd (new_TestModel machine opts w))).
  { intros machine opts w [Hd Hp]. split.
    - apply new_TestModel_distinct_keys. exact Hd.
    - unfold new_TestModel, positive_counters. cbn [snd heap].
      apply Forall_app. split; [exact Hp|].
      constructor; [|constructor]. intros id n Hn. discriminate. }
  split; [|split; [|split; [|split; [|split; [|split]]]]].
  - intros w Hempty. unfold sound_counters, distinct_keys, positive_counters.
    rewrite Hempty. split; constructor.
  - intros machine opts w. apply Hnew.
  - intros eventMap w. apply Hnew.
  - intros state testContext w. exact (testState_Preserves this _ HR state testContext w).
  - intros event testContext w.
    exact (executeEvent_Preserves this _ HR event testContext w).
  - intros testPlan path testContext w.
    exact (test_path_Preserves this _ HR testPlan path testContext w).
  - intros statePathsMap plan testContext w Hplan.
    apply list_elem_of_In, in_map_iff in Hplan.
    destruct Hplan as [[key testPlan] [<- _]].
    exact (test_plan_Preserves this _ testPlan (sp_plan_paths testPlan) testContext HR w).
Qed.

(** ** The coverage report *)

Lemma testCoverage_run (this : TestModel) (opts : option CoverageOptions) (w : World) :
  testCoverage this opts w =
    match zero_count_ids (coverage_report this opts w) with
    | [] => (Ret tt, w)
    | _ => (Throw {| name := "Error";
                     message := "Missing coverage for state nodes:" +++ nl
                       +++ join nl (map (fun id => tab +++ id)
                                        (zero_count_ids (coverage_report this opts w))) |},
            w)
    end.
Proof.
  unfold testCoverage, bind. rewrite getCoverage_run.
  fold (coverage_report this opts w).
  fold (zero_count_ids (coverage_report this opts w)).
  destruct (zero_count_ids (coverage_report this opts w)); reflexivity.
Qed.

Lemma overlay_distinct_keys {A : Type} (b a : Obj A) :
  NoDup (obj_keys a) ->
  NoDup (obj_keys (fold_left (fun acc kv => obj_set (fst kv) (snd kv) acc) b a)).
Proof.
  revert a. induction b as [|[k v] b IH]; intros a Ha; simpl; [exact Ha|].
  apply IH. apply obj_set_distinct_keys. exact Ha.
Qed.

Lemma zero_init_distinct_keys (nodes : list StateNode) (acc : Obj nat) :
  NoDup (obj_keys acc) ->
  NoDup (obj_keys (fold_left (fun acc stateNode => obj_set (sn_id stateNode) 0 acc)
                             nodes acc)).
Proof.
  revert acc. induction nodes as [|n nodes IH]; intros acc Hacc; simpl; [exact Hacc|].
  apply IH. apply obj_set_distinct_keys. exact Hacc.
Qed.

Lemma filter_NoDup {A : Type} (f : A -> bool) (l : list A) :
  NoDup l -> NoDup (List.filter f l).
Proof.
  induction 1 as [|x l Hx _ IH]; simpl; [constructor|].
  destruct (f x); [|exact IH].
  constructor; [|exact IH].
  intros Hin. apply Hx. apply list_elem_of_In in Hin. apply filter_In in Hin.
  apply list_elem_of_In. exact (proj1 Hin).
Qed.

(** X12.  No id is twice in the map [getCoverage] returns, even when several
    state nodes have the same id or an id has a counter and a state node;
    so the error of [testCoverage] names each uncovered id once. *)
Theorem getCoverage_distinct_ids
    (this : TestModel) (opts : option CoverageOptions) (w : World) :
  NoDup (obj_keys (cov_stateNodes (coverage_report this opts w)))
  /\ NoDup (zero_count_ids (coverage_report this opts w))
  /\ getCoverage this opts w = (Ret (coverage_report this opts w), w).
Proof.
  assert (Hkeys : NoDup (obj_keys (cov_stateNodes (coverage_report this opts w)))).
  { unfold coverage_report. cbn [cov_stateNodes].
    apply overlay_distinct_keys. apply zero_init_distinct_keys. constructor. }
  split; [exact Hkeys|]. split.
  - unfold zero_count_ids. apply filter_NoDup. exact Hkeys.
  - apply getCoverage_run.
Qed.

Lemma coverage_report_lookup (this : TestModel) (opts : option CoverageOptions)
    (w : World) (id : string) :
  distinct_keys w ->
  obj_get id (cov_stateNodes (coverage_report this opts w)) =
    match counter this id w with
    | Some n => Some n
    | None => if has_id id (filteredStateNodes this opts) then Some 0 else None
    end.
Proof.
  intros Hd. unfold coverage_report, counter. cbn [cov_stateNodes].
  rewrite obj_get_overlay, obj_get_rev by (apply this_coverage_distinct_keys; exact Hd).
  destruct (obj_get id (stateNodes (this_coverage this w))); [reflexivity|].
  apply obj_get_zero_init.
Qed.

(** X13.  In a world whose counters are sound (distinct ids, no counter of
    zero), which the worlds the model makes are, [testCoverage] throws
    exactly when some state node that the filter keeps has never had its
    assertion run by this instance, and the ids its error lists are the ids
    of those state nodes. *)
Theorem testCoverage_untested
    (this : TestModel) (opts : option CoverageOptions) (w : World)
    (Hsound : sound_counters w) :
  (forall id,
      id ∈ zero_count_ids (coverage_report this opts w) <->
      has_id id (filteredStateNodes this opts) = true /\ counter this id w = None)
  /\ ((exists e, fst (testCoverage this opts w) = Throw e) <->
      exists id,
        has_id id (filteredStateNodes this opts) = true /\ counter this id w = None)
  /\ ((forall id, has_id id (filteredStateNodes this opts) = true ->
                  counter this id w <> None) ->
      testCoverage this opts w = (Ret tt, w)).
Proof.
  destruct Hsound as [Hd Hp].
  assert (Hzero : forall id,
             id ∈ zero_count_ids (coverage_report this opts w) <->
             has_id id (filteredStateNodes this opts) = true
             /\ counter this id w = None).
  { intros id. rewrite elem_of_zero_count_ids, (coverage_report_lookup this opts w id Hd).
    destruct (counter this id w) as [n|] eqn:Hn.
    - split; [|intros [_ H]; discriminate].
      intros [= ->]. pose proof (this_coverage_positive this w Hp id 0 Hn). lia.
    - destruct (has_id id (filteredStateNodes this opts)).
      + split; [intros _; split; reflexivity | reflexivity].
      + split; [discriminate | intros [H _]; discriminate]. }
  split; [exact Hzero|].
  rewrite testCoverage_run.
  destruct (zero_count_ids (coverage_report this opts w)) as [|id0 ids] eqn:Hz.
  - split.
    + split; [intros [e He]; discriminate|].
      intros [id Hid]. apply Hzero in Hid. inversion Hid.
    + intros _. reflexivity.
  - assert (H0 : has_id id0 (filteredStateNodes this opts) = true
                 /\ counter this id0 w = None).
    { apply Hzero. apply elem_of_cons. left. reflexivity. }
    split.
    + split; [intros _; exists id0; exact H0 | intros _; eexists; reflexivity].
    + intros Hall. exfalso. exact (Hall id0 (proj1 H0) (proj2 H0)).
Qed.

(** ** What a run of assertions counts *)

Lemma assert_entry_coverage (this : TestModel) (state : State) (testContext : TestContext)
    (entry : string * TestFn) (w : World) :
  coverage this < length (heap w) ->
  let w' := snd (assert_entry this state testContext entry w) in
  stateNodes (this_coverage this w') = bump (fst entry) (stateNodes (this_coverage this w))
  /\ length (heap w') = length (heap w)
  /\ console w' = console w
  /\ calls w' = calls w ++ [CallTest (snd entry) testContext state].
Proof.
  intros Halloc. destruct entry as [id f]. rewrite assert_entry_run. cbn [snd fst].
  unfold this_coverage at 1. cbn [heap console calls].
  rewrite list_lookup_insert_eq by exact Halloc. cbn [default stateNodes].
  rewrite length_insert. auto.
Qed.

Lemma assert_entries_segment (this : TestModel) (state : State)
    (testContext : TestContext) (entries : list (string * TestFn)) :
  forall w,
    coverage this < length (heap w) ->
    exists k,
      k <= length entries
      /\ let r := for_of entries (assert_entry this state testContext) w in
         calls (snd r)
         = calls w ++ map (fun e => CallTest (snd e) testContext state) (take k entries)
         /\ stateNodes (this_coverage this (snd r))
            = fold_left (fun c id => bump id c) (map fst (take k entries))
                (stateNodes (this_coverage this w))
         /\ length (heap (snd r)) = length (heap w)
         /\ console (snd r) = console w
         /\ (fst r = Ret tt -> k = length entries)
         /\ (fst r <> Ret tt -> 0 < k).
Proof.
  induction entries as [|entry entries IH]; intros w Halloc.
  - exists 0. split; [reflexivity|]. cbn.
    split; [symmetry; apply app_nil_r|]. split; [reflexivity|].
    split; [reflexivity|]. split; [reflexivity|]. split; [reflexivity|].
    intros H. exfalso. apply H. reflexivity.
  - destruct (assert_entry_coverage this state testContext entry w Halloc)
      as [Hsn [Hlen [Hcon Hcalls]]].
    cbn [for_of]. unfold bind.
    destruct (assert_entry this state testContext entry w) as [[[]|err|] w1] eqn:Hrun;
      cbn [snd] in Hsn, Hlen, Hcon, Hcalls.
    + assert (Halloc1 : coverage this < length (heap w1)) by lia.
      destruct (IH w1 Halloc1) as [k [Hk Hrest]]. cbv zeta in Hrest.
      destruct Hrest as [Hc [Hs [Hl [Hco [Hret Hnot]]]]].
      exists (S k). split; [simpl; lia|]. cbv zeta. cbn [take map fold_left].
      split; [rewrite Hc, Hcalls, <- app_assoc; reflexivity|].
      split; [rewrite Hs, Hsn; reflexivity|].
      split; [lia|]. split; [congruence|].
      split; [intros H; rewrite (Hret H); reflexivity | intros _; lia].
    + exists 1. split; [simpl; lia|]. cbv zeta. cbn [take map fold_left fst snd].
      split; [exact Hcalls|]. split; [exact Hsn|]. split; [exact Hlen|].
      split; [exact Hcon|]. split; [discriminate | intros _; lia].
    + exists 1. split; [simpl; lia|]. cbv zeta. cbn [take map fold_left fst snd].
      split; [exact Hcalls|]. split; [exact Hsn|]. split; [exact Hlen|].
      split; [exact Hcon|]. split; [discriminate | intros _; lia].
Qed.

(** X14.  For an instance of the world, the state assertions [testState]
    runs are an initial segment of the entries of [state.meta] that have a
    [test] and are not skipped: the functions of that segment are called in
    that order, each once and each with [(testContext, state)], and the
    counters of the instance change by one increment for each entry of the
    segment, in that order.  The segment is all the entries when [testState]
    returns, and is not empty when it does not.  Nothing is written to the
    console and no coverage object is added or removed. *)
Theorem testState_initial_segment
    (this : TestModel) (state : State) (testContext : TestContext) (w : World)
    (Halloc : coverage this < length (heap w)) :
  exists k,
    k <= length (tested_entries state)
    /\ let r := testState this state testContext w in
       calls (snd r)
       = calls w ++ map (fun e => CallTest (snd e) testContext state)
                        (take k (tested_entries state))
       /\ stateNodes (this_coverage this (snd r))
          = fold_left (fun c id => bump id c) (map fst (take k (tested_entries state)))
              (stateNodes (this_coverage this w))
       /\ length (heap (snd r)) = length (heap w)
       /\ console (snd r) = console w
       /\ (fst r = Ret tt -> k = length (tested_entries state))
       /\ (fst r <> Ret tt -> 0 < k).
Proof.
  destruct (assert_entries_segment this state testContext (tested_entries state) w Halloc)
    as [k [Hk Hseg]].
  exists k. split; [exact Hk|]. cbv zeta in *.
  rewrite testState_tested_entries. exact Hseg.
Qed.

Lemma testState_returns_coverage (this : TestModel) (state : State)
    (testContext : TestContext) (w w' : World) :
  coverage this < length (heap w) ->
  testState this state testContext w = (Ret tt, w') ->
  stateNodes (this_coverage this w')
  = fold_left (fun c id => bump id c) (map fst (tested_entries state))
      (stateNodes (this_coverage this w))
  /\ length (heap w') = length (heap w).
Proof.
  intros Halloc Hrun.
  destruct (assert_entries_segment this state testContext (tested_entries state) w Halloc)
    as [k [Hk Hseg]].
  cbv zeta in Hseg. rewrite <- testState_tested_entries, Hrun in Hseg.
  cbn [fst snd] in Hseg. destruct Hseg as [_ [Hs [Hl [_ [Hret _]]]]].
  rewrite (Hret eq_refl), firstn_all in Hs. split; [exact Hs | exact Hl].
Qed.

Lemma executeEvent_heap (this : TestModel) (event : EventObject)
    (testContext : TestContext) (w : World) :
  heap (snd (executeEvent this event testContext w)) = heap w.
Proof.
  rewrite executeEvent_run. cbv zeta.
  destruct (found_executor this event) as [g|]; [|reflexivity].
  unfold call_exec. cbn [sut].
  destruct (run_exec g testContext event (sut w)); reflexivity.
Qed.

Lemma steps_pass_coverage (this : TestModel) (testContext : TestContext)
    (segments : list Segment) :
  forall w w1,
    coverage this < length (heap w) ->
    steps_pass testContext (map (compile_step this) segments) w w1 ->
    stateNodes (this_coverage this w1)
    = fold_left (fun c id => bump id c)
        (flat_map (fun step => map fst (tested_entries (seg_state step))) segments)
        (stateNodes (this_coverage this w))
    /\ length (heap w1) = length (heap w).
Proof.
  induction segments as [|segment segments IH]; intros w w1 Halloc Hpass.
  - inversion Hpass; subst. split; reflexivity.
  - rewrite map_cons in Hpass.
    inversion Hpass as [|step steps w0 wa wb wc Htest Hexec Hrest]; subst.
    cbn [compile_step step_test step_exec] in Htest, Hexec.
    destruct (testState_returns_coverage this _ testContext w wa Halloc Htest)
      as [Hsn Hlen].
    assert (Hheap : heap wb = heap wa).
    { pose proof (executeEvent_heap this (seg_event segment) testContext wa) as H.
      rewrite Hexec in H. exact H. }
    assert (Hallocb : coverage this < length (heap wb)) by (rewrite Hheap; lia).
    destruct (IH wb w1 Hallocb Hrest) as [Hsn' Hlen'].
    split; [|rewrite Hlen', Hheap; exact Hlen].
    rewrite Hsn'. cbn [flat_map]. rewrite fold_left_app. f_equal.
    unfold this_coverage. rewrite Hheap. exact Hsn.
Qed.

Lemma test_path_returns (this : TestModel) (testPlan : StatePlan) (path : StatePath)
    (testContext : TestContext) (w w' : World) (result : TestPathResult) :
  path_test (compile_path this testPlan path) testContext w = (Ret result, w') ->
  exists w1,
    steps_pass testContext (map (compile_step this) (sp_steps path)) w w1
    /\ testState this (sp_plan_state testPlan) testContext w1 = (Ret tt, w').
Proof.
  intros Hret. cbn [compile_path path_test] in Hret. rewrite test_path_of_body in Hret.
  unfold test_path_body in Hret. unfold bind at 1 in Hret.
  destruct (for_of (map (compile_step this) (sp_steps path)) (test_step testContext)
              (no_result, w)) as [[[]|e|] [tpr1 w1]] eqn:Hloop;
    simpl in Hret; try discriminate.
  apply for_of_steps_returns in Hloop. destruct Hloop as [Hpass ->]. simpl in Hret.
  unfold try_catch, lift_snd, bind, modify, throw in Hret. simpl in Hret.
  destruct (testState this (sp_plan_state testPlan) testContext w1)
    as [[[]|e|] w2] eqn:Hend; simpl in Hret; try discriminate.
  injection Hret as _ <-. exists w1. split; [exact Hpass | exact Hend].
Qed.

Lemma obj_get_fold_bump (id : string) (ids : list string) :
  forall counters,
    obj_get id (fold_left (fun c i => bump i c) ids counters) =
      match occurrences id ids with
      | 0 => obj_get id counters
      | S k => Some (default 0 (obj_get id counters) + S k)
      end.
Proof.
  unfold occurrences.
  induction ids as [|i ids IH]; intros counters; [reflexivity|].
  cbn [fold_left List.filter]. rewrite IH, obj_get_bump.
  destruct (String.eqb id i) eqn:E.
  - apply String.eqb_eq in E. subst i. cbn [length].
    destruct (length (List.filter (String.eqb id) ids)); simpl; f_equal; lia.
  - reflexivity.
Qed.

(** X15.  When the test of a compiled path returns, for an instance of the
    world, the counters of the instance have had one increment for each
    assertion along the path, in order: those of the state of each step and
    then those of the state of the plan.  So the counter of an id has grown
    by the number of times the id is asserted along the path (an id that had
    no counter counts from zero), the counter of any other id is as before,
    and running the same passing path again adds the same amounts again. *)
Theorem path_test_counts
    (this : TestModel) (testPlan : StatePlan) (path : StatePath)
    (testContext : TestContext) (w w' : World) (result : TestPathResult)
    (Halloc : coverage this < length (heap w))
    (Hret : path_test (compile_path this testPlan path) testContext w = (Ret result, w')) :
  let ids := asserted_ids path (sp_plan_state testPlan) in
  stateNodes (this_coverage this w')
  = fold_left (fun c id => bump id c) ids (stateNodes (this_coverage this w))
  /\ (forall id,
        counter this id w' =
          match occurrences id ids with
          | 0 => counter this id w
          | S k => Some (default 0 (counter this id w) + S k)
          end)
  /\ coverage this < length (heap w').
Proof.
  intros ids.
  destruct (test_path_returns this testPlan path testContext w w' result Hret)
    as [w1 [Hpass Hend]].
  destruct (steps_pass_coverage this testContext (sp_steps path) w w1 Halloc Hpass)
    as [Hsn1 Hlen1].
  assert (Halloc1 : coverage this < length (heap w1)) by lia.
  destruct (testState_returns_coverage this _ testContext w1 w' Halloc1 Hend)
    as [Hsn' Hlen'].
  assert (Hall : stateNodes (this_coverage this w')
                 = fold_left (fun c id => bump id c) ids
                     (stateNodes (this_coverage this w))).
  { unfold ids, asserted_ids. rewrite fold_left_app, <- Hsn1. exact Hsn'. }
  split; [exact Hall|]. split; [|lia].
  intros id. unfold counter. rewrite Hall. apply obj_get_fold_bump.
Qed.

(** ** getPlanFromEvents: what it returns *)

(** X16.  [getPlanFromEvents] passes on unchanged an error thrown by the
    replay of the events, and never returns [undefined]: a value it returns
    is a plan, for a replayed path whose state matches the target, with the
    state of that path and exactly one path. *)
Theorem getPlanFromEvents_outcomes
    (this : TestModel) (events : list EventObject) (target : StateValue) :
  (forall e,
      getPathFromEvents (machine this) events = Raise e ->
      getPlanFromEvents this events target = Raise e)
  /\ getPlanFromEvents this events target <> Ok None
  /\ (forall plan,
        getPlanFromEvents this events target = Ok (Some plan) ->
        exists path,
          getPathFromEvents (machine this) events = Ok path
          /\ matches (sp_state path) target = true
          /\ plan_state plan = sp_state path
          /\ length (plan_paths plan) = 1).
Proof.
  unfold getPlanFromEvents.
  destruct (getPathFromEvents (machine this) events) as [path|e0].
  - destruct (matches (sp_state path) target) eqn:Hm; simpl.
    + split; [discriminate|]. split; [discriminate|].
      intros plan [= <-]. exists path. auto.
    + split; [discriminate|]. split; [discriminate|]. discriminate.
  - split; [intros e [= ->]; reflexivity|]. split; discriminate.
Qed.

(** ** Sampled events have an executor entry *)

Lemma obj_get_spread_type (key : string) (sample : Obj Json) :
  "type" ∉ obj_keys sample ->
  obj_get "type" (obj_spread [("type", JStr key)] sample) = Some (JStr key).
Proof.
  intros Hnot. unfold obj_spread. rewrite obj_get_overlay.
  assert (Hnone : obj_get "type" (rev sample) = None).
  { apply obj_get_None_iff. unfold obj_keys. rewrite map_rev.
    intros Hin. apply Hnot. apply list_elem_of_In. apply in_rev.
    apply list_elem_of_In. exact Hin. }
  rewrite Hnone. reflexivity.
Qed.

(** X17.  When no case of the configuration has a [type] property of its
    own, every event [getEventSamples] gives has for type a key of the
    configuration, so that for an instance with this configuration
    [getEventExecutor] finds an entry for it and [executeEvent] writes no
    warning. *)
Theorem sampled_events_are_configured
    (this : TestModel) (testContext : TestContext)
    (Hcases : forall key exec cases sample,
        (key, EventConfig exec (Some cases)) ∈ events (options this) ->
        sample ∈ cases ->
        "type" ∉ obj_keys sample) :
  forall event,
    event ∈ getEventSamples (events (options this)) ->
    event_type event ∈ obj_keys (events (options this))
    /\ unconfigured this event = false
    /\ forall w, console (snd (executeEvent this event testContext w)) = console w.
Proof.
  intros event Hevent.
  assert (Hkey : event_type event ∈ obj_keys (events (options this))).
  { assert (Hall : getEventSamples (events (options this))
                   = flat_map (fun kc => samples_of_key (fst kc) (snd kc))
                       (events (options this)))
      by exact (getEventSamples_from (events (options this)) []).
    rewrite Hall in Hevent. apply list_elem_of_In, in_flat_map in Hevent.
    destruct Hevent as [[key c] [Hin Hsample]]. cbn [fst snd] in Hsample.
    assert (Hk : key ∈ obj_keys (events (options this))).
    { unfold obj_keys. apply list_elem_of_In, in_map_iff. exists (key, c). auto. }
    destruct c as [f|exec [cases|]]; cbn [samples_of_key] in Hsample.
    - destruct Hsample as [<-|[]]. exact Hk.
    - apply in_map_iff in Hsample. destruct Hsample as [sample [<- Hs]].
      unfold event_type.
      rewrite obj_get_spread_type; [exact Hk|].
      apply (Hcases key exec cases sample); apply list_elem_of_In; assumption.
    - destruct Hsample as [<-|[]]. exact Hk. }
  assert (Hconf : unconfigured this event = false).
  { unfold unconfigured.
    destruct (obj_get (event_type event) (events (options this))) eqn:Hget; [reflexivity|].
    apply obj_get_None_iff in Hget. contradiction. }
  split; [exact Hkey|]. split; [exact Hconf|].
  intros w. unfold unconfigured in Hconf.
  unfold executeEvent, getEventExecutor, bind.
  destruct (obj_get (event_type event) (events (options this)))
    as [[g|[g|] cases]|]; [| | |discriminate]; cbn [ret]; try reflexivity;
    unfold call_exec; destruct (run_exec g testContext event (sut w)); reflexivity.
Qed.

(** ** The warnings of a path *)

Lemma testState_console (this : TestModel) (state : State) (testContext : TestContext)
    (w : World) :
  console (snd (testState this state testContext w)) = console w.
Proof.
  rewrite testState_tested_entries.
  apply (Preserves_for_of_in (fun w => w) (fun w w' => console w' = console w)).
  - reflexivity.
  - intros w1 w2 w3 H1 H2. rewrite H2. exact H1.
  - intros [id f] _ w0. rewrite assert_entry_run. reflexivity.
Qed.

Lemma executeEvent_console (this : TestModel) (event : EventObject)
    (testContext : TestContext) (w : World) :
  console (snd (executeEvent this event testContext w)) =
    if missing_config this event then console w ++ [missing_config_warning event]
    else console w.
Proof.
  rewrite executeEvent_run. cbv zeta.
  destruct (found_executor this event) as [g|]; [|reflexivity].
  unfold call_exec. cbn [sut].
  destruct (run_exec g testContext event (sut w)); reflexivity.
Qed.

Lemma steps_pass_console (this : TestModel) (testContext : TestContext)
    (segments : list Segment) :
  forall w w1,
    steps_pass testContext (map (compile_step this) segments) w w1 ->
    console w1
    = console w ++ map missing_config_warning
                       (List.filter (missing_config this) (map seg_event segments)).
Proof.
  induction segments as [|segment segments IH]; intros w w1 Hpass.
  - inversion Hpass; subst. symmetry. apply app_nil_r.
  - rewrite map_cons in Hpass.
    inversion Hpass as [|step steps w0 wa wb wc Htest Hexec Hrest]; subst.
    cbn [compile_step step_test step_exec] in Htest, Hexec.
    pose proof (testState_console this (seg_state segment) testContext w) as Ha.
    rewrite Htest in Ha. cbn [snd] in Ha.
    pose proof (executeEvent_console this (seg_event segment) testContext wa) as Hb.
    rewrite Hexec in Hb. cbn [snd] in Hb.
    rewrite (IH wb w1 Hrest), Hb, Ha. cbn [map List.filter].
    destruct (missing_config this (seg_event segment)).
    + rewrite <- app_assoc. reflexivity.
    + reflexivity.
Qed.

Lemma extends_console_Respected (this : TestModel) : Respected this extends_console.
Proof.
  split.
  - intros w. exists []. symmetry. apply app_nil_r.
  - intros w1 w2 w3 [m1 H1] [m2 H2]. exists (m1 ++ m2).
    rewrite H2, H1. symmetry. apply app_assoc.
  - intros f testContext state w. unfold call_test.
    destruct (run_test f testContext state (sut w)).
    exists []. symmetry. apply app_nil_r.
  - intros f testContext event w. unfold call_exec.
    destruct (run_exec f testContext event (sut w)).
    exists []. symmetry. apply app_nil_r.
  - intros msg w. exists [msg]. reflexivity.
  - intros id w. exists []. symmetry. apply app_nil_r.
Qed.

(** X18.  The test of a compiled path never removes anything from the
    console, whatever its outcome.  When it returns, what it has written is
    one warning for each step whose event type is neither a key of the
    configuration of the instance nor a name that objects inherit, in the
    order of the steps, and nothing else. *)
Theorem path_test_warnings
    (this : TestModel) (testPlan : StatePlan) (path : StatePath)
    (testContext : TestContext) (w : World) :
  extends_console w (snd (path_test (compile_path this testPlan path) testContext w))
  /\ (forall result w',
        path_test (compile_path this testPlan path) testContext w = (Ret result, w') ->
        console w'
        = console w ++ map missing_config_warning
                           (List.filter (missing_config this)
                                        (map seg_event (sp_steps path)))).
Proof.
  split.
  - exact (test_path_Preserves this _ (extends_console_Respected this)
             testPlan path testContext w).
  - intros result w' Hret.
    destruct (test_path_returns this testPlan path testContext w w' result Hret)
      as [w1 [Hpass Hend]].
    pose proof (testState_console this (sp_plan_state testPlan) testContext w1) as Hc.
    rewrite Hend in Hc. cbn [snd] in Hc.
    rewrite Hc. exact (steps_pass_console this testContext (sp_steps path) w w1 Hpass).
Qed.

(** ** The description of a path *)

Lemma obj_get_rest {A : Type} (k k' : string) (o : Obj A) :
  obj_get k' (obj_rest k o) = if String.eqb k' k then None else obj_get k' o.
Proof.
  unfold obj_rest. induction o as [|[k0 v0] o IH]; simpl.
  - destruct (String.eqb k' k); reflexivity.
  - destruct (String.eqb k k0) eqn:E0; simpl.
    + apply String.eqb_eq in E0. subst k0. rewrite IH.
      destruct (String.eqb k' k); reflexivity.
    + rewrite IH. destruct (String.eqb k' k0) eqn:E1; [|reflexivity].
      apply String.eqb_eq in E1. subst k0.
      rewrite String.eqb_sym, E0. reflexivity.
Qed.

(** X19.  In the description of a path an event is shown by its type
    alone when it has no other property; otherwise the type is followed by
    the JSON text, in parentheses, of the event without its [type]: an
    object that has every other property of the event with its value and no
    [type].  The description of a path is [via] and these, joined by arrows;
    for a path without steps it is [via] and nothing. *)
Theorem path_description_events (this : TestModel) (testPlan : StatePlan)
    (path : StatePath) :
  path_description (compile_path this testPlan path)
  = "via " +++ join arrow (map (fun step => formatEvent (seg_event step)) (sp_steps path))
  /\ (sp_steps path = [] -> path_description (compile_path this testPlan path) = "via ")
  /\ (forall event : EventObject,
        (forall k, k ∈ obj_keys event -> k = "type") ->
        formatEvent event = event_type event)
  /\ (forall (event : EventObject) k,
        k ∈ obj_keys event -> k <> "type" ->
        formatEvent event
        = event_type event +++ " (" +++ JSON_stringify (JObj (obj_rest "type" event))
            +++ ")")
  /\ (forall (event : EventObject) k,
        obj_get k (obj_rest "type" event)
        = if String.eqb k "type" then None else obj_get k event).
Proof.
  split; [reflexivity|]. split; [intros Hnone; cbn; rewrite Hnone; reflexivity|].
  split; [|split].
  - intros event Honly. unfold formatEvent.
    assert (Hrest : obj_rest "type" event = []).
    { unfold obj_rest. induction event as [|[k0 v0] event IH]; [reflexivity|].
      cbn [List.filter fst].
      assert (Hk : k0 = "type").
      { apply Honly. apply elem_of_cons. left. reflexivity. }
      subst k0. change (fst ("type", v0)) with "type".
      rewrite String.eqb_refl. cbn [negb].
      apply IH. intros k Hk. apply Honly. apply elem_of_cons. right. exact Hk. }
    rewrite Hrest. cbv zeta.
    generalize (event_type event) as s. clear.
    induction s as [|c s IH]; [reflexivity|].
    change (String c (s +++ "") = String c s). f_equal. exact IH.
  - intros event k Hin Hne. unfold formatEvent.
    destruct (obj_rest "type" event) as [|kv rest] eqn:Hrest; [|reflexivity].
    exfalso.
    destruct (obj_get_own_key k event Hin) as [v Hv].
    pose proof (obj_get_rest "type" k event) as Hget.
    rewrite Hrest, Hv in Hget. apply String.eqb_neq in Hne. rewrite Hne in Hget.
    discriminate.
  - intros event k. apply obj_get_rest.
Qed.

(** ** A call that never settles *)

Lemma test_plan_hangs_after (testContext : TestContext)
    (before : list TestPath) (path : TestPath) (after : list TestPath)
    (w w1 w' : World) (segments : list (list Call)) :
  runs_in_sequence testContext before w segments (Ret tt, w1) ->
  path_test path testContext w1 = (Hang, w') ->
  test_plan (before ++ path :: after) testContext w = (Hang, w').
Proof.
  intros Hseq Hhang. revert w segments Hseq.
  induction before as [|q before IH]; intros w segments Hseq.
  - inversion Hseq; subst.
    unfold test_plan. cbn [app for_of]. unfold bind. rewrite Hhang. reflexivity.
  - inversion Hseq as [|q' qs w0 wa result cs segs res Hq Hcs Hrest| |]; subst.
    unfold test_plan. rewrite <- app_comm_cons. cbn [for_of].
    unfold bind at 1. unfold bind at 1. rewrite Hq.
    exact (IH wa segs Hrest).
Qed.

(** X20.  Nothing bounds the time an assertion or an executor takes.
    When, after the steps before it passed, the assertion or the executor of
    a step never settles, or when after all steps the assertion of the
    target never settles, the test of the path never settles: it returns no
    result, throws no error, and nothing of the path runs after that call.
    The test of a plan in turn never settles when the test of one of its
    paths does not, after the paths before it returned; it then runs no
    later path. *)
Theorem path_test_stalls
    (this : TestModel) (testPlan : StatePlan) (path : StatePath)
    (testContext : TestContext) (w : World) :
  let p := compile_path this testPlan path in
  (forall pre step post w1 w',
      path_steps p = pre ++ step :: post ->
      steps_pass testContext pre w w1 ->
      step_test step testContext w1 = (Hang, w') ->
      path_test p testContext w = (Hang, w'))
  /\ (forall pre step post w1 w2 w',
        path_steps p = pre ++ step :: post ->
        steps_pass testContext pre w w1 ->
        step_test step testContext w1 = (Ret tt, w2) ->
        step_exec step testContext w2 = (Hang, w') ->
        path_test p testContext w = (Hang, w'))
  /\ (forall w1 w',
        steps_pass testContext (path_steps p) w w1 ->
        testState this (sp_plan_state testPlan) testContext w1 = (Hang, w') ->
        path_test p testContext w = (Hang, w'))
  /\ (forall (before after : list StatePath) w1 w' segments,
        runs_in_sequence testContext (map (compile_path this testPlan) before) w
          segments (Ret tt, w1) ->
        path_test p testContext w1 = (Hang, w') ->
        test_plan (map (compile_path this testPlan) (before ++ path :: after))
          testContext w = (Hang, w')).
Proof.
  intros p.
  assert (Hrun : path_test p testContext w =
                 match test_path_body this (sp_plan_state testPlan) (path_steps p)
                         testContext (no_result, w) with
                 | (Ret _, (testPathResult, w')) => (Ret testPathResult, w')
                 | (Throw err, (testPathResult, w')) =>
                     (Throw (append_trace err (path_trace path testPathResult)), w')
                 | (Hang, (_, w')) => (Hang, w')
                 end) by reflexivity.
  split; [|split; [|split]].
  - intros pre step post w1 w' Hsteps Hpass Htest.
    rewrite Hrun, Hsteps.
    rewrite (test_path_body_step_fails this _ testContext pre step post w w1 Hpass), Htest.
    reflexivity.
  - intros pre step post w1 w2 w' Hsteps Hpass Htest Hexec.
    rewrite Hrun, Hsteps.
    rewrite (test_path_body_step_fails this _ testContext pre step post w w1 Hpass),
      Htest, Hexec.
    reflexivity.
  - intros w1 w' Hpass Hend.
    rewrite Hrun.
    rewrite (test_path_body_after_steps this _ testContext _ w w1 Hpass), Hend.
    reflexivity.
  - intros before after w1 w' segments Hseq Hhang.
    rewrite map_app, map_cons.
    exact (test_plan_hangs_after testContext _ p _ w w1 w' segments Hseq Hhang).
Qed.

(** ** An instance without event configuration *)

(** X21.  An instance created without options, or with options that have
    no [events] property, has the empty event configuration: it samples no
    event, so its shortest path plans are those the search finds without
    any event.  What it does with an event depends on what objects inherit
    under the type of the event: for a type that is no inherited name it
    writes the warning, calls nothing and returns; for the name of an
    inherited function it writes no warning and calls that function. *)
Theorem createModel_without_events
    (stateMachine : Machine) (opts : option PartialOptions) (w : World)
    (Hnone : forall eventMap, opts <> Some {| opt_events := Some eventMap |}) :
  exists this,
    fst (createModel stateMachine opts w) = Ret this
    /\ events (options this) = []
    /\ getEventSamples (events (options this)) = []
    /\ (forall o,
          getShortestPathPlans this o
          = getTestPlans this (getShortestPaths stateMachine [] o))
    /\ (forall event, found_executor this event = inherited_executor event)
    /\ (forall event testContext w1,
          Object_prototype (event_type event) = None ->
          executeEvent this event testContext w1
          = (Ret tt,
             {| sut := sut w1; heap := heap w1;
                console := console w1 ++ [missing_config_warning event];
                calls := calls w1 |}))
    /\ (forall event testContext w1 f,
          Object_prototype (event_type event) = Some (InheritedFunction f) ->
          executeEvent this event testContext w1 = call_exec f testContext event w1).
Proof.
  assert (Hoptions : spread_options opts = defaultOptions).
  { destruct opts as [[[eventMap|]]|]; try reflexivity.
    exfalso. exact (Hnone eventMap eq_refl). }
  eexists. split; [reflexivity|]. cbn [options machine]. rewrite Hoptions.
  split; [reflexivity|]. split; [reflexivity|]. split; [reflexivity|].
  split; [reflexivity|]. split.
  - intros event testContext w1 Hproto.
    unfold executeEvent, getEventExecutor, bind. cbn [options events defaultOptions obj_get].
    rewrite Hproto. reflexivity.
  - intros event testContext w1 f Hproto.
    unfold executeEvent, getEventExecutor, bind. cbn [options events defaultOptions obj_get].
    rewrite Hproto. reflexivity.
Qed.

(** ** What a plan counts, and the coverage check after it *)

Lemma path_test_returns_coverage (this : TestModel) (testPlan : StatePlan)
    (path : StatePath) (testContext : TestContext) (w w' : World)
    (result : TestPathResult) :
  coverage this < length (heap w) ->
  path_test (compile_path this testPlan path) testContext w = (Ret result, w') ->
  stateNodes (this_coverage this w')
  = fold_left (fun c id => bump id c) (asserted_ids path (sp_plan_state testPlan))
      (stateNodes (this_coverage this w))
  /\ length (heap w') = length (heap w).
Proof.
  intros Halloc Hret.
  destruct (test_path_returns this testPlan path testContext w w' result Hret)
    as [w1 [Hpass Hend]].
  destruct (steps_pass_coverage this testContext (sp_steps path) w w1 Halloc Hpass)
    as [Hsn1 Hlen1].
  assert (Halloc1 : coverage this < length (heap w1)) by lia.
  destruct (testState_returns_coverage this _ testContext w1 w' Halloc1 Hend)
    as [Hsn' Hlen'].
  split; [|lia].
  unfold asserted_ids. rewrite fold_left_app, <- Hsn1. exact Hsn'.
Qed.

Lemma test_plan_returns_coverage (this : TestModel) (testPlan : StatePlan)
    (testContext : TestContext) (paths : list StatePath) :
  forall w w',
    coverage this < length (heap w) ->
    test_plan (map (compile_path this testPlan) paths) testContext w = (Ret tt, w') ->
    stateNodes (this_coverage this w')
    = fold_left (fun c id => bump id c)
        (flat_map (fun path => asserted_ids path (sp_plan_state testPlan)) paths)
        (stateNodes (this_coverage this w))
    /\ length (heap w') = length (heap w).
Proof.
  induction paths as [|path paths IH]; intros w w' Halloc Hret.
  - injection Hret as <-. split; reflexivity.
  - rewrite map_cons in Hret. unfold test_plan in Hret. cbn [for_of] in Hret.
    unfold bind at 1 in Hret. unfold bind at 1 in Hret.
    destruct (path_test (compile_path this testPlan path) testContext w)
      as [[result|e|] w1] eqn:Hpath; try discriminate.
    cbn [ret] in Hret.
    destruct (path_test_returns_coverage this testPlan path testContext w w1 result
                Halloc Hpath) as [Hsn1 Hlen1].
    assert (Halloc1 : coverage this < length (heap w1)) by lia.
    destruct (IH w1 w' Halloc1 Hret) as [Hsn' Hlen'].
    split; [|lia].
    cbn [flat_map]. rewrite fold_left_app, <- Hsn1. exact Hsn'.
Qed.

Lemma occurrences_zero (id : string) (ids : list string) :
  occurrences id ids = 0 <-> id ∉ ids.
Proof.
  unfold occurrences. induction ids as [|i ids IH]; cbn [List.filter].
  - split; [intros _ H; inversion H | reflexivity].
  - destruct (String.eqb id i) eqn:E.
    + apply String.eqb_eq in E. subst i. cbn [length].
      split; [discriminate|]. intros H. exfalso. apply H. apply list_elem_of_here.
    + apply String.eqb_neq in E. rewrite IH. split.
      * intros H Hin. apply elem_of_cons in Hin. destruct Hin as [Hin|Hin];
          [exact (E Hin) | exact (H Hin)].
      * intros H Hin. apply H. apply list_elem_of_further. exact Hin.
Qed.

Lemma testCoverage_returns_iff (this : TestModel) (opts : option CoverageOptions)
    (w : World) :
  sound_counters w ->
  testCoverage this opts w = (Ret tt, w) <->
  forall id, has_id id (filteredStateNodes this opts) = true -> counter this id w <> None.
Proof.
  intros [Hd Hp].
  assert (Hzero : forall id,
             id ∈ zero_count_ids (coverage_report this opts w) <->
             has_id id (filteredStateNodes this opts) = true
             /\ counter this id w = None).
  { intros id. rewrite elem_of_zero_count_ids, (coverage_report_lookup this opts w id Hd).
    destruct (counter this id w) as [n|] eqn:Hn.
    - split; [|intros [_ H]; discriminate].
      intros [= ->]. pose proof (this_coverage_positive this w Hp id 0 Hn). lia.
    - destruct (has_id id (filteredStateNodes this opts)).
      + split; [intros _; split; reflexivity | reflexivity].
      + split; [discriminate | intros [H _]; discriminate]. }
  rewrite testCoverage_run.
  destruct (zero_count_ids (coverage_report this opts w)) as [|id0 ids] eqn:Hz.
  - split; [|reflexivity].
    intros _ id Hid Hnone.
    assert (Hin : id ∈ @nil string) by (apply Hzero; split; assumption).
    inversion Hin.
  - split; [discriminate|].
    intros Hall. exfalso.
    assert (H0 : has_id id0 (filteredStateNodes this opts) = true
                 /\ counter this id0 w = None).
    { apply Hzero. apply list_elem_of_here. }
    exact (Hall id0 (proj1 H0) (proj2 H0)).
Qed.

(** X22.  When the test of a plan of [getTestPlans] returns, for an instance
    of the world, the counters of the instance have had one increment for
    each assertion of each path of the plan, in order.  From sound counters,
    the coverage check of the instance then returns if and only if every
    state node the filter keeps either had a counter before or has its id
    asserted along one of the paths of the plan. *)
Theorem plan_test_counts
    (this : TestModel) (statePathsMap : StatePathsMap) (i : nat) (plan : TestPlan)
    (testContext : TestContext) (w w' : World)
    (Halloc : coverage this < length (heap w))
    (Hplan : getTestPlans this statePathsMap !! i = Some plan)
    (Hret : plan_test plan testContext w = (Ret tt, w')) :
  exists key testPlan,
    statePathsMap !! i = Some (key, testPlan)
    /\ let ids := flat_map (fun path => asserted_ids path (sp_plan_state testPlan))
                    (sp_plan_paths testPlan) in
       stateNodes (this_coverage this w')
       = fold_left (fun c id => bump id c) ids (stateNodes (this_coverage this w))
       /\ (forall id,
             counter this id w' =
               match occurrences id ids with
               | 0 => counter this id w
               | S k => Some (default 0 (counter this id w) + S k)
               end)
       /\ (sound_counters w ->
           forall opts,
             testCoverage this opts w' = (Ret tt, w') <->
             forall id,
               has_id id (filteredStateNodes this opts) = true ->
               counter this id w <> None \/ id ∈ ids).
Proof.
  unfold getTestPlans in Hplan. rewrite lookup_map in Hplan.
  unfold StatePathsMap, Obj in *.
  destruct (statePathsMap !! i) as [[key testPlan]|] eqn:Hentry;
    [|cbn [option_map] in Hplan; discriminate Hplan].
  cbn [option_map snd] in Hplan. injection Hplan as <-. cbn [plan_test] in Hret.
  exists key, testPlan. split; [reflexivity|].
  set (ids := flat_map (fun path => asserted_ids path (sp_plan_state testPlan))
                (sp_plan_paths testPlan)).
  destruct (test_plan_returns_coverage this testPlan testContext (sp_plan_paths testPlan)
              w w' Halloc Hret) as [Hall _].
  fold ids in Hall.
  assert (Hcount : forall id,
             counter this id w' =
               match occurrences id ids with
               | 0 => counter this id w
               | S k => Some (default 0 (counter this id w) + S k)
               end).
  { intros id. unfold counter. rewrite Hall. apply obj_get_fold_bump. }
  split; [exact Hall|]. split; [exact Hcount|].
  intros Hsound opts.
  assert (Hsound' : sound_counters w').
  { pose proof (test_plan_Preserves this _ testPlan (sp_plan_paths testPlan) testContext
                  (keeps_sound_counters_Respected this) w) as Hkeep.
    cbv beta in Hkeep. rewrite Hret in Hkeep. exact (Hkeep Hsound). }
  rewrite (testCoverage_returns_iff this opts w' Hsound').
  split.
  - intros Hcovered id Hid. specialize (Hcovered id Hid). rewrite Hcount in Hcovered.
    destruct (occurrences id ids) as [|k] eqn:Hocc.
    + left. exact Hcovered.
    + right. destruct (decide (id ∈ ids)) as [Hin|Hout]; [exact Hin|].
      apply occurrences_zero in Hout. rewrite Hout in Hocc. discriminate.
  - intros Hcovered id Hid. rewrite Hcount.
    destruct (occurrences id ids) as [|k] eqn:Hocc; [|discriminate].
    destruct (Hcovered id Hid) as [Hbefore|Hin]; [exact Hbefore|].
    exfalso. apply occurrences_zero in Hocc. exact (Hocc Hin).
Qed.

End TestModel.

(** * The toggle model

    The two-state machine of the package's documentation: [inactive] and
    [active], each with a state assertion, and the event [TOGGLE] between
    them.  The system under test is a checkbox. *)

Module Toggle.

Inductive machine_id : Type := toggleMachine.

(** The state assertions. *)
Inductive assertion : Type :=
| SeesInactive
| SeesActive.

(** The event executors, and the functions that an object inherits from
    [Object.prototype], by name. *)
Inductive action : Type :=
| Click
| Stuck
| Crash
| Abort
| Builtin (name : string).

(** No state of the machine has a description function. *)
Definition description_fn : Type := Empty_set.

(** The checkbox: whether it is checked. *)
Definition checkbox : Type := bool.

(** The test context: the page. *)
Definition page : Type := unit.

Definition ToggleState : Type := @State assertion description_fn.
Definition ToggleWorld : Type := @World checkbox page assertion action description_fn.
Definition ToggleModel : Type := @TestModel machine_id action.

(** Enough of [JSON.stringify] for the values of this machine: strings, and
    objects and arrays of them. *)
Fixpoint stringify (j : Json) : string :=
  match j with
  | JNull => "null"
  | JBool true => "true"
  | JBool false => "false"
  | JNum _ => "0"
  | JStr s => dquote +++ s +++ dquote
  | JArr l => "[" +++ join "," (map stringify l) +++ "]"
  | JObj o =>
      "{" +++ join "," (map (fun kv => dquote +++ fst kv +++ dquote +++ ":"
                                          +++ stringify (snd kv)) o) +++ "}"
  end.

(** In place of the escape codes of a terminal, the colour is written in
    brackets before the string. *)
Definition tagged (color str : string) : string := "[" +++ color +++ "]" +++ str.

Definition failed (expected : string) : Error :=
  {| name := "AssertionError"; message := "expected the checkbox to be " +++ expected |}.

Definition run_assertion (f : assertion) (_ : page) (_ : ToggleState) (checked : checkbox)
  : Outcome unit * checkbox :=
  match f, checked with
  | SeesInactive, false => (Ret tt, checked)
  | SeesInactive, true => (Throw (failed "unchecked"), checked)
  | SeesActive, true => (Ret tt, checked)
  | SeesActive, false => (Throw (failed "checked"), checked)
  end.

Definition run_action (f : action) (_ : page) (_ : EventObject) (checked : checkbox)
  : Outcome unit * checkbox :=
  match f with
  | Click => (Ret tt, negb checked)
  | Stuck => (Ret tt, checked)
  | Crash => (Throw {| name := "Error"; message := "the page crashed" |}, checked)
  | Abort => (Throw (ThrownPrimitive (PStr "aborted")), checked)
  | Builtin name =>
      if String.eqb name "toString" || String.eqb name "constructor"
      then (Ret tt, checked)
      else (Throw {| name := "TypeError";
                     message := "Cannot convert undefined or null to object" |},
            checked)
  end.

(** What the event configuration inherits from [Object.prototype].  Called
    as an executor is, without a receiver and with the page, an object, for
    first argument, [toString] and [constructor] return and the other
    functions throw a [TypeError]; [__proto__] is the prototype itself,
    which has no [exec]. *)
Definition inherited_functions : list string :=
  ["constructor"; "toString"; "toLocaleString"; "valueOf"; "hasOwnProperty";
   "isPrototypeOf"; "propertyIsEnumerable"; "__defineGetter__"; "__defineSetter__";
   "__lookupGetter__"; "__lookupSetter__"].

Definition Object_prototype (key : string) : option (@Inherited action) :=
  if existsb (String.eqb key) inherited_functions
  then Some (InheritedFunction (Builtin key))
  else if String.eqb key "__proto__" then Some (InheritedValue None)
  else None.

Definition run_description (f : description_fn) (_ : ToggleState) : string :=
  match f with end.

Definition inactive_node : StateNode := {| sn_id := "toggle.inactive"; sn_type := "atomic" |}.
Definition active_node : StateNode := {| sn_id := "toggle.active"; sn_type := "atomic" |}.

Definition inactive : ToggleState :=
  {| st_value := JStr "inactive";
     st_context := None;
     st_meta := [("toggle.inactive",
                  {| meta_test := Some SeesInactive; meta_description := None;
                     meta_skip := false |})];
     st_configuration := [inactive_node] |}.

Definition active : ToggleState :=
  {| st_value := JStr "active";
     st_context := None;
     st_meta := [("toggle.active",
                  {| meta_test := Some SeesActive; meta_description := None;
                     meta_skip := false |})];
     st_configuration := [active_node] |}.

Definition state_of (checked : bool) : ToggleState :=
  if checked then active else inactive.

Definition TOGGLE : EventObject := [("type", JStr "TOGGLE")].

(** [state.matches(value)] for the atomic states of this machine. *)
Definition matches (state : ToggleState) (value : StateValue) : bool :=
  match st_value state, value with
  | JStr a, JStr b => String.eqb a b
  | _, _ => false
  end.

Definition is_toggle (event : EventObject) : bool :=
  match obj_get "type" event with
  | Some (JStr t) => String.eqb t "TOGGLE"
  | _ => false
  end.

Definition initial_plan : @StatePlan assertion description_fn :=
  {| sp_plan_state := inactive;
     sp_plan_paths := [{| sp_state := inactive; sp_steps := []; sp_weight := 0 |}] |}.

Definition toggled_plan : @StatePlan assertion description_fn :=
  {| sp_plan_state := active;
     sp_plan_paths :=
       [{| sp_state := active;
           sp_steps := [{| seg_state := inactive; seg_event := TOGGLE |}];
           sp_weight := 1 |}] |}.

(** The shortest paths of the machine: [active] is reached only when
    [TOGGLE] is among the sampled events. *)
Definition getShortestPaths (_ : machine_id) (samples : list EventObject) (_ : option unit)
  : @StatePathsMap assertion description_fn :=
  if existsb is_toggle samples
  then [(stringify (JStr "inactive"), initial_plan);
        (stringify (JStr "active"), toggled_plan)]
  else [(stringify (JStr "inactive"), initial_plan)].

(** The replay of a sequence of events from the state [current]. *)
Fixpoint replay (current : bool) (events : list EventObject)
  : Result (list (@Segment assertion description_fn) * bool) :=
  match events with
  | [] => Ok ([], current)
  | event :: rest =>
      if is_toggle event then
        match replay (negb current) rest with
        | Ok (steps, final) =>
            Ok ({| seg_state := state_of current; seg_event := event |} :: steps, final)
        | Raise e => Raise e
        end
      else Raise {| name := "Error"; message := "Invalid transition" |}
  end.

Definition getPathFromEvents (_ : machine_id) (events : list EventObject)
  : Result (@StatePath assertion description_fn) :=
  match replay false events with
  | Ok (steps, final) =>
      Ok {| sp_state := state_of final; sp_steps := steps;
            sp_weight := Z.of_nat (length steps) |}
  | Raise e => Raise e
  end.

Definition getStateNodes (_ : machine_id) : list StateNode := [inactive_node; active_node].

(** [createModel(toggleMachine).withEvents({TOGGLE: {exec: click}})], from
    the world in which the checkbox is unchecked. *)
Definition toggle_events : @TestEventsConfig action :=
  [("TOGGLE", EventConfig (Some Click) None)].

Definition world0 : ToggleWorld :=
  {| sut := false; heap := []; console := []; calls := [] |}.

Definition created : Outcome ToggleModel * ToggleWorld :=
  (let* model0 := createModel toggleMachine None in
   withEvents model0 toggle_events) world0.

Definition model : ToggleModel :=
  {| machine := toggleMachine; options := {| events := toggle_events |}; coverage := 1 |}.

Definition world1 : ToggleWorld := snd created.

(** Two more instances of the same machine: one whose executor does not
    change the checkbox, one whose executor throws. *)
Definition stuck_model : ToggleModel :=
  {| machine := toggleMachine;
     options := {| events := [("TOGGLE", EventFn Stuck)] |};
     coverage := 2 |}.

Definition crashing_model : ToggleModel :=
  {| machine := toggleMachine;
     options := {| events := [("TOGGLE", EventConfig (Some Crash) None)] |};
     coverage := 3 |}.

Definition world3 : ToggleWorld :=
  snd ((withEvents model [("TOGGLE", EventFn Stuck)] ;;
        withEvents model [("TOGGLE", EventConfig (Some Crash) None)]) world1).




(** The shortest-path plans of the model, and the world after the test of
    each has run, one after the other. *)
Definition plans : list (@TestPlan checkbox page assertion action description_fn) :=
  getShortestPathPlans stringify stringify tagged run_assertion run_action
    run_description Object_prototype getShortestPaths model None.

Definition tested : ToggleWorld :=
  snd (for_of plans (fun plan => plan_test plan tt) world1).

(** The world in which the checkbox starts checked. *)
Definition checked_world : ToggleWorld :=
  {| sut := true; heap := heap world1; console := []; calls := [] |}.

(** [active] with its assertion marked [skip]. *)
Definition active_skipped : ToggleState :=
  {| st_value := JStr "active";
     st_context := None;
     st_meta := [("toggle.active",
                  {| meta_test := Some SeesActive; meta_description := None;
                     meta_skip := true |})];
     st_configuration := [active_node] |}.

Definition toggled_path : @StatePath assertion description_fn :=
  {| sp_state := active;
     sp_steps := [{| seg_state := inactive; seg_event := TOGGLE |}];
     sp_weight := 1 |}.

Definition RESET : EventObject := [("type", JStr "RESET")].

(** A configuration with a bare function, a record with two cases and a
    record without cases. *)
Definition sampled_events : @TestEventsConfig action :=
  [("TOGGLE", EventFn Click);
   ("SET", EventConfig None (Some [[("value", JStr "on")]; [("value", JStr "off")]]));
   ("RESET", EventConfig (Some Click) None)].

(** A filter that keeps the state node [inactive] only. *)
Definition only_inactive : CoverageOptions :=
  {| filter := Some (fun stateNode => String.eqb (sn_id stateNode) "toggle.inactive") |}.

(** The path to [active], compiled, and its one step. *)
Definition toggled_test_path : @TestPath checkbox page assertion action description_fn :=
  compile_path stringify stringify tagged run_assertion run_action run_description Object_prototype
    model toggled_plan toggled_path.

Definition toggled_step : @TestStep checkbox page assertion action description_fn :=
  compile_step stringify stringify run_assertion run_action run_description Object_prototype model
    {| seg_state := inactive; seg_event := TOGGLE |}.

(** An instance made without options: no event is configured. *)
Definition bare_model : ToggleModel :=
  {| machine := toggleMachine; options := defaultOptions; coverage := 0 |}.

(** An instance configured with [sampled_events]. *)
Definition sampled_model : ToggleModel :=
  {| machine := toggleMachine; options := {| events := sampled_events |}; coverage := 1 |}.

(** The plan that reaches [active] when its assertion is marked [skip]. *)
Definition skipped_plan : @StatePlan assertion description_fn :=
  {| sp_plan_state := active_skipped;
     sp_plan_paths :=
       [{| sp_state := active_skipped;
           sp_steps := [{| seg_state := inactive; seg_event := TOGGLE |}];
           sp_weight := 1 |}] |}.

Definition skipped_path : @StatePath assertion description_fn :=
  {| sp_state := active_skipped;
     sp_steps := [{| seg_state := inactive; seg_event := TOGGLE |}];
     sp_weight := 1 |}.

(** A page on which the executor [Stuck] never settles. *)
Definition run_slow_action (f : action) (testContext : page) (event : EventObject)
    (checked : checkbox) : Outcome unit * checkbox :=
  match f with
  | Stuck => (Hang, checked)
  | _ => run_action f testContext event checked
  end.

(** A search that returns, for [active], a plan without paths. *)
Definition pathless_search (_ : machine_id) (_ : list EventObject) (_ : option unit)
  : @StatePathsMap assertion description_fn :=
  [(stringify (JStr "inactive"), initial_plan);
   (stringify (JStr "active"), {| sp_plan_state := active; sp_plan_paths := [] |})].

(** An event with a property besides its type. *)
Definition SET_on : EventObject := [("type", JStr "SET"); ("value", JStr "on")].

(** The compiled plan that reaches [active]. *)
Definition toggled_test_plan : @TestPlan checkbox page assertion action description_fn :=
  {| plan_state := active;
     plan_paths := [toggled_test_path];
     plan_description := "reaches " +++ getDescription stringify run_description active;
     plan_test := test_plan [toggled_test_path] |}.

Example created_model : created = (Ret model, world1).
Proof. reflexivity. Qed.

Example plans_reach : map (fun plan => st_value (plan_state plan)) plans
                      = [JStr "inactive"; JStr "active"].
Proof. reflexivity. Qed.

Example tested_coverage :
  stateNodes (this_coverage model tested) = [("toggle.inactive", 2); ("toggle.active", 1)]
  /\ sut tested = true.
Proof. split; reflexivity. Qed.

(** C3, as the claim words it, fails: the filter excludes [toggle.active],
    a state node of the machine, and the result has it, with the count the
    instance recorded. *)
Lemma getCoverage_reports_excluded_id :
  has_id "toggle.active" (getStateNodes toggleMachine) = true
  /\ has_id "toggle.active" (filteredStateNodes getStateNodes model (Some only_inactive))
     = false
  /\ getCoverage getStateNodes model (Some only_inactive) tested
     = (Ret {| cov_stateNodes := [("toggle.inactive", 2); ("toggle.active", 1)] |}, tested).
Proof. split; [|split]; reflexivity. Qed.

Lemma getCoverage_overlays_counters_witness :
  NoDup (obj_keys (stateNodes (this_coverage model tested)))
  /\ exists coverage,
      getCoverage getStateNodes model (Some only_inactive) tested = (Ret coverage, tested)
      /\ obj_get "toggle.active" (cov_stateNodes coverage) = Some 1
      /\ obj_get "toggle.inactive" (cov_stateNodes coverage) = Some 2.
Proof.
  assert (Hmap : NoDup (obj_keys (stateNodes (this_coverage model tested)))).
  { apply (bool_decide_unpack _). vm_compute. reflexivity. }
  split; [exact Hmap|].
  destruct (getCoverage_overlays_counters getStateNodes model (Some only_inactive)
              tested Hmap) as [coverage [Hrun Hget]].
  exists coverage. split; [exact Hrun|].
  split; rewrite Hget; reflexivity.
Defined.

Lemma getEventSamples_spec_witness :
  getEventSamples sampled_events =
    [[("type", JStr "TOGGLE")];
     [("type", JStr "SET"); ("value", JStr "on")];
     [("type", JStr "SET"); ("value", JStr "off")];
     [("type", JStr "RESET")]]
  /\ [[("value", JStr "on")]; [("value", JStr "off")]] !! 1 = Some [("value", JStr "off")]
  /\ exists e,
      samples_of_key "SET"
        (@EventConfig action None
           (Some [[("value", JStr "on")]; [("value", JStr "off")]])) !! 1 = Some e
      /\ obj_get "type" e = Some (JStr "SET")
      /\ obj_get "value" e = Some (JStr "off").
Proof.
  destruct (@getEventSamples_spec action) as [Hall [_ [_ [_ Hcases]]]].
  assert (Hcase : [[("value", JStr "on")]; [("value", JStr "off")]] !! 1
                  = Some [("value", JStr "off")]) by reflexivity.
  split; [rewrite Hall; reflexivity|]. split; [exact Hcase|].
  destruct (proj2 (Hcases "SET" None [[("value", JStr "on")]; [("value", JStr "off")]])
              1 [("value", JStr "off")] Hcase) as [e [He Hget]].
  exists e. split; [exact He|]. split; rewrite Hget; reflexivity.
Defined.




Lemma getShortestPathPlansTo_minimal_witness :
  Forall (fun plan => plan_paths plan <> [])
    (filterPathsTo matches (TargetValue (JStr "active")) plans)
  /\ exists shortestPlans,
      getShortestPathPlansTo stringify stringify tagged run_assertion run_action
        run_description matches Object_prototype getShortestPaths model (TargetValue (JStr "active"))
      = Ok shortestPlans
      /\ map plan_weight shortestPlans = [1%Z]
      /\ forall p q,
          p ∈ shortestPlans -> q ∈ shortestPlans -> plan_weight p = plan_weight q.
Proof.
  assert (Hpaths : Forall (fun plan => plan_paths plan <> [])
                     (filterPathsTo matches (TargetValue (JStr "active")) plans)).
  { repeat constructor. simpl. discriminate. }
  split; [exact Hpaths|].
  destruct (getShortestPathPlansTo_minimal stringify stringify tagged run_assertion
              run_action run_description matches Object_prototype getShortestPaths model
              (TargetValue (JStr "active")) Hpaths)
    as [_ [shortestPlans [Hrun [Heq [_ Hsame]]]]].
  exists shortestPlans. split; [exact Hrun|]. split; [|exact Hsame].
  rewrite Heq. reflexivity.
Defined.

Lemma getPlanFromEvents_spec_witness :
  getPathFromEvents (machine model) [TOGGLE] = Ok toggled_path
  /\ (exists plan,
        getPlanFromEvents stringify stringify tagged run_assertion run_action
          run_description matches Object_prototype getPathFromEvents model [TOGGLE] (JStr "active")
        = Ok (Some plan)
        /\ plan_state plan = active
        /\ map path_weight (plan_paths plan) = [1%Z])
  /\ getPlanFromEvents stringify stringify tagged run_assertion run_action
       run_description matches Object_prototype getPathFromEvents model [TOGGLE] (JStr "inactive")
     = Raise {| name := "Error";
                message := "The last state " +++ dquote +++ "active" +++ dquote
                             +++ " does not match the target: "
                             +++ dquote +++ "inactive" +++ dquote |}.
Proof.
  assert (Hpath : getPathFromEvents (machine model) [TOGGLE] = Ok toggled_path)
    by reflexivity.
  split; [exact Hpath|]. split.
  - destruct (getPlanFromEvents_spec stringify stringify tagged run_assertion run_action
                run_description matches Object_prototype getPathFromEvents model [TOGGLE]
                (JStr "active") toggled_path Hpath) as [_ [_ Hmatch]].
    destruct (Hmatch eq_refl) as [plan [Hrun [_ [Hstate [p [Hp [_ [_ [Hw _]]]]]]]]].
    exists plan. split; [exact Hrun|]. split; [exact Hstate|].
    rewrite Hp. simpl. rewrite Hw. reflexivity.
  - destruct (getPlanFromEvents_spec stringify stringify tagged run_assertion run_action
                run_description matches Object_prototype getPathFromEvents model [TOGGLE]
                (JStr "inactive") toggled_path Hpath) as [_ [Hmismatch _]].
    exact (Hmismatch eq_refl).
Defined.

Lemma testState_spec_witness :
  (* the assertion of [inactive] on an unchecked checkbox: counted, called, passed *)
  (coverage model < length (heap world1)
   /\ let r := assert_entry run_assertion model inactive tt
                 ("toggle.inactive", SeesInactive) world1 in
      counter model "toggle.inactive" world1 = None
      /\ counter model "toggle.inactive" (snd r) = Some 1
      /\ calls (snd r) = calls world1 ++ [CallTest SeesInactive tt inactive]
      /\ fst r = Ret tt
      /\ testState run_assertion model inactive tt world1 = (Ret tt, snd r))
  (* on a checked checkbox: counted, called, and the rejection is that of [testState] *)
  /\ (coverage model < length (heap checked_world)
      /\ let r := assert_entry run_assertion model inactive tt
                    ("toggle.inactive", SeesInactive) checked_world in
         counter model "toggle.inactive" (snd r) = Some 1
         /\ fst r = Throw (failed "unchecked")
         /\ testState run_assertion model inactive tt checked_world
            = (Throw (failed "unchecked"), snd r))
  (* an entry marked [skip]: no count, no call *)
  /\ ((forall stateNodeMeta,
         ("toggle.active", stateNodeMeta) ∈ st_meta active_skipped ->
         meta_skip stateNodeMeta = true)
      /\ counter model "toggle.active"
           (snd (testState run_assertion model active_skipped tt world1))
         = counter model "toggle.active" world1
      /\ testState run_assertion model active_skipped tt world1 = (Ret tt, world1)).
Proof.
  assert (Halloc : coverage model < length (heap world1)) by (vm_compute; lia).
  assert (Halloc' : coverage model < length (heap checked_world)) by (vm_compute; lia).
  assert (Hskip : forall stateNodeMeta,
             ("toggle.active", stateNodeMeta) ∈ st_meta active_skipped ->
             meta_skip stateNodeMeta = true).
  { intros m Hm. apply list_elem_of_singleton in Hm. injection Hm as ->. reflexivity. }
  destruct (testState_spec run_assertion model inactive tt)
    as [Hloop [_ [Hcount [Hnext _]]]].
  destruct (testState_spec run_assertion model active_skipped tt)
    as [Hloop' [_ [_ [_ [Hskipped _]]]]].
  split; [|split].
  - split; [exact Halloc|]. intros r.
    destruct (Hcount "toggle.inactive" SeesInactive world1 Halloc)
      as [Hc [_ [Hcalls [Hfst _]]]].
    assert (Hret : fst r = Ret tt) by (unfold r; rewrite Hfst; reflexivity).
    split; [reflexivity|]. split; [exact Hc|]. split; [exact Hcalls|].
    split; [exact Hret|].
    rewrite Hloop.
    exact (proj1 (Hnext ("toggle.inactive", SeesInactive) [] world1) Hret).
  - split; [exact Halloc'|]. intros r.
    destruct (Hcount "toggle.inactive" SeesInactive checked_world Halloc')
      as [Hc [_ [_ [Hfst _]]]].
    assert (Hthrow : fst r = Throw (failed "unchecked"))
      by (unfold r; rewrite Hfst; reflexivity).
    split; [exact Hc|]. split; [exact Hthrow|].
    rewrite Hloop.
    exact (proj2 (Hnext ("toggle.inactive", SeesInactive) [] checked_world) _ Hthrow).
  - split; [exact Hskip|]. split; [exact (Hskipped "toggle.active" world1 Hskip)|].
    rewrite Hloop'. reflexivity.
Defined.

Lemma withEvents_new_instance_witness :
  let model0 : ToggleModel :=
    {| machine := toggleMachine; options := defaultOptions; coverage := 0 |} in
  let w := snd (createModel toggleMachine None world0) in
  coverage model0 < length (heap w)
  /\ exists m w',
      withEvents model0 toggle_events w = (Ret m, w')
      /\ machine m = toggleMachine
      /\ events (options m) = toggle_events
      /\ heap w' !! coverage m = Some empty_coverage
      /\ coverage m <> coverage model0
      /\ this_coverage model0 (snd (testState run_assertion m inactive tt w'))
         = this_coverage model0 w'
      /\ counter m "toggle.inactive" w' = None
      /\ counter m "toggle.inactive"
           (snd (assert_entry run_assertion m inactive tt
                   ("toggle.inactive", SeesInactive) w')) = Some 1
      /\ counter model0 "toggle.inactive"
           (snd (assert_entry run_assertion m inactive tt
                   ("toggle.inactive", SeesInactive) w'))
         = counter model0 "toggle.inactive" w.
Proof.
  intros model0 w.
  assert (Halloc : coverage model0 < length (heap w)) by (vm_compute; lia).
  split; [exact Halloc|].
  destruct (withEvents_new_instance stringify stringify tagged run_assertion run_action
              run_description Object_prototype getStateNodes model0 toggle_events w Halloc)
    as [m [w' [Hrun [Hmachine [Hevents [_ [Hheap [_ [Hne [_ [_ [_ [_ [_
         [Hlater [_ [_ Hcount]]]]]]]]]]]]]]]]].
  exists m, w'. split; [exact Hrun|]. split; [exact Hmachine|]. split; [exact Hevents|].
  split; [exact Hheap|]. split; [exact Hne|].
  split; [exact (proj1 (Hlater inactive tt w'))|].
  exact (Hcount inactive tt "toggle.inactive" SeesInactive).
Defined.



Lemma plan_test_sequential_witness :
  exists plan,
    plan ∈ getTestPlans stringify stringify tagged run_assertion run_action
             run_description Object_prototype model (getShortestPaths toggleMachine [TOGGLE] None)
    /\ st_value (plan_state plan) = JStr "active"
    /\ fst (plan_test plan tt world1) = Ret tt
    /\ exists segments,
        runs_in_sequence tt (plan_paths plan) world1 segments (plan_test plan tt world1)
        /\ calls (snd (plan_test plan tt world1)) = calls world1 ++ concat segments
        /\ length segments = 1.
Proof.
  eexists. split; [|split; [|split]].
  - simpl. apply list_elem_of_further. apply list_elem_of_here.
  - reflexivity.
  - reflexivity.
  - match goal with
    | |- exists segments, runs_in_sequence _ (plan_paths ?p) _ _ _ /\ _ =>
        destruct (plan_test_sequential stringify stringify tagged run_assertion
                    run_action run_description Object_prototype model
                    (getShortestPaths toggleMachine [TOGGLE] None) p tt world1
                    (list_elem_of_further _ _ _ (list_elem_of_here _ _)))
          as [segments [Hseq [Hcalls Hlen]]];
        exists segments; split; [exact Hseq|]; split; [exact Hcalls|];
        exact (Hlen eq_refl)
    end.
Defined.

Lemma executeEvent_calls_executor_witness :
  configured_executor stringify model TOGGLE = Some Click
  /\ executeEvent stringify run_action Object_prototype model TOGGLE tt world1
     = (Ret tt,
        {| sut := true; heap := heap world1; console := [];
           calls := [CallExec Click tt TOGGLE] |}).
Proof.
  assert (Hconfigured : configured_executor stringify model TOGGLE = Some Click)
    by reflexivity.
  split; [exact Hconfigured|].
  rewrite (proj2 (executeEvent_calls_executor stringify run_action Object_prototype model TOGGLE tt world1
                    Click Hconfigured)).
  reflexivity.
Defined.

Lemma executeEvent_frame_witness :
  (fst (executeEvent stringify run_action Object_prototype crashing_model TOGGLE tt world3)
     <> Ret tt
   /\ exists f,
       found_executor stringify Object_prototype crashing_model TOGGLE = Some f
       /\ fst (executeEvent stringify run_action Object_prototype crashing_model TOGGLE tt
                 world3)
          = fst (run_action f tt TOGGLE (sut world3)))
  /\ (obj_get (event_type stringify [("type", JStr "valueOf")]) (events (options model))
        = None
      /\ found_executor stringify Object_prototype model [("type", JStr "valueOf")]
         = Some (Builtin "valueOf")).
Proof.
  assert (Hfails : fst (executeEvent stringify run_action Object_prototype crashing_model
                          TOGGLE tt world3)
                   <> Ret tt) by (intros H; discriminate H).
  assert (Hnone : obj_get (event_type stringify [("type", JStr "valueOf")])
                    (events (options model)) = None) by reflexivity.
  split.
  - split; [exact Hfails|].
    pose proof (executeEvent_frame stringify run_action Object_prototype crashing_model
                  TOGGLE tt world3) as Hframe.
    cbv zeta in Hframe. destruct Hframe as [_ [_ [_ [_ [Hexec _]]]]].
    exact (Hexec Hfails).
  - split; [exact Hnone|].
    pose proof (executeEvent_frame stringify run_action Object_prototype model
                  [("type", JStr "valueOf")] tt world1) as Hframe.
    cbv zeta in Hframe. destruct Hframe as [_ [_ [_ [_ [_ [_ Hinherited]]]]]].
    rewrite (Hinherited Hnone). reflexivity.
Defined.

Lemma getShortestPathPlansTo_throws_witness :
  Exists (fun plan => plan_paths plan = [])
    (filterPathsTo matches (TargetValue (JStr "active"))
       (getShortestPathPlans stringify stringify tagged run_assertion run_action
          run_description Object_prototype pathless_search model None))
  /\ getShortestPathPlansTo stringify stringify tagged run_assertion run_action
       run_description matches Object_prototype pathless_search model (TargetValue (JStr "active"))
     = Raise (TypeError_undefined "weight").
Proof.
  assert (Hpathless : Exists (fun plan => plan_paths plan = [])
            (filterPathsTo matches (TargetValue (JStr "active"))
               (getShortestPathPlans stringify stringify tagged run_assertion run_action
                  run_description Object_prototype pathless_search model None))).
  { apply Exists_cons_hd. reflexivity. }
  split; [exact Hpathless|].
  pose proof (getShortestPathPlansTo_throws stringify stringify tagged run_assertion
                run_action run_description matches Object_prototype pathless_search model
                (TargetValue (JStr "active"))) as Hthrows.
  cbv zeta in Hthrows.
  exact (proj1 (proj1 Hthrows) Hpathless).
Defined.

Lemma getShortestPathPlansTo_nonempty_witness :
  length (filterPathsTo matches (TargetValue (JStr "active")) plans) = 1
  /\ Forall (fun plan => plan_paths plan <> [])
       (filterPathsTo matches (TargetValue (JStr "active")) plans)
  /\ exists shortestPlans,
      getShortestPathPlansTo stringify stringify tagged run_assertion run_action
        run_description matches Object_prototype getShortestPaths model
        (TargetValue (JStr "active"))
      = Ok shortestPlans
      /\ shortestPlans <> [].
Proof.
  assert (Hmatching : length (filterPathsTo matches (TargetValue (JStr "active")) plans) = 1)
    by reflexivity.
  assert (Hpaths : Forall (fun plan => plan_paths plan <> [])
                     (filterPathsTo matches (TargetValue (JStr "active")) plans)).
  { apply Forall_cons_2; [|apply Forall_nil_2]. intros H. discriminate H. }
  split; [exact Hmatching|]. split; [exact Hpaths|].
  destruct (getShortestPathPlansTo_nonempty stringify stringify tagged run_assertion
              run_action run_description matches Object_prototype getShortestPaths model
              (TargetValue (JStr "active")) Hpaths) as [shortestPlans [Hrun Hnone]].
  exists shortestPlans. split; [exact Hrun|].
  intros Hempty. apply Hnone in Hempty.
  unfold plans in Hmatching. rewrite Hempty in Hmatching. discriminate Hmatching.
Defined.


Lemma coverage_never_decreases_witness :
  counter model "toggle.inactive" tested = Some 2
  /\ exists n',
      counter model "toggle.inactive" (snd (path_test toggled_test_path tt tested))
      = Some n'
      /\ 2 <= n'.
Proof.
  assert (Hcounter : counter model "toggle.inactive" tested = Some 2) by reflexivity.
  split; [exact Hcounter|].
  destruct (coverage_never_decreases stringify stringify tagged run_assertion run_action
              run_description Object_prototype model) as [_ [_ [Hpath [_ [_ Hlater]]]]].
  exact (Hlater model "toggle.inactive" 2 tested _
           (Hpath toggled_plan toggled_path tt tested) Hcounter).
Defined.

Lemma sound_counters_invariant_witness :
  heap world0 = []
  /\ sound_counters (snd (createModel toggleMachine None world0))
  /\ sound_counters
       (snd (testState run_assertion bare_model inactive tt
               (snd (createModel toggleMachine None world0)))).
Proof.
  assert (Hempty : heap world0 = []) by reflexivity.
  destruct (sound_counters_invariant stringify stringify tagged run_assertion run_action
              run_description Object_prototype bare_model)
    as [Hstart [Hcreate [_ [Htest _]]]].
  split; [exact Hempty|].
  assert (Hcreated : sound_counters (snd (createModel toggleMachine None world0)))
    by exact (Hcreate toggleMachine None world0 (Hstart world0 Hempty)).
  split; [exact Hcreated|].
  exact (Htest inactive tt _ Hcreated).
Defined.

Lemma testCoverage_untested_witness :
  sound_counters world1
  /\ "toggle.active" ∈ zero_count_ids (coverage_report getStateNodes model None world1)
  /\ exists e, fst (testCoverage getStateNodes model None world1) = Throw e.
Proof.
  assert (Hsound : sound_counters world1).
  { split; repeat constructor; intros id n Hget; discriminate Hget. }
  destruct (testCoverage_untested getStateNodes model None world1 Hsound)
    as [Hids [Hthrow _]].
  split; [exact Hsound|]. split.
  - apply Hids. split; reflexivity.
  - apply Hthrow. exists "toggle.active". split; reflexivity.
Defined.

Lemma testState_initial_segment_witness :
  coverage model < length (heap checked_world)
  /\ exists k,
      0 < k <= 1
      /\ calls (snd (testState run_assertion model inactive tt checked_world))
         = calls checked_world
             ++ map (fun e => CallTest (snd e) tt inactive)
                  (firstn k (tested_entries inactive)).
Proof.
  assert (Halloc : coverage model < length (heap checked_world)) by (vm_compute; lia).
  split; [exact Halloc|].
  destruct (testState_initial_segment run_assertion model inactive tt checked_world Halloc)
    as [k [Hk Hrun]].
  cbv zeta in Hrun. destruct Hrun as [Hcalls [_ [_ [_ [_ Hfails]]]]].
  exists k. split; [|exact Hcalls].
  split; [|exact Hk].
  apply Hfails. intros H. discriminate H.
Defined.

Lemma path_test_counts_witness :
  coverage model < length (heap world1)
  /\ path_test toggled_test_path tt world1
     = (Ret {| tpr_steps := [passed toggled_step]; tpr_state_error := None |},
        snd (path_test toggled_test_path tt world1))
  /\ counter model "toggle.inactive" (snd (path_test toggled_test_path tt world1)) = Some 1
  /\ counter model "toggle.active" (snd (path_test toggled_test_path tt world1)) = Some 1
  /\ counter model "toggle" (snd (path_test toggled_test_path tt world1)) = None.
Proof.
  assert (Halloc : coverage model < length (heap world1)) by (vm_compute; lia).
  assert (Hret : path_test toggled_test_path tt world1
                 = (Ret {| tpr_steps := [passed toggled_step]; tpr_state_error := None |},
                    snd (path_test toggled_test_path tt world1))) by reflexivity.
  split; [exact Halloc|]. split; [exact Hret|].
  pose proof (path_test_counts stringify stringify tagged run_assertion run_action
                run_description Object_prototype model toggled_plan toggled_path tt world1 _ _
                Halloc Hret) as Hcounts.
  cbv zeta in Hcounts. destruct Hcounts as [_ [Hcount _]].
  split; [|split]; rewrite Hcount; reflexivity.
Defined.

Lemma getPlanFromEvents_outcomes_witness :
  getPathFromEvents (machine model) [RESET]
  = Raise {| name := "Error"; message := "Invalid transition" |}
  /\ getPlanFromEvents stringify stringify tagged run_assertion run_action
       run_description matches Object_prototype getPathFromEvents model [RESET] (JStr "active")
     = Raise {| name := "Error"; message := "Invalid transition" |}.
Proof.
  assert (Hreplay : getPathFromEvents (machine model) [RESET]
                    = Raise {| name := "Error"; message := "Invalid transition" |})
    by reflexivity.
  split; [exact Hreplay|].
  exact (proj1 (getPlanFromEvents_outcomes stringify stringify tagged run_assertion
                  run_action run_description matches Object_prototype getPathFromEvents model [RESET]
                  (JStr "active")) _ Hreplay).
Defined.

Lemma sampled_events_are_configured_witness :
  (forall key (exec : option action) cases sample,
      (key, EventConfig exec (Some cases)) ∈ events (options sampled_model) ->
      sample ∈ cases -> "type" ∉ obj_keys sample)
  /\ SET_on ∈ getEventSamples (events (options sampled_model))
  /\ unconfigured stringify sampled_model SET_on = false
  /\ console (snd (executeEvent stringify run_action Object_prototype sampled_model SET_on tt world1))
     = console world1.
Proof.
  assert (Hcases : forall key (exec : option action) cases sample,
             (key, EventConfig exec (Some cases)) ∈ events (options sampled_model) ->
             sample ∈ cases -> "type" ∉ obj_keys sample).
  { intros key exec cases sample Hin Hsample Htype.
    apply elem_of_cons in Hin. destruct Hin as [Hin|Hin]; [discriminate Hin|].
    apply elem_of_cons in Hin. destruct Hin as [Hin|Hin].
    - injection Hin as _ _ ->.
      apply elem_of_cons in Hsample. destruct Hsample as [->|Hsample].
      + apply list_elem_of_singleton in Htype. discriminate Htype.
      + apply list_elem_of_singleton in Hsample. subst sample.
        apply list_elem_of_singleton in Htype. discriminate Htype.
    - apply list_elem_of_singleton in Hin. discriminate Hin. }
  assert (Hsampled : SET_on ∈ getEventSamples (events (options sampled_model))).
  { apply list_elem_of_further. apply list_elem_of_here. }
  split; [exact Hcases|]. split; [exact Hsampled|].
  destruct (@sampled_events_are_configured checkbox page machine_id assertion action
              description_fn stringify run_action Object_prototype sampled_model tt Hcases
              SET_on Hsampled) as [_ [Hconfigured Hconsole]].
  split; [exact Hconfigured|]. exact (Hconsole world1).
Defined.

Lemma path_test_warnings_witness :
  let p := compile_path stringify stringify tagged run_assertion run_action
             run_description Object_prototype bare_model skipped_plan skipped_path in
  let step := compile_step stringify stringify run_assertion run_action run_description Object_prototype
                bare_model {| seg_state := inactive; seg_event := TOGGLE |} in
  path_test p tt world1
  = (Ret {| tpr_steps := [passed step]; tpr_state_error := None |},
     snd (path_test p tt world1))
  /\ console (snd (path_test p tt world1))
     = ["Missing config for event " +++ dquote +++ "TOGGLE" +++ dquote +++ "."].
Proof.
  intros p step.
  assert (Hret : path_test p tt world1
                 = (Ret {| tpr_steps := [passed step]; tpr_state_error := None |},
                    snd (path_test p tt world1))) by reflexivity.
  split; [exact Hret|].
  exact (proj2 (path_test_warnings stringify stringify tagged run_assertion run_action
                  run_description Object_prototype bare_model skipped_plan skipped_path tt world1)
           _ _ Hret).
Defined.

Lemma path_description_events_witness :
  (forall k, k ∈ obj_keys TOGGLE -> k = "type")
  /\ formatEvent stringify stringify TOGGLE = "TOGGLE"
  /\ formatEvent stringify stringify SET_on
     = "SET (" +++ stringify (JObj [("value", JStr "on")]) +++ ")".
Proof.
  assert (Honly : forall k, k ∈ obj_keys TOGGLE -> k = "type").
  { intros k Hk. apply list_elem_of_singleton in Hk. exact Hk. }
  destruct (path_description_events stringify stringify tagged run_assertion run_action
              run_description Object_prototype model toggled_plan toggled_path)
    as [_ [_ [Hbare [Hmore _]]]].
  split; [exact Honly|]. split.
  - rewrite (Hbare TOGGLE Honly). reflexivity.
  - rewrite (Hmore SET_on "value").
    + reflexivity.
    + apply list_elem_of_further. apply list_elem_of_here.
    + discriminate.
Defined.

Lemma path_test_stalls_witness :
  let p := compile_path stringify stringify tagged run_assertion run_slow_action
             run_description Object_prototype stuck_model toggled_plan toggled_path in
  exists step w2 w',
    path_steps p = [] ++ step :: []
    /\ step_test step tt world3 = (Ret tt, w2)
    /\ step_exec step tt w2 = (Hang, w')
    /\ path_test p tt world3 = (Hang, w').
Proof.
  intros p.
  pose proof (path_test_stalls stringify stringify tagged run_assertion run_slow_action
                run_description Object_prototype stuck_model toggled_plan toggled_path tt world3)
    as Hstalls.
  cbv zeta in Hstalls. destruct Hstalls as [_ [Hexec _]].
  eexists. eexists. eexists.
  assert (Hsteps : path_steps p
                   = [] ++ compile_step stringify stringify run_assertion run_slow_action
                             run_description Object_prototype stuck_model
                             {| seg_state := inactive; seg_event := TOGGLE |} :: [])
    by reflexivity.
  split; [exact Hsteps|]. split; [reflexivity|]. split; [reflexivity|].
  exact (Hexec [] _ [] world3 _ _ Hsteps (steps_pass_nil _ _) eq_refl eq_refl).
Defined.

Lemma createModel_without_events_witness :
  (forall eventMap : @TestEventsConfig action,
      (None : option PartialOptions) <> Some {| opt_events := Some eventMap |})
  /\ exists this : ToggleModel,
      fst (createModel toggleMachine None world0) = Ret this
      /\ getEventSamples (events (options this)) = []
      /\ Object_prototype (event_type stringify TOGGLE) = None
      /\ executeEvent stringify run_action Object_prototype this TOGGLE tt world1
         = (Ret tt,
            {| sut := false; heap := heap world1;
               console := ["Missing config for event " +++ dquote +++ "TOGGLE" +++ dquote
                             +++ "."];
               calls := [] |})
      /\ Object_prototype (event_type stringify [("type", JStr "toString")])
         = Some (InheritedFunction (Builtin "toString"))
      /\ executeEvent stringify run_action Object_prototype this
           [("type", JStr "toString")] tt world1
         = (Ret tt,
            {| sut := false; heap := heap world1; console := [];
               calls := [CallExec (Builtin "toString") tt [("type", JStr "toString")]] |}).
Proof.
  assert (Hnone : forall eventMap : @TestEventsConfig action,
             (None : option PartialOptions) <> Some {| opt_events := Some eventMap |})
    by (intros eventMap H; discriminate H).
  assert (Hmissing : Object_prototype (event_type stringify TOGGLE) = None)
    by reflexivity.
  assert (Hinherited : Object_prototype (event_type stringify [("type", JStr "toString")])
                       = Some (InheritedFunction (Builtin "toString"))) by reflexivity.
  split; [exact Hnone|].
  destruct (createModel_without_events stringify stringify tagged run_assertion run_action
              run_description Object_prototype getShortestPaths toggleMachine None world0 Hnone)
    as [this [Hthis [_ [Hsamples [_ [_ [Hwarns Hcalls]]]]]]].
  exists this. split; [exact Hthis|]. split; [exact Hsamples|].
  split; [exact Hmissing|].
  split; [rewrite (Hwarns TOGGLE tt world1 Hmissing); reflexivity|].
  split; [exact Hinherited|].
  rewrite (Hcalls _ tt world1 _ Hinherited). reflexivity.
Defined.

Lemma plan_test_counts_witness :
  coverage model < length (heap world1)
  /\ getTestPlans stringify stringify tagged run_assertion run_action run_description Object_prototype
       model (getShortestPaths toggleMachine [TOGGLE] None) !! 1
     = Some toggled_test_plan
  /\ plan_test toggled_test_plan tt world1
     = (Ret tt, snd (plan_test toggled_test_plan tt world1))
  /\ sound_counters world1
  /\ counter model "toggle.active" (snd (plan_test toggled_test_plan tt world1)) = Some 1
  /\ testCoverage getStateNodes model None (snd (plan_test toggled_test_plan tt world1))
     = (Ret tt, snd (plan_test toggled_test_plan tt world1)).
Proof.
  assert (Halloc : coverage model < length (heap world1)) by (vm_compute; lia).
  assert (Hplan : getTestPlans stringify stringify tagged run_assertion run_action
                    run_description Object_prototype model (getShortestPaths toggleMachine [TOGGLE] None)
                    !! 1
                  = Some toggled_test_plan) by reflexivity.
  assert (Hret : plan_test toggled_test_plan tt world1
                 = (Ret tt, snd (plan_test toggled_test_plan tt world1))) by reflexivity.
  assert (Hsound : sound_counters world1).
  { split; repeat constructor; intros id n Hget; discriminate Hget. }
  split; [exact Halloc|]. split; [exact Hplan|]. split; [exact Hret|].
  split; [exact Hsound|].
  destruct (plan_test_counts stringify stringify tagged run_assertion run_action
              run_description Object_prototype getStateNodes model
              (getShortestPaths toggleMachine [TOGGLE] None) 1 toggled_test_plan tt
              world1 _ Halloc Hplan Hret) as [key [testPlan [Hentry Hcounts]]].
  injection Hentry as <- <-. cbv zeta in Hcounts.
  destruct Hcounts as [_ [Hcount Hcheck]].
  split; [rewrite Hcount; reflexivity|].
  apply (Hcheck Hsound None).
  intros id Hid. right.
  cbn [has_id filteredStateNodes getStateNodes existsb machine model] in Hid.
  apply orb_prop in Hid. destruct Hid as [Hid|Hid].
  - apply String.eqb_eq in Hid. subst id. apply list_elem_of_here.
  - apply orb_prop in Hid. destruct Hid as [Hid|Hid]; [|discriminate Hid].
    apply String.eqb_eq in Hid. subst id.
    apply list_elem_of_further. apply list_elem_of_here.
Defined.

End Toggle.

(** * A model of [updateContext] (packages/core/src/updateContext.ts)

    The context is an object of values.  An assign action holds its
    assignment: a function that returns a partial update, or an object whose
    properties are functions or plain values.  The functions are handles:
    [run_assigner] and [run_property] give what a call returns together with
    the actors created by the calls of [meta.spawn] and [meta.spawn.from]
    made during the call, each with its name, in the order of the calls.  A
    call may change what lies outside (the registry that books ids, the
    behaviors it creates), and it returns, throws or does not return.  A
    function that returns gives an object, as its type says, and the
    functions call [meta.spawn] only while they run. *)

Module Assign.

Section UpdateContext.

Context {Value EventData SCXMLEvent MachineState Service ActorRef Outside : Type}.
(** Handles of the functions of the machine's configuration. *)
Context {Assigner PropertyAssigner : Type}.

(** [TContext] *)
Definition TContext : Type := Obj Value.

(** A property of a [PropertyAssigner] object: [isFunction(propAssignment)]
    or not. *)
Inductive PropertyAssignment : Type :=
| PropertyFunction (f : PropertyAssigner)
| PropertyValue (v : Value).

(** [assignAction.assignment]: [isFunction(assignment)] or not. *)
Inductive Assignment : Type :=
| AssignerFunction (f : Assigner)
| PropertyAssignerObject (props : Obj PropertyAssignment).

Record AssignAction : Type := { assignment : Assignment }.

(** [AssignMeta] without [spawn], which is not a datum but what lets a
    function create actors. *)
Record AssignMeta : Type := {
  meta_state : option MachineState;
  meta_action : AssignAction;
  meta__event : SCXMLEvent;
  meta_self : option Service
}.

(** [{type: ActionTypes.Invoke, src, id}] *)
Record InvokeActionObject : Type := { inv_src : ActorRef; inv_id : string }.

(** A call of a function of the configuration, with its arguments. *)
Inductive AssignCall : Type :=
| CallAssigner (f : Assigner) (context : TContext) (data : EventData) (meta : AssignMeta)
| CallProperty (f : PropertyAssigner) (context : TContext) (data : EventData)
    (meta : AssignMeta).

Record Env : Type := { outside : Outside; assign_calls : list AssignCall }.

(** [_event.data] *)
Variable event_data : SCXMLEvent -> EventData.

Variable run_assigner :
  Assigner -> TContext -> EventData -> AssignMeta -> Outside ->
  Outcome (TContext * list (ActorRef * string)) * Outside.
Variable run_property :
  PropertyAssigner -> TContext -> EventData -> AssignMeta -> Outside ->
  Outcome (Value * list (ActorRef * string)) * Outside.

(** What [spawner] pushes for the actor it has created under [name]. *)
Definition spawner (spawned : ActorRef * string) : InvokeActionObject :=
  {| inv_src := fst spawned; inv_id := snd spawned |}.

(** The state of the reduction: the local [capturedActions] and what is
    outside. *)
Definition Captured : Type := (list InvokeActionObject * Env)%type.

(** [assignment(acc, _event.data, meta)] *)
Definition call_assigner (f : Assigner) (acc : TContext) (_event : SCXMLEvent)
    (meta : AssignMeta) : M Captured TContext :=
  fun s =>
    match run_assigner f acc (event_data _event) meta (outside (snd s)) with
    | (r, o) =>
        let env := {| outside := o;
                      assign_calls := assign_calls (snd s)
                                        ++ [CallAssigner f acc (event_data _event) meta] |} in
        match r with
        | Ret (partialUpdate, spawned) =>
            (Ret partialUpdate, (fst s ++ map spawner spawned, env))
        | Throw e => (Throw e, (fst s, env))
        | Hang => (Hang, (fst s, env))
        end
    end.

(** [propAssignment(acc, _event.data, meta)] *)
Definition call_property (f : PropertyAssigner) (acc : TContext) (_event : SCXMLEvent)
    (meta : AssignMeta) : M Captured Value :=
  fun s =>
    match run_property f acc (event_data _event) meta (outside (snd s)) with
    | (r, o) =>
        let env := {| outside := o;
                      assign_calls := assign_calls (snd s)
                                        ++ [CallProperty f acc (event_data _event) meta] |} in
        match r with
        | Ret (v, spawned) => (Ret v, (fst s ++ map spawner spawned, env))
        | Throw e => (Throw e, (fst s, env))
        | Hang => (Hang, (fst s, env))
        end
    end.

(** The loop [for (const key of keys(assignment))], over the own properties
    of the assignment in order; [partialUpdate] is the object it fills. *)
Fixpoint assign_properties (props : Obj PropertyAssignment) (acc : TContext)
    (_event : SCXMLEvent) (meta : AssignMeta) (partialUpdate : TContext)
  : M Captured TContext :=
  match props with
  | [] => ret partialUpdate
  | (key, propAssignment) :: rest =>
      let* v := match propAssignment with
                | PropertyFunction f => call_property f acc _event meta
                | PropertyValue v => ret v
                end in
      assign_properties rest acc _event meta (obj_set key v partialUpdate)
  end.

(** The callback of [assignActions.reduce]. *)
Definition assign_step (_event : SCXMLEvent) (state : option MachineState)
    (service : option Service) (acc : TContext) (assignAction : AssignAction)
  : M Captured TContext :=
  let meta := {| meta_state := state; meta_action := assignAction;
                 meta__event := _event; meta_self := service |} in
  let* partialUpdate :=
    match assignment assignAction with
    | AssignerFunction f => call_assigner f acc _event meta
    | PropertyAssignerObject props => assign_properties props acc _event meta []
    end in
  (* Object.assign({}, acc, partialUpdate) *)
  ret (obj_spread (obj_spread [] acc) partialUpdate).

(** [assignActions.reduce(callback, context)] *)
Fixpoint reduce_assign (_event : SCXMLEvent) (state : option MachineState)
    (service : option Service) (assignActions : list AssignAction) (acc : TContext)
  : M Captured TContext :=
  match assignActions with
  | [] => ret acc
  | assignAction :: rest =>
      let* acc' := assign_step _event state service acc assignAction in
      reduce_assign _event state service rest acc'
  end.

(** [context] is [None] when it is [undefined]. *)
Definition updateContext (context : option TContext) (_event : SCXMLEvent)
    (assignActions : list AssignAction) (state : option MachineState)
    (service : option Service) : M Env (TContext * list InvokeActionObject) :=
  match context with
  | None =>
      throw {| name := "Error";
               message := "Cannot assign to undefined `context`. Ensure that `context` is defined in the machine config." |}
  | Some context =>
      fun env =>
        match reduce_assign _event state service assignActions context ([], env) with
        | (Ret updatedContext, (capturedActions, env')) =>
            (Ret (updatedContext, capturedActions), env')
        | (Throw e, (_, env')) => (Throw e, env')
        | (Hang, (_, env')) => (Hang, env')
        end
  end.

(** * Vocabulary of the properties *)

Unset Implicit Arguments.

(** An action that assigns the properties of [o], each a plain value. *)
Definition assign_values (o : Obj Value) : AssignAction :=
  {| assignment :=
       PropertyAssignerObject (map (fun kv => (fst kv, PropertyValue (snd kv))) o) |}.

(** The value the last of the objects that has [k] gives it. *)
Fixpoint last_assigned (k : string) (os : list (Obj Value)) : option Value :=
  match os with
  | [] => None
  | o :: rest =>
      match last_assigned k rest with
      | Some v => Some v
      | None => obj_get k (rev o)
      end
  end.

(** The functions among the properties of an assignment, in order. *)
Definition property_functions (props : Obj PropertyAssignment) : list PropertyAssigner :=
  flat_map (fun kp => match snd kp with
                      | PropertyFunction f => [f]
                      | PropertyValue _ => []
                      end) props.

(** [AssignMeta] of an action. *)
Definition meta_of (_event : SCXMLEvent) (state : option MachineState)
    (service : option Service) (assignAction : AssignAction) : AssignMeta :=
  {| meta_state := state; meta_action := assignAction;
     meta__event := _event; meta_self := service |}.

(** The other state of a computation that starts with [caps] captured:
    what it captures comes after. *)
Definition with_captured {A : Type} (caps : list InvokeActionObject)
    (r : Outcome A * Captured) : Outcome A * Captured :=
  (fst r, (caps ++ fst (snd r), snd (snd r))).

(** A computation that only pushes onto [capturedActions]. *)
Definition Appends {A : Type} (m : M Captured A) : Prop :=
  forall caps env, m (caps, env) = with_captured caps (m ([], env)).

(** * Properties *)

Lemma Appends_ret {A : Type} (a : A) : Appends (ret a).
Proof. intros caps env. unfold with_captured, ret. simpl. rewrite app_nil_r. reflexivity. Qed.

Lemma Appends_bind {A B : Type} (m : M Captured A) (k : A -> M Captured B) :
  Appends m -> (forall a, Appends (k a)) -> Appends (bind m k).
Proof.
  intros Hm Hk caps env. unfold bind. rewrite (Hm caps env).
  destruct (m ([], env)) as [[a|e|] [c env1]]; unfold with_captured; simpl.
  - rewrite (Hk a (caps ++ c) env1), (Hk a c env1). unfold with_captured. simpl.
    rewrite app_assoc. reflexivity.
  - reflexivity.
  - reflexivity.
Qed.

Lemma Appends_call_assigner (f : Assigner) (acc : TContext) (_event : SCXMLEvent)
    (meta : AssignMeta) :
  Appends (call_assigner f acc _event meta).
Proof.
  intros caps env. unfold call_assigner, with_captured. simpl.
  destruct (run_assigner f acc (event_data _event) meta (outside env))
    as [[[partialUpdate spawned]|e|] o]; simpl; rewrite ?app_nil_r; reflexivity.
Qed.

Lemma Appends_call_property (f : PropertyAssigner) (acc : TContext) (_event : SCXMLEvent)
    (meta : AssignMeta) :
  Appends (call_property f acc _event meta).
Proof.
  intros caps env. unfold call_property, with_captured. simpl.
  destruct (run_property f acc (event_data _event) meta (outside env))
    as [[[v spawned]|e|] o]; simpl; rewrite ?app_nil_r; reflexivity.
Qed.

Lemma Appends_assign_properties (props : Obj PropertyAssignment) (acc : TContext)
    (_event : SCXMLEvent) (meta : AssignMeta) :
  forall partialUpdate, Appends (assign_properties props acc _event meta partialUpdate).
Proof.
  induction props as [|[key propAssignment] props IH]; intros partialUpdate; simpl.
  - apply Appends_ret.
  - apply Appends_bind.
    + destruct propAssignment; [apply Appends_call_property | apply Appends_ret].
    + intros v. apply IH.
Qed.

Lemma Appends_assign_step (_event : SCXMLEvent) (state : option MachineState)
    (service : option Service) (acc : TContext) (assignAction : AssignAction) :
  Appends (assign_step _event state service acc assignAction).
Proof.
  unfold assign_step. apply Appends_bind.
  - destruct (assignment assignAction);
      [apply Appends_call_assigner | apply Appends_assign_properties].
  - intros partialUpdate. apply Appends_ret.
Qed.

Lemma Appends_reduce_assign (_event : SCXMLEvent) (state : option MachineState)
    (service : option Service) (assignActions : list AssignAction) :
  forall acc, Appends (reduce_assign _event state service assignActions acc).
Proof.
  induction assignActions as [|assignAction rest IH]; intros acc; simpl.
  - apply Appends_ret.
  - apply Appends_bind; [apply Appends_assign_step | exact IH].
Qed.

Lemma reduce_assign_app (_event : SCXMLEvent) (state : option MachineState)
    (service : option Service) (first second : list AssignAction) :
  forall acc s,
    reduce_assign _event state service (first ++ second) acc s =
    bind (reduce_assign _event state service first acc)
         (reduce_assign _event state service second) s.
Proof.
  induction first as [|assignAction first IH]; intros acc s; simpl.
  - reflexivity.
  - unfold bind.
    destruct (assign_step _event state service acc assignAction s) as [[acc'|e|] s'];
      [|reflexivity|reflexivity].
    rewrite IH. reflexivity.
Qed.

(** ** Actions in sequence *)

(** X23. Updating a context with a list of assign actions is updating it
    with the first part of the list and then updating the result with the
    rest: a later action is given the context the earlier ones made, the
    captured actions are those of the first part followed by those of the
    rest, and an error in the first part keeps the rest from running. *)
Theorem updateContext_app
    (context : TContext) (_event : SCXMLEvent) (first second : list AssignAction)
    (state : option MachineState) (service : option Service) (env : Env) :
  updateContext (Some context) _event (first ++ second) state service env =
    match updateContext (Some context) _event first state service env with
    | (Ret (context1, captured1), env1) =>
        match updateContext (Some context1) _event second state service env1 with
        | (Ret (context2, captured2), env2) =>
            (Ret (context2, captured1 ++ captured2), env2)
        | (Throw e, env2) => (Throw e, env2)
        | (Hang, env2) => (Hang, env2)
        end
    | (Throw e, env1) => (Throw e, env1)
    | (Hang, env1) => (Hang, env1)
    end.
Proof.
  unfold updateContext. rewrite reduce_assign_app. unfold bind.
  destruct (reduce_assign _event state service first context ([], env))
    as [[context1|e|] [captured1 env1]]; [|reflexivity|reflexivity].
  rewrite (Appends_reduce_assign _event state service second context1 captured1 env1).
  destruct (reduce_assign _event state service second context1 ([], env1))
    as [[context2|e|] [captured2 env2]]; reflexivity.
Qed.

(** ** Properties are never removed *)

Lemma obj_keys_spread {A : Type} (x : string) (b a : Obj A) :
  x ∈ obj_keys (obj_spread a b) <-> x ∈ obj_keys a \/ x ∈ obj_keys b.
Proof.
  unfold obj_spread. revert a. induction b as [|[k v] b IH]; intros a; simpl.
  - split; [intros H; left; exact H | intros [H|H]; [exact H | inversion H]].
  - rewrite IH, elem_of_obj_set_keys, elem_of_cons. simpl. split.
    + intros [[H|H]|H]; [right; left; exact H | left; exact H | right; right; exact H].
    + intros [H|[H|H]]; [left; right; exact H | left; left; exact H | right; exact H].
Qed.

Lemma assign_step_keeps_keys (_event : SCXMLEvent) (state : option MachineState)
    (service : option Service) (acc acc' : TContext) (assignAction : AssignAction)
    (s s' : Captured) :
  assign_step _event state service acc assignAction s = (Ret acc', s') ->
  forall k, k ∈ obj_keys acc -> k ∈ obj_keys acc'.
Proof.
  unfold assign_step, bind, ret. intros Hstep k Hk.
  assert (Hacc' : exists partialUpdate,
             acc' = obj_spread (obj_spread [] acc) partialUpdate).
  { destruct (assignment assignAction) as [f|props].
    - destruct (call_assigner f acc _event _ s) as [[partialUpdate|e|] s1];
        try discriminate.
      injection Hstep as <- _. exists partialUpdate. reflexivity.
    - destruct (assign_properties props acc _event _ [] s) as [[partialUpdate|e|] s1];
        try discriminate.
      injection Hstep as <- _. exists partialUpdate. reflexivity. }
  destruct Hacc' as [partialUpdate ->].
  apply obj_keys_spread. left. apply obj_keys_spread. right. exact Hk.
Qed.

Lemma reduce_assign_keeps_keys (_event : SCXMLEvent) (state : option MachineState)
    (service : option Service) (assignActions : list AssignAction) :
  forall acc acc' s s',
    reduce_assign _event state service assignActions acc s = (Ret acc', s') ->
    forall k, k ∈ obj_keys acc -> k ∈ obj_keys acc'.
Proof.
  induction assignActions as [|assignAction rest IH]; intros acc acc' s s' Hrun k Hk.
  - injection Hrun as <- _. exact Hk.
  - simpl in Hrun. unfold bind in Hrun.
    destruct (assign_step _event state service acc assignAction s)
      as [[acc1|e|] s1] eqn:Hstep; try discriminate.
    apply (IH acc1 acc' s1 s' Hrun).
    exact (assign_step_keeps_keys _event state service acc acc1 assignAction s s1 Hstep
             k Hk).
Qed.

(** X24. Without a context [updateContext] throws its error whatever the
    actions are, and calls none of their functions.  With a context and no
    action it returns the context as it is and no captured action.  And when
    it returns, whatever the actions did, every property of the context is
    still a property of the updated context: assigning never removes a
    property. *)
Theorem updateContext_keeps_properties
    (_event : SCXMLEvent) (assignActions : list AssignAction)
    (state : option MachineState) (service : option Service) (env : Env) :
  (exists e : Error,
      updateContext None _event assignActions state service env = (Throw e, env)
      /\ name e = "Error"
      /\ message e = "Cannot assign to undefined `context`. Ensure that `context` is defined in the machine config.")
  /\ (forall context,
        updateContext (Some context) _event [] state service env
        = (Ret (context, []), env))
  /\ (forall context updatedContext capturedActions env',
        updateContext (Some context) _event assignActions state service env
        = (Ret (updatedContext, capturedActions), env') ->
        forall k, k ∈ obj_keys context -> k ∈ obj_keys updatedContext).
Proof.
  split; [|split].
  - eexists. split; [reflexivity|]. split; reflexivity.
  - intros context. reflexivity.
  - intros context updatedContext capturedActions env' Hrun k Hk.
    unfold updateContext in Hrun.
    destruct (reduce_assign _event state service assignActions context ([], env))
      as [[acc'|e|] [captured env1]] eqn:Hreduce; try discriminate.
    injection Hrun as <- _ _.
    exact (reduce_assign_keeps_keys _event state service assignActions context acc'
             _ _ Hreduce k Hk).
Qed.

(** ** Assigning plain values *)

Lemma assign_properties_values (o : Obj Value) (acc : TContext) (_event : SCXMLEvent)
    (meta : AssignMeta) :
  forall partialUpdate s,
    assign_properties (map (fun kv => (fst kv, PropertyValue (snd kv))) o) acc _event meta
      partialUpdate s
    = (Ret (obj_spread partialUpdate o), s).
Proof.
  induction o as [|[k v] o IH]; intros partialUpdate s; simpl.
  - reflexivity.
  - unfold bind, ret. rewrite IH. reflexivity.
Qed.

Lemma obj_spread_empty_distinct_keys {A : Type} (o : Obj A) :
  NoDup (obj_keys (obj_spread [] o)).
Proof. apply overlay_distinct_keys. apply NoDup_nil_2. Qed.

Lemma obj_get_spread_empty {A : Type} (k : string) (o : Obj A) :
  obj_get k (obj_spread [] o) = obj_get k (rev o).
Proof.
  unfold obj_spread. rewrite obj_get_overlay.
  destruct (obj_get k (rev o)); reflexivity.
Qed.

Lemma obj_get_assign {A : Type} (k : string) (acc partialUpdate : Obj A) :
  NoDup (obj_keys acc) ->
  obj_get k (obj_spread (obj_spread [] acc) (obj_spread [] partialUpdate)) =
    match obj_get k (rev partialUpdate) with
    | Some v => Some v
    | None => obj_get k acc
    end.
Proof.
  intros Hacc. unfold obj_spread at 1. rewrite obj_get_overlay.
  rewrite (obj_get_rev k (obj_spread [] partialUpdate))
    by apply obj_spread_empty_distinct_keys.
  rewrite !obj_get_spread_empty, (obj_get_rev k acc Hacc). reflexivity.
Qed.

Lemma reduce_assign_values (_event : SCXMLEvent) (state : option MachineState)
    (service : option Service) (os : list (Obj Value)) :
  forall acc s,
    NoDup (obj_keys acc) ->
    exists acc',
      reduce_assign _event state service (map assign_values os) acc s = (Ret acc', s)
      /\ forall k, obj_get k acc' = match last_assigned k os with
                                    | Some v => Some v
                                    | None => obj_get k acc
                                    end.
Proof.
  induction os as [|o os IH]; intros acc s Hacc.
  - exists acc. split; reflexivity.
  - cbn [map reduce_assign]. unfold bind at 1. unfold assign_step at 1.
    cbn [assignment assign_values]. unfold bind at 1.
    rewrite assign_properties_values. cbn [ret].
    destruct (IH (obj_spread (obj_spread [] acc) (obj_spread [] o)) s) as [acc' [Hrun Hget]].
    { apply overlay_distinct_keys. apply obj_spread_empty_distinct_keys. }
    exists acc'. split; [exact Hrun|].
    intros k. rewrite Hget, (obj_get_assign k acc o Hacc). cbn [last_assigned].
    destruct (last_assigned k os); reflexivity.
Qed.

(** X25. Actions that assign plain values only always succeed, call no
    function and capture no action, and they leave what is outside as it
    was.  In the updated context a property has the value the last action
    that assigns it gave it, and the value it had in the context when no
    action assigns it. *)
Theorem updateContext_assign_values
    (context : TContext) (_event : SCXMLEvent) (os : list (Obj Value))
    (state : option MachineState) (service : option Service) (env : Env)
    (Hcontext : NoDup (obj_keys context)) :
  exists updatedContext,
    updateContext (Some context) _event (map assign_values os) state service env
    = (Ret (updatedContext, []), env)
    /\ forall k,
        obj_get k updatedContext = match last_assigned k os with
                                   | Some v => Some v
                                   | None => obj_get k context
                                   end.
Proof.
  destruct (reduce_assign_values _event state service os context ([], env) Hcontext)
    as [acc' [Hrun Hget]].
  exists acc'. split; [|exact Hget].
  unfold updateContext. rewrite Hrun. reflexivity.
Qed.

(** ** The context the functions of one action are given *)

Lemma assign_properties_keeps (props : Obj PropertyAssignment) (acc : TContext)
    (_event : SCXMLEvent) (meta : AssignMeta) :
  forall partialUpdate s updated,
    fst (assign_properties props acc _event meta partialUpdate s) = Ret updated ->
    forall k, k ∈ obj_keys partialUpdate -> k ∈ obj_keys updated.
Proof.
  induction props as [|[key propAssignment] props IH];
    intros partialUpdate s updated Hrun k Hk.
  - injection Hrun as <-. exact Hk.
  - cbn [assign_properties] in Hrun. unfold bind at 1 in Hrun.
    destruct (match propAssignment with
              | PropertyFunction f => call_property f acc _event meta
              | PropertyValue v => ret v
              end s) as [[v|e|] s1]; try discriminate.
    apply (IH _ _ _ Hrun). apply elem_of_obj_set_keys. right. exact Hk.
Qed.

Lemma assign_properties_function (key : string) (f : PropertyAssigner)
    (props : Obj PropertyAssignment) (acc : TContext) (_event : SCXMLEvent)
    (meta : AssignMeta) (partialUpdate : TContext) (s : Captured) :
  assign_properties ((key, PropertyFunction f) :: props) acc _event meta partialUpdate s =
    let env o := {| outside := o;
                    assign_calls := assign_calls (snd s)
                                      ++ [CallProperty f acc (event_data _event) meta] |} in
    match run_property f acc (event_data _event) meta (outside (snd s)) with
    | (Ret (v, spawned), o) =>
        assign_properties props acc _event meta (obj_set key v partialUpdate)
          (fst s ++ map spawner spawned, env o)
    | (Throw e, o) => (Throw e, (fst s, env o))
    | (Hang, o) => (Hang, (fst s, env o))
    end.
Proof.
  cbn [assign_properties]. unfold bind, call_property.
  destruct (run_property f acc (event_data _event) meta (outside (snd s)))
    as [[[v spawned]|e|] o]; reflexivity.
Qed.

Lemma assign_properties_calls (props : Obj PropertyAssignment) (acc : TContext)
    (_event : SCXMLEvent) (meta : AssignMeta) :
  forall partialUpdate s,
    let r := assign_properties props acc _event meta partialUpdate s in
    exists n,
      n <= length (property_functions props)
      /\ assign_calls (snd (snd r))
         = assign_calls (snd s)
             ++ map (fun f => CallProperty f acc (event_data _event) meta)
                  (firstn n (property_functions props))
      /\ (forall updated, fst r = Ret updated ->
            n = length (property_functions props)
            /\ forall k, k ∈ obj_keys props -> k ∈ obj_keys updated).
Proof.
  induction props as [|[key propAssignment] props IH]; intros partialUpdate s r.
  - exists 0. split; [reflexivity|]. split; [simpl; rewrite app_nil_r; reflexivity|].
    intros updated _. split; [reflexivity|]. intros k Hk. inversion Hk.
  - destruct propAssignment as [f|v].
    + subst r. rewrite assign_properties_function. cbv zeta.
      cbn [property_functions flat_map snd app]. fold (property_functions props).
      destruct (run_property f acc (event_data _event) meta (outside (snd s)))
        as [[[v spawned]|e|] o].
      * destruct (IH (obj_set key v partialUpdate)
                    (fst s ++ map spawner spawned,
                     {| outside := o;
                        assign_calls := assign_calls (snd s)
                          ++ [CallProperty f acc (event_data _event) meta] |}))
          as [n [Hn [Hcalls Hret]]].
        cbv zeta in Hcalls, Hret. cbn [snd assign_calls] in Hcalls.
        exists (S n). cbn [length firstn map].
        split; [lia|]. split.
        { rewrite Hcalls, <- app_assoc. reflexivity. }
        intros updated Hupdated. destruct (Hret updated Hupdated) as [Hall Hkeys].
        split; [lia|].
        intros k Hk. apply elem_of_cons in Hk. destruct Hk as [->|Hk];
          [|exact (Hkeys k Hk)].
        cbn [fst].
        exact (assign_properties_keeps props acc _event meta _ _ _ Hupdated key
                 (proj2 (elem_of_obj_set_keys key key v partialUpdate)
                    (or_introl eq_refl))).
      * exists 1. cbn [length firstn map snd assign_calls fst].
        split; [lia|]. split; [reflexivity|]. intros updated H. discriminate H.
      * exists 1. cbn [length firstn map snd assign_calls fst].
        split; [lia|]. split; [reflexivity|]. intros updated H. discriminate H.
    + subst r.
      change (assign_properties ((key, PropertyValue v) :: props) acc _event meta
                partialUpdate s)
        with (assign_properties props acc _event meta (obj_set key v partialUpdate) s).
      cbn [property_functions flat_map snd app]. fold (property_functions props).
      destruct (IH (obj_set key v partialUpdate) s) as [n [Hn [Hcalls Hret]]].
      cbv zeta in Hcalls, Hret.
      exists n. split; [exact Hn|]. split; [exact Hcalls|].
      intros updated Hupdated. destruct (Hret updated Hupdated) as [Hall Hkeys].
      split; [exact Hall|].
      intros k Hk. apply elem_of_cons in Hk. destruct Hk as [->|Hk];
        [|exact (Hkeys k Hk)].
      cbn [fst].
      exact (assign_properties_keeps props acc _event meta _ _ _ Hupdated key
               (proj2 (elem_of_obj_set_keys key key v partialUpdate)
                  (or_introl eq_refl))).
Qed.

(** X26. The functions among the properties of one assign action are all
    called with the context as it was before the action, whatever the
    properties before them gave, with the data of the event and the same
    meta: the calls are an initial segment, in order, of these functions.
    All of them are called when [updateContext] returns, and then every key
    of the assignment is a property of the updated context. *)
Theorem property_assigners_share_context
    (context : TContext) (_event : SCXMLEvent) (props : Obj PropertyAssignment)
    (state : option MachineState) (service : option Service) (env : Env) :
  let assignAction := {| assignment := PropertyAssignerObject props |} in
  let r := updateContext (Some context) _event [assignAction] state service env in
  exists n,
    n <= length (property_functions props)
    /\ assign_calls (snd r)
       = assign_calls env
           ++ map (fun f => CallProperty f context (event_data _event)
                              (meta_of _event state service assignAction))
                (firstn n (property_functions props))
    /\ (forall updatedContext capturedActions,
          fst r = Ret (updatedContext, capturedActions) ->
          n = length (property_functions props)
          /\ forall k, k ∈ obj_keys props -> k ∈ obj_keys updatedContext).
Proof.
  intros assignAction r.
  destruct (assign_properties_calls props context _event
              (meta_of _event state service assignAction) [] ([], env))
    as [n [Hn [Hcalls Hret]]].
  cbv zeta in Hcalls, Hret. cbn [snd] in Hcalls.
  assert (Hr : r = match assign_properties props context _event
                           (meta_of _event state service assignAction) [] ([], env) with
                   | (Ret partialUpdate, (capturedActions, env')) =>
                       (Ret (obj_spread (obj_spread [] context) partialUpdate,
                             capturedActions), env')
                   | (Throw e, (_, env')) => (Throw e, env')
                   | (Hang, (_, env')) => (Hang, env')
                   end).
  { subst r. unfold updateContext. cbn [reduce_assign]. unfold bind, assign_step, ret.
    cbn [assignment assignAction]. unfold bind, meta_of.
    destruct (assign_properties props context _event _ [] ([], env))
      as [[partialUpdate|e|] [capturedActions env']]; reflexivity. }
  exists n. split; [exact Hn|].
  destruct (assign_properties props context _event
              (meta_of _event state service assignAction) [] ([], env))
    as [[partialUpdate|e|] [captured env']] eqn:Hrun; rewrite Hr; cbn [fst snd] in *.
  - split; [exact Hcalls|].
    intros updatedContext capturedActions Hupdated. injection Hupdated as <- _.
    destruct (Hret partialUpdate eq_refl) as [Hall Hkeys].
    split; [exact Hall|].
    intros k Hk. apply obj_keys_spread. right. exact (Hkeys k Hk).
  - split; [exact Hcalls|]. intros updatedContext capturedActions H. discriminate H.
  - split; [exact Hcalls|]. intros updatedContext capturedActions H. discriminate H.
Qed.

End UpdateContext.

(** ** A counter

    The context [{count: 0}] of a machine that counts.  [Increment] is
    [(context) => ({count: context.count + 1})]; [Adopt] is
    [(context, event, {spawn}) => ({child: spawn(behavior, 'child')})];
    [Refuse] throws.  [Doubled] is the property function
    [(context) => context.count * 2]. *)

Inductive counter_assigner : Type := Increment | Adopt | Refuse.

Inductive counter_property : Type := Doubled.

Definition CounterMeta : Type :=
  @AssignMeta Json unit unit unit counter_assigner counter_property.

Definition CounterEnv : Type :=
  @Env Json unit unit unit unit unit counter_assigner counter_property.

Definition count_of (context : Obj Json) : Z :=
  match obj_get "count" context with
  | Some (JNum n) => n
  | _ => 0%Z
  end.

Definition run_counter_assigner (f : counter_assigner) (context : Obj Json) (_ : unit)
    (_ : CounterMeta) (o : unit) : Outcome (Obj Json * list (string * string)) * unit :=
  match f with
  | Increment => (Ret ([("count", JNum (count_of context + 1))], []), o)
  | Adopt => (Ret ([("child", JStr "child")], [("the child actor", "child")]), o)
  | Refuse => (Throw {| name := "Error"; message := "refused" |}, o)
  end.

Definition run_counter_property (f : counter_property) (context : Obj Json) (_ : unit)
    (_ : CounterMeta) (o : unit) : Outcome (Json * list (string * string)) * unit :=
  match f with
  | Doubled => (Ret (JNum (count_of context * 2), []), o)
  end.

Definition counter_data (_ : unit) : unit := tt.

Definition env0 : CounterEnv := {| outside := tt; assign_calls := [] |}.

Definition increment : @AssignAction Json counter_assigner counter_property :=
  {| assignment := AssignerFunction Increment |}.

Definition adopt : @AssignAction Json counter_assigner counter_property :=
  {| assignment := AssignerFunction Adopt |}.

(** [assign({count: (context) => context.count * 2,
             twice: (context) => context.count * 2})] *)
Definition doubled_twice : Obj (@PropertyAssignment Json counter_property) :=
  [("count", PropertyFunction Doubled); ("twice", PropertyFunction Doubled)].

Lemma updateContext_keeps_properties_witness :
  updateContext counter_data run_counter_assigner run_counter_property
    (Some [("count", JNum 0)]) tt [increment; adopt] None None env0
  = (Ret ([("count", JNum 1); ("child", JStr "child")],
          [{| inv_src := "the child actor"; inv_id := "child" |}]),
     {| outside := tt;
        assign_calls :=
          [CallAssigner Increment [("count", JNum 0)] tt
             {| meta_state := None; meta_action := increment; meta__event := tt;
                meta_self := None |};
           CallAssigner Adopt [("count", JNum 1)] tt
             {| meta_state := None; meta_action := adopt; meta__event := tt;
                meta_self := None |}] |})
  /\ "count" ∈ obj_keys [("count", JNum 1); ("child", JStr "child")].
Proof.
  assert (Hrun : updateContext counter_data run_counter_assigner run_counter_property
                   (Some [("count", JNum 0)]) tt [increment; adopt] None None env0
                 = (Ret ([("count", JNum 1); ("child", JStr "child")],
                         [{| inv_src := "the child actor"; inv_id := "child" |}]),
                    {| outside := tt;
                       assign_calls :=
                         [CallAssigner Increment [("count", JNum 0)] tt
                            {| meta_state := None; meta_action := increment;
                               meta__event := tt; meta_self := None |};
                          CallAssigner Adopt [("count", JNum 1)] tt
                            {| meta_state := None; meta_action := adopt;
                               meta__event := tt; meta_self := None |}] |}))
    by reflexivity.
  split; [exact Hrun|].
  destruct (updateContext_keeps_properties counter_data run_counter_assigner
              run_counter_property tt [increment; adopt] None None env0)
    as [_ [_ Hkept]].
  apply (Hkept _ _ _ _ Hrun "count"). apply list_elem_of_here.
Defined.

Lemma updateContext_assign_values_witness :
  NoDup (obj_keys [("count", JNum 0)])
  /\ exists updatedContext,
      updateContext counter_data run_counter_assigner run_counter_property
        (Some [("count", JNum 0)]) tt
        (map assign_values
           [[("count", JNum 5)]; [("user", JStr "ann")]; [("count", JNum 7)]])
        None None env0
      = (Ret (updatedContext, []), env0)
      /\ obj_get "count" updatedContext = Some (JNum 7)
      /\ obj_get "user" updatedContext = Some (JStr "ann")
      /\ obj_get "child" updatedContext = None.
Proof.
  assert (Hcontext : NoDup (obj_keys [("count", JNum 0)])) by apply NoDup_singleton.
  split; [exact Hcontext|].
  destruct (updateContext_assign_values counter_data run_counter_assigner
              run_counter_property [("count", JNum 0)] tt
              [[("count", JNum 5)]; [("user", JStr "ann")]; [("count", JNum 7)]]
              None None env0 Hcontext) as [updatedContext [Hrun Hget]].
  exists updatedContext. split; [exact Hrun|].
  split; [|split]; rewrite Hget; reflexivity.
Defined.

Lemma property_assigners_share_context_witness :
  let context := [("count", JNum 3)] in
  let assignAction := {| assignment := PropertyAssignerObject doubled_twice |} in
  let r := updateContext counter_data run_counter_assigner run_counter_property
             (Some context) tt [assignAction] None None env0 in
  fst r = Ret ([("count", JNum 6); ("twice", JNum 6)], [])
  /\ assign_calls (snd r)
     = [CallProperty Doubled context tt (meta_of tt None None assignAction);
        CallProperty Doubled context tt (meta_of tt None None assignAction)].
Proof.
  intros context assignAction r.
  assert (Hret : fst r = Ret ([("count", JNum 6); ("twice", JNum 6)], []))
    by reflexivity.
  split; [exact Hret|].
  destruct (property_assigners_share_context counter_data run_counter_assigner
              run_counter_property context tt doubled_twice None None env0)
    as [n [_ [Hcalls Hall]]].
  cbv zeta in Hcalls, Hall.
  destruct (Hall _ _ Hret) as [-> _].
  etransitivity; [exact Hcalls | reflexivity].
Defined.

End Assign.

(** * A model of the registry of services ([window.__xstate__], the
      inspector) and of packages/core/src/devTools.ts

    [services] and [serviceListeners] are JavaScript [Set]s: lists in
    insertion order in which no element is twice.  A [Set] compares objects
    by identity, so services and listeners are handles with a decidable
    equality.  [run_listener] gives what a call of a listener does outside
    the registry and how it settles.  The listeners modelled are those that
    leave the registry alone while they run: they do not call [register] or
    [onRegister], do not unsubscribe, and do not change the set that
    [window.__xstate__.services] exposes.  The calls of listeners are
    recorded in [notified]. *)

Module Inspector.

Section Registry.

Context {Service Listener Outside : Type}.
Context `{EqDecision Service} `{EqDecision Listener}.

Variable run_listener : Listener -> Service -> Outside -> Outcome unit * Outside.

(** [set.has(x)], [set.add(x)] and [set.delete(x)] *)
Definition set_has {A : Type} `{EqDecision A} (x : A) (s : list A) : bool :=
  existsb (fun y => bool_decide (x = y)) s.

Definition set_add {A : Type} `{EqDecision A} (x : A) (s : list A) : list A :=
  if set_has x s then s else s ++ [x].

Definition set_delete {A : Type} `{EqDecision A} (x : A) (s : list A) : list A :=
  List.filter (fun y => negb (bool_decide (x = y))) s.

Record Page : Type := {
  services : list Service;
  serviceListeners : list Listener;
  outside : Outside;
  notified : list (Listener * Service)
}.

(** [listener(service)] *)
Definition call_listener (listener : Listener) (service : Service) : M Page unit :=
  fun p =>
    match run_listener listener service (outside p) with
    | (r, o) =>
        (r, {| services := services p; serviceListeners := serviceListeners p;
               outside := o; notified := notified p ++ [(listener, service)] |})
    end.

(** [window.__xstate__.register] *)
Definition register (service : Service) : M Page unit :=
  modify (fun p => {| services := set_add service (services p);
                      serviceListeners := serviceListeners p;
                      outside := outside p; notified := notified p |}) ;;
  let* listeners := gets serviceListeners in
  for_of listeners (fun listener => call_listener listener service).

(** What [onRegister] returns: [{unsubscribe}], closed over the listener. *)
Record Subscription : Type := { subscribed : Listener }.

(** [window.__xstate__.onRegister] *)
Definition onRegister (listener : Listener) : M Page Subscription :=
  modify (fun p => {| services := services p;
                      serviceListeners := set_add listener (serviceListeners p);
                      outside := outside p; notified := notified p |}) ;;
  let* registered := gets services in
  for_of registered (fun service => call_listener listener service) ;;
  ret {| subscribed := listener |}.

Definition unsubscribe (subscription : Subscription) : M Page unit :=
  modify (fun p => {| services := services p;
                      serviceListeners :=
                        set_delete (subscribed subscription) (serviceListeners p);
                      outside := outside p; notified := notified p |}).

(** ** devTools.ts *)

(** The object at [globalThis.__xstate__], as core uses it: a method it
    calls is there or is not. *)
Record DevInterface : Type := {
  dev_register : option (Service -> M Page unit);
  dev_unregister : option (Service -> M Page unit)
}.

(** What devTools.ts reads of its environment: [IS_PRODUCTION], whether
    [typeof window] is not ['undefined'], and [globalThis.__xstate__]. *)
Record Globals : Type := {
  IS_PRODUCTION : bool;
  window_defined : bool;
  xstate_global : option DevInterface
}.

Definition getDevTools (g : Globals) : option DevInterface := xstate_global g.

(** [object.method(service)]: calling what is not there throws a
    [TypeError], whose message depends on the engine. *)
Definition call_method (method : string) (f : option (Service -> M Page unit))
    (service : Service) : M Page unit :=
  match f with
  | Some f => f service
  | None => throw {| name := "TypeError";
                     message := "devTools." +++ method +++ " is not a function" |}
  end.

Definition registerService (g : Globals) (service : Service) : M Page unit :=
  if IS_PRODUCTION g || negb (window_defined g) then ret tt
  else
    match getDevTools g with
    | Some devTools => call_method "register" (dev_register devTools) service
    | None => ret tt
    end.

Definition unregisterService (g : Globals) (service : Service) : M Page unit :=
  match getDevTools g with
  | Some devTools => call_method "unregister" (dev_unregister devTools) service
  | None => ret tt
  end.

(** The object the inspector installs, as core sees it: it has [register]
    and no [unregister]. *)
Definition inspector_devtools : DevInterface :=
  {| dev_register := Some register; dev_unregister := None |}.

(** * Vocabulary of the properties *)

Unset Implicit Arguments.

(** Both sets hold no element twice. *)
Definition well_formed (p : Page) : Prop :=
  NoDup (services p) /\ NoDup (serviceListeners p).

(** The services of [p] are still registered in [p'], in the same order and
    before any other. *)
Definition keeps_services (p p' : Page) : Prop :=
  exists more, services p' = services p ++ more.

(** The calls of listeners made from [p] to [p']. *)
Definition notifies (p p' : Page) (calls : list (Listener * Service)) : Prop :=
  notified p' = notified p ++ calls.

(** * Properties *)

Lemma set_has_elem_of {A : Type} `{EqDecision A} (x : A) (s : list A) :
  set_has x s = true <-> x ∈ s.
Proof.
  unfold set_has. induction s as [|y s IH]; simpl.
  - split; [discriminate | intros Hin; inversion Hin].
  - rewrite orb_true_iff, IH, elem_of_cons, bool_decide_eq_true. reflexivity.
Qed.

Lemma elem_of_set_add {A : Type} `{EqDecision A} (x y : A) (s : list A) :
  y ∈ set_add x s <-> y = x \/ y ∈ s.
Proof.
  unfold set_add. destruct (set_has x s) eqn:Hhas.
  - apply set_has_elem_of in Hhas. split; [intros Hin; right; exact Hin|].
    intros [->|Hin]; [exact Hhas | exact Hin].
  - rewrite elem_of_app, list_elem_of_singleton. split; intros [Hin|Hin]; auto.
Qed.

Lemma set_add_present {A : Type} `{EqDecision A} (x : A) (s : list A) :
  x ∈ s -> set_add x s = s.
Proof.
  intros Hin. unfold set_add. apply set_has_elem_of in Hin. rewrite Hin. reflexivity.
Qed.

Lemma set_add_absent {A : Type} `{EqDecision A} (x : A) (s : list A) :
  x ∉ s -> set_add x s = s ++ [x].
Proof.
  intros Hout. unfold set_add. destruct (set_has x s) eqn:Hhas; [|reflexivity].
  apply set_has_elem_of in Hhas. contradiction.
Qed.

Lemma set_add_extends {A : Type} `{EqDecision A} (x : A) (s : list A) :
  exists more, set_add x s = s ++ more.
Proof.
  unfold set_add. destruct (set_has x s).
  - exists []. rewrite app_nil_r. reflexivity.
  - exists [x]. reflexivity.
Qed.

Lemma set_add_NoDup {A : Type} `{EqDecision A} (x : A) (s : list A) :
  NoDup s -> NoDup (set_add x s).
Proof.
  intros Hs. unfold set_add. destruct (set_has x s) eqn:Hhas; [exact Hs|].
  apply NoDup_app. split; [exact Hs|]. split; [|apply NoDup_singleton].
  intros y Hy Hx. apply list_elem_of_singleton in Hx. subst y.
  apply set_has_elem_of in Hy. rewrite Hy in Hhas. discriminate.
Qed.

Lemma elem_of_set_delete {A : Type} `{EqDecision A} (x y : A) (s : list A) :
  y ∈ set_delete x s <-> y <> x /\ y ∈ s.
Proof.
  unfold set_delete. rewrite list_elem_of_In, filter_In, <- list_elem_of_In.
  rewrite negb_true_iff, bool_decide_eq_false. split.
  - intros [Hin Hne]. split; [intros ->; apply Hne; reflexivity | exact Hin].
  - intros [Hne Hin]. split; [exact Hin | intros ->; apply Hne; reflexivity].
Qed.

Lemma set_delete_NoDup {A : Type} `{EqDecision A} (x : A) (s : list A) :
  NoDup s -> NoDup (set_delete x s).
Proof.
  intros Hs. unfold set_delete. induction Hs as [|y s Hy Hs IH]; simpl.
  - apply NoDup_nil_2.
  - destruct (negb (bool_decide (x = y))); [|exact IH].
    constructor; [|exact IH].
    rewrite list_elem_of_In, filter_In, <- list_elem_of_In. intros [Hin _]. exact (Hy Hin).
Qed.

Lemma set_delete_absent {A : Type} `{EqDecision A} (x : A) (s : list A) :
  x ∉ s -> set_delete x s = s.
Proof.
  unfold set_delete. induction s as [|y s IH]; intros Hout; simpl; [reflexivity|].
  apply not_elem_of_cons in Hout. destruct Hout as [Hne Hout].
  rewrite bool_decide_eq_false_2 by exact Hne. simpl. rewrite (IH Hout). reflexivity.
Qed.

(** Adding an element to the set and deleting it again. *)
Lemma set_delete_add {A : Type} `{EqDecision A} (x : A) (s : list A) :
  set_delete x (set_add x s) = set_delete x s.
Proof.
  unfold set_add. destruct (set_has x s); [reflexivity|].
  unfold set_delete. rewrite List.filter_app. simpl.
  rewrite bool_decide_eq_true_2 by reflexivity. simpl. apply app_nil_r.
Qed.

Lemma for_of_call_listener_cons {X : Type} (f : X -> Listener * Service) (x : X)
    (xs : list X) (p : Page) :
  for_of (x :: xs) (fun x => call_listener (fst (f x)) (snd (f x))) p =
    let called o := {| services := services p; serviceListeners := serviceListeners p;
                       outside := o; notified := notified p ++ [f x] |} in
    match run_listener (fst (f x)) (snd (f x)) (outside p) with
    | (Ret _, o) =>
        for_of xs (fun x => call_listener (fst (f x)) (snd (f x))) (called o)
    | (Throw e, o) => (Throw e, called o)
    | (Hang, o) => (Hang, called o)
    end.
Proof.
  cbn [for_of]. unfold bind, call_listener. destruct (f x) as [listener service].
  cbn [fst snd].
  destruct (run_listener listener service (outside p)) as [[[]|e|] o]; reflexivity.
Qed.

(** A loop of calls of listeners: the sets are as before, and the calls made
    are an initial segment of the calls of the loop. *)
Lemma for_of_call_listener {X : Type} (f : X -> Listener * Service) (xs : list X) :
  forall p,
    let r := for_of xs (fun x => call_listener (fst (f x)) (snd (f x))) p in
    services (snd r) = services p
    /\ serviceListeners (snd r) = serviceListeners p
    /\ exists n,
        n <= length xs
        /\ notified (snd r) = notified p ++ map f (firstn n xs)
        /\ (fst r = Ret tt -> n = length xs)
        /\ (fst r <> Ret tt -> 0 < n).
Proof.
  induction xs as [|x xs IH]; intros p r.
  - split; [reflexivity|]. split; [reflexivity|]. exists 0.
    split; [reflexivity|]. split; [simpl; rewrite app_nil_r; reflexivity|].
    split; [reflexivity|]. intros Hne. exfalso. apply Hne. reflexivity.
  - subst r. rewrite for_of_call_listener_cons. cbv zeta.
    destruct (run_listener (fst (f x)) (snd (f x)) (outside p)) as [[[]|e|] o].
    + destruct (IH {| services := services p; serviceListeners := serviceListeners p;
                      outside := o; notified := notified p ++ [f x] |})
        as [Hs [Hl [n [Hn [Hcalls [Hret Hfail]]]]]].
      cbv zeta in Hs, Hl, Hcalls, Hret, Hfail.
      cbn [services serviceListeners notified] in Hs, Hl, Hcalls.
      split; [exact Hs|]. split; [exact Hl|]. exists (S n).
      cbn [length firstn map].
      split; [lia|]. split; [rewrite Hcalls, <- app_assoc; reflexivity|].
      split; [intros Hr; rewrite (Hret Hr); reflexivity | intros _; lia].
    + cbn [fst snd services serviceListeners notified].
      split; [reflexivity|]. split; [reflexivity|]. exists 1.
      cbn [length firstn map].
      split; [lia|]. split; [reflexivity|]. split; [discriminate | intros _; lia].
    + cbn [fst snd services serviceListeners notified].
      split; [reflexivity|]. split; [reflexivity|]. exists 1.
      cbn [length firstn map].
      split; [lia|]. split; [reflexivity|]. split; [discriminate | intros _; lia].
Qed.

Lemma register_run (service : Service) (p : Page) :
  register service p =
    for_of (serviceListeners p)
      (fun listener => call_listener (fst (listener, service)) (snd (listener, service)))
      {| services := set_add service (services p);
         serviceListeners := serviceListeners p;
         outside := outside p; notified := notified p |}.
Proof. reflexivity. Qed.

Lemma onRegister_run (listener : Listener) (p : Page) :
  onRegister listener p =
    match for_of (services p)
            (fun service => call_listener (fst (listener, service))
                              (snd (listener, service)))
            {| services := services p;
               serviceListeners := set_add listener (serviceListeners p);
               outside := outside p; notified := notified p |} with
    | (Ret _, p') => (Ret {| subscribed := listener |}, p')
    | (Throw e, p') => (Throw e, p')
    | (Hang, p') => (Hang, p')
    end.
Proof.
  unfold onRegister, bind, modify, gets, ret. cbn [services].
  destruct (for_of (services p) _ _) as [[[]|e|] p']; reflexivity.
Qed.

Lemma register_notified (service : Service) (p : Page) :
  exists n,
    notified (snd (register service p))
    = notified p ++ map (fun listener => (listener, service))
                      (firstn n (serviceListeners p)).
Proof.
  rewrite register_run.
  destruct (for_of_call_listener (fun listener => (listener, service))
              (serviceListeners p)
              {| services := set_add service (services p);
                 serviceListeners := serviceListeners p;
                 outside := outside p; notified := notified p |})
    as [_ [_ [n [_ [Hcalls _]]]]].
  exists n. exact Hcalls.
Qed.

(** ** What the registry keeps *)

(** X27.  With listeners that leave the registry alone while they run,
    the registry never forgets a service: whether the listeners return,
    throw or never settle, and whatever they change elsewhere, [register],
    [onRegister] and [unsubscribe] leave every registered service
    registered, in the same order; none of the three unregisters.  After
    [register] the service is registered.  And no operation puts a service
    or a listener twice into its set. *)
Theorem registry_keeps_services (p : Page) :
  (forall service,
      let p' := snd (register service p) in
      keeps_services p p'
      /\ service ∈ services p'
      /\ (well_formed p -> well_formed p'))
  /\ (forall listener,
        let p' := snd (onRegister listener p) in
        services p' = services p /\ (well_formed p -> well_formed p'))
  /\ (forall subscription,
        let p' := snd (unsubscribe subscription p) in
        services p' = services p /\ (well_formed p -> well_formed p')).
Proof.
  split; [|split].
  - intros service p'. subst p'. rewrite register_run.
    destruct (for_of_call_listener (fun listener => (listener, service))
                (serviceListeners p)
                {| services := set_add service (services p);
                   serviceListeners := serviceListeners p;
                   outside := outside p; notified := notified p |})
      as [Hs [Hl _]].
    cbv zeta in Hs, Hl. cbn [services serviceListeners] in Hs, Hl.
    split; [|split].
    + unfold keeps_services. rewrite Hs. apply set_add_extends.
    + rewrite Hs. apply elem_of_set_add. left. reflexivity.
    + intros [Hservices Hlisteners]. split.
      * rewrite Hs. apply set_add_NoDup. exact Hservices.
      * rewrite Hl. exact Hlisteners.
  - intros listener p'. subst p'. rewrite onRegister_run.
    destruct (for_of_call_listener (fun service => (listener, service)) (services p)
                {| services := services p;
                   serviceListeners := set_add listener (serviceListeners p);
                   outside := outside p; notified := notified p |})
      as [Hs [Hl _]].
    cbv zeta in Hs, Hl. cbn [services serviceListeners] in Hs, Hl.
    destruct (for_of (services p) _ _) as [[[]|e|] p1]; cbn [snd] in *.
    + split; [exact Hs|]. intros [Hservices Hlisteners]. split.
      * rewrite Hs. exact Hservices.
      * rewrite Hl. apply set_add_NoDup. exact Hlisteners.
    + split; [exact Hs|]. intros [Hservices Hlisteners]. split.
      * rewrite Hs. exact Hservices.
      * rewrite Hl. apply set_add_NoDup. exact Hlisteners.
    + split; [exact Hs|]. intros [Hservices Hlisteners]. split.
      * rewrite Hs. exact Hservices.
      * rewrite Hl. apply set_add_NoDup. exact Hlisteners.
  - intros subscription p'. subst p'. cbn [unsubscribe modify snd services].
    split; [reflexivity|]. intros [Hservices Hlisteners].
    split; [exact Hservices|]. cbn [serviceListeners].
    apply set_delete_NoDup. exact Hlisteners.
Qed.

(** ** Registering a service *)

(** X28.  [register] adds the service at the end of the set when it is not
    there and leaves the set as it is when it is, and in both cases calls
    the listeners with the service, in the order of their subscription: a
    service registered again is announced again.  The calls are an initial
    segment of the listeners: all of them when [register] returns, and at
    least one when it does not, the service being registered all the same.
    No listener is added or removed. *)
Theorem register_notifies (service : Service) (p : Page) :
  let r := register service p in
  (service ∈ services p -> services (snd r) = services p)
  /\ (service ∉ services p -> services (snd r) = services p ++ [service])
  /\ serviceListeners (snd r) = serviceListeners p
  /\ exists n,
      n <= length (serviceListeners p)
      /\ notifies p (snd r)
           (map (fun listener => (listener, service)) (firstn n (serviceListeners p)))
      /\ (fst r = Ret tt -> n = length (serviceListeners p))
      /\ (fst r <> Ret tt -> 0 < n).
Proof.
  intros r. subst r. rewrite register_run.
  destruct (for_of_call_listener (fun listener => (listener, service))
              (serviceListeners p)
              {| services := set_add service (services p);
                 serviceListeners := serviceListeners p;
                 outside := outside p; notified := notified p |})
    as [Hs [Hl [n [Hn [Hcalls [Hret Hfail]]]]]].
  cbv zeta in Hs, Hl, Hcalls, Hret, Hfail.
  cbn [services serviceListeners notified] in Hs, Hl, Hcalls.
  split; [|split; [|split]].
  - intros Hin. rewrite Hs. apply set_add_present. exact Hin.
  - intros Hout. rewrite Hs. apply set_add_absent. exact Hout.
  - exact Hl.
  - exists n. split; [exact Hn|]. split; [exact Hcalls|]. split; assumption.
Qed.

(** ** Subscribing and unsubscribing *)

(** X29.  [onRegister] subscribes the listener and calls it with the
    services registered so far, in the order of their registration: all of
    them when it returns.  The [unsubscribe] it returns removes the
    listener: the listeners are then those of before the subscription
    without this one, so subscribing and unsubscribing a listener that was
    not subscribed leaves the listeners as they were, and a listener
    subscribed twice is removed by one [unsubscribe].  A service registered
    after that is not announced to the listener. *)
Theorem onRegister_subscription (listener : Listener) (p : Page) :
  let r := onRegister listener p in
  listener ∈ serviceListeners (snd r)
  /\ exists n,
      n <= length (services p)
      /\ notifies p (snd r)
           (map (fun service => (listener, service)) (firstn n (services p)))
      /\ (forall subscription,
            fst r = Ret subscription ->
            n = length (services p)
            /\ (let p' := snd (unsubscribe subscription (snd r)) in
                (listener ∉ serviceListeners p')
                /\ serviceListeners p' = set_delete listener (serviceListeners p)
                /\ (listener ∉ serviceListeners p ->
                    serviceListeners p' = serviceListeners p)
                /\ (forall service announced,
                      (listener, announced) ∈ notified (snd (register service p')) ->
                      (listener, announced) ∈ notified (snd r)))).
Proof.
  intros r. subst r. rewrite onRegister_run.
  destruct (for_of_call_listener (fun service => (listener, service)) (services p)
              {| services := services p;
                 serviceListeners := set_add listener (serviceListeners p);
                 outside := outside p; notified := notified p |})
    as [Hs [Hl [n [Hn [Hcalls [Hret _]]]]]].
  cbv zeta in Hs, Hl, Hcalls, Hret.
  cbn [services serviceListeners notified] in Hs, Hl, Hcalls.
  destruct (for_of (services p) _ _) as [[[]|e|] p1]; cbn [fst snd] in *.
  - split; [rewrite Hl; apply elem_of_set_add; left; reflexivity|].
    exists n. split; [exact Hn|]. split; [exact Hcalls|].
    intros subscription Hsub. injection Hsub as <-.
    split; [exact (Hret eq_refl)|].
    set (p' := snd (unsubscribe {| subscribed := listener |} p1)).
    assert (Hlisteners : serviceListeners p' = set_delete listener (serviceListeners p)).
    { subst p'. cbn [unsubscribe modify snd serviceListeners subscribed].
      rewrite Hl. apply set_delete_add. }
    assert (Hnotified : notified p' = notified p1) by reflexivity.
    split; [|split; [|split]].
    + rewrite Hlisteners. intros Hin. apply elem_of_set_delete in Hin.
      destruct Hin as [Hne _]. apply Hne. reflexivity.
    + exact Hlisteners.
    + intros Hout. rewrite Hlisteners. apply set_delete_absent. exact Hout.
    + intros service announced Hin.
      destruct (register_notified service p') as [m Hlater].
      rewrite Hlater, Hnotified in Hin. apply elem_of_app in Hin.
      destruct Hin as [Hin|Hin]; [exact Hin|].
      exfalso. apply list_elem_of_In, in_map_iff in Hin.
      destruct Hin as [l [Hl' Hin]]. injection Hl' as -> _.
      apply list_elem_of_In in Hin. apply elem_of_take in Hin.
      destruct Hin as [i [Hin _]]. apply list_elem_of_lookup_2 in Hin.
      rewrite Hlisteners in Hin.
      apply elem_of_set_delete in Hin. destruct Hin as [Hne _]. apply Hne. reflexivity.
  - split; [rewrite Hl; apply elem_of_set_add; left; reflexivity|].
    exists n. split; [exact Hn|]. split; [exact Hcalls|].
    intros subscription Hsub. discriminate Hsub.
  - split; [rewrite Hl; apply elem_of_set_add; left; reflexivity|].
    exists n. split; [exact Hn|]. split; [exact Hcalls|].
    intros subscription Hsub. discriminate Hsub.
Qed.

(** ** Core and the registry of the inspector *)

(** X30.  [registerService] does nothing in production, without a window or
    without an object at [__xstate__]; otherwise, with the object of the
    inspector there, it is the [register] of the inspector.
    [unregisterService] looks neither at [IS_PRODUCTION] nor at the window:
    it does nothing without an object at [__xstate__], and with the object
    of the inspector, which has no [unregister], it throws a [TypeError] and
    the service stays registered. *)
Theorem devTools_with_inspector (g : Globals) (service : Service) (p : Page) :
  (IS_PRODUCTION g = true \/ window_defined g = false \/ xstate_global g = None ->
   registerService g service p = (Ret tt, p))
  /\ (IS_PRODUCTION g = false -> window_defined g = true ->
      xstate_global g = Some inspector_devtools ->
      registerService g service p = register service p)
  /\ (forall g',
        xstate_global g' = xstate_global g ->
        unregisterService g' service p = unregisterService g service p)
  /\ (xstate_global g = None -> unregisterService g service p = (Ret tt, p))
  /\ (xstate_global g = Some inspector_devtools ->
      exists e : Error,
        unregisterService g service p = (Throw e, p) /\ name e = "TypeError").
Proof.
  split; [|split; [|split; [|split]]].
  - unfold registerService, getDevTools.
    intros [Hprod|[Hwindow|Hnone]].
    + rewrite Hprod. reflexivity.
    + rewrite Hwindow, orb_true_r. reflexivity.
    + rewrite Hnone. destruct (IS_PRODUCTION g || negb (window_defined g)); reflexivity.
  - intros Hprod Hwindow Hinspector. unfold registerService, getDevTools.
    rewrite Hprod, Hwindow, Hinspector. reflexivity.
  - intros g' Hsame. unfold unregisterService, getDevTools. rewrite Hsame. reflexivity.
  - intros Hnone. unfold unregisterService, getDevTools. rewrite Hnone. reflexivity.
  - intros Hinspector. unfold unregisterService, getDevTools. rewrite Hinspector.
    eexists. split; reflexivity.
Qed.

End Registry.

(** ** Two listeners

    Services are named by their id.  [Logger] writes the id of the service
    it is called with to a log; [Faulty] throws. *)

Inductive watcher : Type := Faulty | Logger.

#[local] Instance watcher_eq_dec : EqDecision watcher.
Proof. solve_decision. Defined.

Definition run_watcher (listener : watcher) (service : string) (log : list string)
  : Outcome unit * list string :=
  match listener with
  | Logger => (Ret tt, log ++ [service])
  | Faulty => (Throw {| name := "Error"; message := "the listener failed" |}, log)
  end.

Definition WatchedPage : Type := @Page string watcher (list string).

(** One service registered, two listeners subscribed. *)
Definition watched : WatchedPage :=
  {| services := ["a"]; serviceListeners := [Faulty; Logger];
     outside := []; notified := [] |}.

(** Two services registered, no listener. *)
Definition unwatched : WatchedPage :=
  {| services := ["a"; "b"]; serviceListeners := []; outside := []; notified := [] |}.

(** Two services registered, and [Logger] subscribed after them. *)
Definition logged : WatchedPage :=
  snd (onRegister run_watcher Logger unwatched).

(** A production build, in a browser, with the inspector loaded. *)
Definition production : @Globals string watcher (list string) :=
  {| IS_PRODUCTION := true; window_defined := true;
     xstate_global := Some (inspector_devtools run_watcher) |}.

Lemma registry_keeps_services_witness :
  (* the first listener throws *)
  (serviceListeners watched = [Faulty; Logger]
   /\ well_formed watched
   /\ fst (register run_watcher "b" watched) <> Ret tt
   /\ well_formed (snd (register run_watcher "b" watched))
   /\ keeps_services watched (snd (register run_watcher "b" watched))
   /\ services (snd (register run_watcher "b" watched)) = ["a"; "b"])
  (* the listener returns, and writes to its log *)
  /\ (serviceListeners logged = [Logger]
      /\ well_formed logged
      /\ register run_watcher "c" logged
         = (Ret tt, snd (register run_watcher "c" logged))
      /\ outside (snd (register run_watcher "c" logged)) = outside logged ++ ["c"]
      /\ well_formed (snd (register run_watcher "c" logged))
      /\ keeps_services logged (snd (register run_watcher "c" logged))
      /\ services (snd (register run_watcher "c" logged)) = ["a"; "b"; "c"]).
Proof.
  assert (Hwatched : well_formed watched).
  { split; apply (bool_decide_unpack _); vm_compute; reflexivity. }
  assert (Hlogged : well_formed logged).
  { split; apply (bool_decide_unpack _); vm_compute; reflexivity. }
  split.
  - destruct (registry_keeps_services run_watcher watched) as [Hregister _].
    destruct (Hregister "b") as [Hkeeps [_ Hwf']].
    split; [reflexivity|]. split; [exact Hwatched|].
    split; [intros H; discriminate H|].
    split; [exact (Hwf' Hwatched)|]. split; [exact Hkeeps | reflexivity].
  - destruct (registry_keeps_services run_watcher logged) as [Hregister _].
    destruct (Hregister "c") as [Hkeeps [_ Hwf']].
    split; [reflexivity|]. split; [exact Hlogged|].
    split; [reflexivity|]. split; [reflexivity|].
    split; [exact (Hwf' Hlogged)|]. split; [exact Hkeeps | reflexivity].
Defined.

Lemma register_notifies_witness :
  ("b" ∉ services watched)
  /\ fst (register run_watcher "b" watched) <> Ret tt
  /\ services (snd (register run_watcher "b" watched)) = ["a"; "b"]
  /\ exists n,
      0 < n
      /\ notifies watched (snd (register run_watcher "b" watched))
           (map (fun listener => (listener, "b")) (firstn n (serviceListeners watched))).
Proof.
  assert (Hnew : "b" ∉ services watched).
  { intros Hin. apply list_elem_of_singleton in Hin. discriminate Hin. }
  assert (Hfails : fst (register run_watcher "b" watched) <> Ret tt)
    by (intros H; discriminate H).
  pose proof (register_notifies run_watcher "b" watched) as Hspec.
  cbv zeta in Hspec. destruct Hspec as [_ [Hadded [_ [n [_ [Hcalls [_ Hsome]]]]]]].
  split; [exact Hnew|]. split; [exact Hfails|]. split; [exact (Hadded Hnew)|].
  exists n. split; [exact (Hsome Hfails) | exact Hcalls].
Defined.

Lemma onRegister_subscription_witness :
  let r := onRegister run_watcher Logger unwatched in
  fst r = Ret {| subscribed := Logger |}
  /\ (Logger ∉ serviceListeners unwatched)
  /\ notified (snd r) = [(Logger, "a"); (Logger, "b")]
  /\ serviceListeners (snd (unsubscribe {| subscribed := Logger |} (snd r)))
     = serviceListeners unwatched.
Proof.
  intros r.
  assert (Hret : fst r = Ret {| subscribed := Logger |}) by reflexivity.
  assert (Hnew : Logger ∉ serviceListeners unwatched) by (intros Hin; inversion Hin).
  pose proof (onRegister_subscription run_watcher Logger unwatched) as Hspec.
  cbv zeta in Hspec. destruct Hspec as [_ [n [_ [Hcalls Hsub]]]].
  destruct (Hsub _ Hret) as [Hall [_ [_ [Hback _]]]].
  split; [exact Hret|]. split; [exact Hnew|]. split.
  - unfold notifies in Hcalls. rewrite Hall in Hcalls.
    etransitivity; [exact Hcalls | reflexivity].
  - exact (Hback Hnew).
Defined.

Lemma devTools_with_inspector_witness :
  xstate_global production = Some (inspector_devtools run_watcher)
  /\ registerService production "b" watched = (Ret tt, watched)
  /\ exists e : Error,
      unregisterService production "a" watched = (Throw e, watched)
      /\ name e = "TypeError".
Proof.
  assert (Hinspector : xstate_global production = Some (inspector_devtools run_watcher))
    by reflexivity.
  split; [exact Hinspector|].
  split.
  - exact (proj1 (devTools_with_inspector run_watcher production "b" watched)
             (or_introl eq_refl)).
  - destruct (devTools_with_inspector run_watcher production "a" watched)
      as [_ [_ [_ [_ Hthrows]]]].
    exact (Hthrows Hinspector).
Defined.

End Inspector.
